(** * Claims dashboard: validation, gateway, store and batch orchestration

    A shallow embedding of the client-side core of the claims dashboard
    (services/api.js, services/useClaimsApi.js, services/claimsFormUtils.js
    and contexts/AppContext.js), followed by the properties proved about it.

    Conventions of the embedding:
    - a JavaScript object is a finite map from property names to values
      ([gmap string JsVal]); reading an absent property gives [JUndefined];
      object spread is right-biased union;
    - a JavaScript number is an IEEE-754 binary64 value ([spec_float] at
      precision 53), so that rates and progress values are computed with the
      roundings the program performs;
    - a string is a sequence of code units; the alphabet of the model is the
      8-bit [ascii] type, read as the code units U+0000..U+00FF;
    - the remote claim service and the engine's built-ins that the program
      calls but does not define (Date parsing, Number-to-string) are
      parameters. *)

From Stdlib Require Import ZArith Ascii DecimalString Sorted.
From Stdlib Require Import Floats.SpecFloat.
From stdpp Require Import gmap strings list.

(** ** JavaScript values *)

Module Js.

Inductive JsVal : Type :=
| JUndefined
| JNull
| JBool (b : bool)
| JNum (x : spec_float)
| JStr (s : string).

(** *** Numbers *)

Definition prec : Z := 53.
Definition emax : Z := 1024.

(** The number denoted by an integer literal (exact below 2^53). *)
Definition num (z : Z) : spec_float := binary_normalize prec emax z 0 false.
Definition num_of_nat (n : nat) : spec_float := num (Z.of_nat n).

Definition div (x y : spec_float) : spec_float := SFdiv prec emax x y.
Definition mul (x y : spec_float) : spec_float := SFmul prec emax x y.

(** The number denoted by a decimal literal [n / 10^k]: the binary64 value
    nearest to the quotient, which is what one correctly rounded division
    of two exactly representable integers returns. *)
Definition decimal (n : Z) (pow10 : Z) : spec_float := div (num n) (num pow10).

(** [Math.round]: the integer nearest to [x], ties towards +infinity; the
    sign of [x] is kept when the result is zero.  A finite value with a
    non-negative exponent is already an integer. *)
Definition Math_round (x : spec_float) : spec_float :=
  match x with
  | S754_finite s m e =>
      if (0 <=? e)%Z then x
      else
        let n := ((cond_Zopp s (Z.pos m) * 2 + 2 ^ (- e)) / 2 ^ (1 - e))%Z in
        if (n =? 0)%Z then S754_zero s else num n
  | _ => x
  end.

Definition is_finite (x : spec_float) : bool :=
  match x with
  | S754_zero _ | S754_finite _ _ _ => true
  | _ => false
  end.

(** *** Strings *)

(** White space of [String.prototype.trim] within U+0000..U+00FF:
    TAB, LF, VT, FF, CR, SPACE and NO-BREAK SPACE. *)
Definition is_whitespace (c : ascii) : bool :=
  let n := Ascii.nat_of_ascii c in
  ((9 <=? n) && (n <=? 13)) || (n =? 32) || (n =? 160).

Fixpoint trimStart (s : string) : string :=
  match s with
  | EmptyString => EmptyString
  | String c r => if is_whitespace c then trimStart r else s
  end.

Definition trimEnd (s : string) : string :=
  String.rev (trimStart (String.rev s)).

Definition trim (s : string) : string := trimEnd (trimStart s).

(** [Array.prototype.join] on an array of strings. *)
Definition join (sep : string) (l : list string) : string :=
  String.concat sep l.

(** [String.prototype.includes]. *)
Fixpoint includes (hay needle : string) : bool :=
  if String.prefix needle hay then true
  else match hay with
       | EmptyString => false
       | String _ r => includes r needle
       end.

(** Decimal rendering of an integer inside a template literal. *)
Definition string_of_nat (n : nat) : string :=
  NilZero.string_of_uint (Nat.to_uint n).
Definition string_of_Z (z : Z) : string :=
  NilZero.string_of_int (Z.to_int z).

(** *** Coercions and operators *)

(** ToBoolean. *)
Definition truthy (v : JsVal) : bool :=
  match v with
  | JUndefined | JNull => false
  | JBool b => b
  | JNum (S754_zero _) | JNum S754_nan => false
  | JNum _ => true
  | JStr s => negb (String.eqb s EmptyString)
  end.

(** [a || b]. *)
Definition or (a b : JsVal) : JsVal := if truthy a then a else b.

(** [v === 'literal']. *)
Definition strict_eq_str (v : JsVal) (lit : string) : bool :=
  match v with
  | JStr s => String.eqb s lit
  | _ => false
  end.

Definition is_undefined (v : JsVal) : bool :=
  match v with JUndefined => true | _ => false end.

(** [typeof v === 'boolean']. *)
Definition typeof_boolean (v : JsVal) : bool :=
  match v with JBool _ => true | _ => false end.

(** Built-ins of the engine that the program calls and does not define. *)
Record Runtime : Type := {
  Number_toString : spec_float -> string;
  (** whether [new Date(s).getTime()] is a number for the string [s] *)
  Date_parse_ok : string -> bool;
  (** the message of the TypeError of a conversion to a primitive value
      that finds none *)
  ToPrimitive_error : string
}.

(** ToString. *)
Definition ToString (rt : Runtime) (v : JsVal) : string :=
  match v with
  | JUndefined => "undefined"
  | JNull => "null"
  | JBool true => "true"
  | JBool false => "false"
  | JNum x => Number_toString rt x
  | JStr s => s
  end.

(** [!isNaN(new Date(v).getTime())]: a string is parsed, any other value
    is converted to a number and kept when its magnitude is at most
    8.64e15 milliseconds. *)
Definition Date_valid (rt : Runtime) (v : JsVal) : bool :=
  match v with
  | JStr s => Date_parse_ok rt s
  | JNum x => is_finite x && SFleb (SFabs x) (num 8640000000000000)
  | JBool _ | JNull => true
  | JUndefined => false
  end.

(** Objects: property read [o[k]], spread [{...a, ...b}]. *)
Definition get (o : gmap string JsVal) (k : string) : JsVal :=
  default JUndefined (o !! k).

Definition spread (a b : gmap string JsVal) : gmap string JsVal := b ∪ a.

(** [errors.push(e)] on an array held in a local variable. *)
Definition push {A} (l : list A) (x : A) : list A := l ++ [x].

End Js.

Import Js.

Abbreviation Obj := (gmap string JsVal).

(** ** services/api.js: ClaimUtils *)

Module ClaimUtils.

(** The pattern
    [/^[0-9a-f]{8}-[0-9a-f]{4}-[1-5][0-9a-f]{3}-[89ab][0-9a-f]{3}-[0-9a-f]{12}$/i]
    as a matcher that consumes the string group by group. *)

Definition in_range (lo hi : nat) (c : ascii) : bool :=
  let n := Ascii.nat_of_ascii c in (lo <=? n) && (n <=? hi).

(** [[0-9a-f]] under the [i] flag. *)
Definition is_hex (c : ascii) : bool :=
  in_range 48 57 c || in_range 97 102 c || in_range 65 70 c.

(** [[1-5]]. *)
Definition is_version (c : ascii) : bool := in_range 49 53 c.

(** [[89ab]] under the [i] flag. *)
Definition is_variant (c : ascii) : bool :=
  in_range 56 57 c || in_range 97 98 c || in_range 65 66 c.

Definition is_dash (c : ascii) : bool := Ascii.nat_of_ascii c =? 45.

(** Consume exactly [n] characters of the class [p]. *)
Fixpoint eat (p : ascii -> bool) (n : nat) (s : string) : option string :=
  match n with
  | O => Some s
  | S n' =>
      match s with
      | String c r => if p c then eat p n' r else None
      | EmptyString => None
      end
  end.

Definition uuid_match (s : string) : bool :=
  match
    s ← eat is_hex 8 s; s ← eat is_dash 1 s;
    s ← eat is_hex 4 s; s ← eat is_dash 1 s;
    s ← eat is_version 1 s; s ← eat is_hex 3 s; s ← eat is_dash 1 s;
    s ← eat is_variant 1 s; s ← eat is_hex 3 s; s ← eat is_dash 1 s;
    eat is_hex 12 s
  with
  | Some EmptyString => true
  | _ => false
  end.

(** [uuidRegex.test(v)]: the argument is converted to a string first. *)
Definition uuidRegex_test (rt : Runtime) (v : JsVal) : bool :=
  uuid_match (ToString rt v).

Definition requiredFields : list string :=
  ["provider_id"; "risk_id"; "patient_id"; "policy_id"; "summary"].

Definition uuidFields : list string :=
  ["provider_id"; "risk_id"; "patient_id"; "policy_id"].

Definition validStatuses : list string :=
  ["Submitted"; "Pending"; "Approved"; "Denied"; "Under Review"].

Definition booleanFields : list string :=
  ["ex_gratia_flag"; "appeal_case_flag"].

(** [!v || (typeof v === 'string' && v.trim() === '')]. *)
Definition blank_or_missing (v : JsVal) : bool :=
  negb (truthy v)
  || match v with
     | JStr s => String.eqb (trim s) EmptyString
     | _ => false
     end.

(** [validStatuses.includes(v)]. *)
Definition statuses_include (v : JsVal) : bool :=
  existsb (strict_eq_str v) validStatuses.

Record Report : Type := { isValid : bool; errors : list string }.

Definition check_required (claimData : Obj) (errors : list string) (field : string)
  : list string :=
  if blank_or_missing (get claimData field)
  then push errors (field +:+ " is required")
  else errors.

Definition check_uuid (rt : Runtime) (claimData : Obj) (errors : list string)
    (field : string) : list string :=
  if truthy (get claimData field) && negb (uuidRegex_test rt (get claimData field))
  then push errors (field +:+ " must be a valid UUID")
  else errors.

Definition check_status (claimData : Obj) (errors : list string) : list string :=
  if truthy (get claimData "status") && negb (statuses_include (get claimData "status"))
  then push errors ("status must be one of: " +:+ join ", " validStatuses)
  else errors.

Definition check_boolean (claimData : Obj) (errors : list string) (field : string)
  : list string :=
  if negb (is_undefined (get claimData field))
     && negb (typeof_boolean (get claimData field))
  then push errors (field +:+ " must be a boolean value")
  else errors.

Definition check_date (rt : Runtime) (claimData : Obj) (errors : list string)
  : list string :=
  if truthy (get claimData "submission_date")
  then if Date_valid rt (get claimData "submission_date")
       then errors
       else push errors "submission_date must be a valid ISO date string"
  else errors.

Definition validateClaim (rt : Runtime) (claimData : Obj) : Report :=
  let errors := [] in
  let errors := fold_left (check_required claimData) requiredFields errors in
  let errors := fold_left (check_uuid rt claimData) uuidFields errors in
  let errors := check_status claimData errors in
  let errors := fold_left (check_boolean claimData) booleanFields errors in
  let errors := check_date rt claimData errors in
  {| isValid := length errors =? 0; errors := errors |}.

(** [createClaim(claimData)]: the draft defaults, overridden by the given
    properties; [now] is the reading of the clock. *)
Definition claim_draft_defaults (now : string) : Obj :=
  {[ "provider_id" := JStr EmptyString;
     "risk_id" := JStr EmptyString;
     "status" := JStr "Submitted";
     "submission_date" := JStr now;
     "summary" := JStr EmptyString;
     "ex_gratia_flag" := JBool false;
     "appeal_case_flag" := JBool false;
     "reason_code" := JNull;
     "reason_description" := JNull;
     "patient_id" := JStr EmptyString;
     "policy_id" := JStr EmptyString ]}.

Definition createClaim (now : string) (claimData : Obj) : Obj :=
  spread (claim_draft_defaults now) claimData.

End ClaimUtils.

(** ** services/claimsFormUtils.js: FormUtils *)

Module FormUtils.

Record Validation : Type := {
  pattern : option (string -> bool);
  minLength : option nat;
  maxLength : option nat;
  message : option string
}.

Record FieldConfig : Type := {
  label : string;
  required : bool;
  validation : option Validation
}.

Definition uuid_validation : Validation :=
  {| pattern := Some ClaimUtils.uuid_match; minLength := None; maxLength := None;
     message := Some "Must be a valid UUID format" |}.

Definition summary_validation : Validation :=
  {| pattern := None; minLength := Some 10; maxLength := Some 1000;
     message := Some "Summary must be between 10 and 1000 characters" |}.

(** The field table, in the order of its keys. *)
Definition CLAIM_FORM_FIELDS : list (string * FieldConfig) :=
  [ ("provider_id",
     {| label := "Provider ID"; required := true; validation := Some uuid_validation |});
    ("risk_id",
     {| label := "Risk ID"; required := true; validation := Some uuid_validation |});
    ("patient_id",
     {| label := "Patient ID"; required := true; validation := Some uuid_validation |});
    ("policy_id",
     {| label := "Policy ID"; required := true; validation := Some uuid_validation |});
    ("summary",
     {| label := "Claim Summary"; required := true;
        validation := Some summary_validation |});
    ("status", {| label := "Status"; required := true; validation := None |});
    ("submission_date",
     {| label := "Submission Date"; required := false; validation := None |});
    ("ex_gratia_flag",
     {| label := "Ex Gratia Payment"; required := false; validation := None |});
    ("appeal_case_flag",
     {| label := "Appeal Case"; required := false; validation := None |}) ].

(** [value.length < n] and [value.length > n]: only a string has a length;
    for any other value the comparison with [undefined] is false. *)
Definition length_lt (value : JsVal) (n : nat) : bool :=
  match value with JStr s => String.length s <? n | _ => false end.
Definition length_gt (value : JsVal) (n : nat) : bool :=
  match value with JStr s => n <? String.length s | _ => false end.

(** [config.validation?.minLength] and [?.maxLength] as conditions: a
    missing bound and the bound 0 are both falsy. *)
Definition bound (o : option nat) : option nat :=
  match o with Some (S n) => Some (S n) | _ => None end.

Definition validateField (rt : Runtime) (fieldName : string) (value : JsVal)
    (config : FieldConfig) : list string :=
  let errors := [] in
  if required config && ClaimUtils.blank_or_missing value
  then push errors (label config +:+ " is required")
  else if ClaimUtils.blank_or_missing value then errors
  else
    let errors :=
      match validation config ≫= pattern with
      | Some test =>
          if negb (test (ToString rt value))
          then push errors
                 (match validation config ≫= message with
                  | Some m => if String.eqb m EmptyString
                              then label config +:+ " format is invalid" else m
                  | None => label config +:+ " format is invalid"
                  end)
          else errors
      | None => errors
      end in
    let errors :=
      match bound (validation config ≫= minLength) with
      | Some n =>
          if length_lt value n
          then push errors (label config +:+ " must be at least "
                            +:+ string_of_nat n +:+ " characters")
          else errors
      | None => errors
      end in
    let errors :=
      match bound (validation config ≫= maxLength) with
      | Some n =>
          if length_gt value n
          then push errors (label config +:+ " must not exceed "
                            +:+ string_of_nat n +:+ " characters")
          else errors
      | None => errors
      end in
    errors.

Record FormReport : Type := {
  isValid : bool;
  errors : gmap string (list string)
}.

(** One step of the [forEach] of [validateForm]: the pair is
    [(errors, hasErrors)]. *)
Definition validateForm_step (rt : Runtime) (formData : Obj)
    (acc : gmap string (list string) * bool) (entry : string * FieldConfig)
  : gmap string (list string) * bool :=
  let '(fieldName, fieldConfig) := entry in
  let fieldErrors := validateField rt fieldName (get formData fieldName) fieldConfig in
  if 0 <? length fieldErrors
  then (<[fieldName := fieldErrors]> acc.1, true)
  else acc.

Definition validateForm (rt : Runtime) (formData : Obj) : FormReport :=
  let '(errors, hasErrors) :=
    fold_left (validateForm_step rt formData) CLAIM_FORM_FIELDS (∅, false) in
  {| isValid := negb hasErrors; errors := errors |}.

End FormUtils.

(** ** Thrown errors and the outside world *)

Module Effects.

(** The outcome of a call: a value, or a thrown [Error] with its message. *)
Inductive Res (A : Type) : Type :=
| Ret (a : A)
| Throw (message : string).
Arguments Ret {A} a.
Arguments Throw {A} message.

(** A JSON value, as the body of a response holds them; the members of an
    object are kept as the list of its keys and values. *)
#[warnings="-register-all"]
Inductive Json : Type :=
| JsonNull
| JsonBool (b : bool)
| JsonNum (x : spec_float)
| JsonStr (s : string)
| JsonArr (items : list Json)
| JsonObj (members : list (string * Json)).

(** ToBoolean of a JSON value: arrays and objects are truthy. *)
Definition Json_truthy (v : Json) : bool :=
  match v with
  | JsonNull => false
  | JsonBool b => b
  | JsonNum x => truthy (JNum x)
  | JsonStr s => truthy (JStr s)
  | JsonArr _ | JsonObj _ => true
  end.

(** Whether a parsed object has the key [k] as an own property. *)
Definition has_member (k : string) (members : list (string * Json)) : bool :=
  existsb (fun member => String.eqb (fst member) k) members.

(** ToString of a JSON value, [None] when the conversion throws.  An array
    is the join by commas of its converted elements, [null] elements giving
    the empty string.  A parsed object inherits [Object.prototype.toString]
    and is [[object Object]], unless it has a member [toString] of its own:
    that member is never a function, [valueOf] gives no primitive either,
    and the conversion throws a TypeError. *)
Fixpoint Json_toString (rt : Runtime) (v : Json) : option string :=
  match v with
  | JsonNull => Some "null"
  | JsonBool true => Some "true"
  | JsonBool false => Some "false"
  | JsonNum x => Some (Number_toString rt x)
  | JsonStr s => Some s
  | JsonArr items =>
      option_map (join ",")
        ((fix elements (l : list Json) : option (list string) :=
            match l with
            | [] => Some []
            | item :: rest =>
                match match item with
                      | JsonNull => Some EmptyString
                      | _ => Json_toString rt item
                      end, elements rest with
                | Some s, Some ss => Some (s :: ss)
                | _, _ => None
                end
            end) items)
  | JsonObj members =>
      if has_member "toString" members then None else Some "[object Object]"
  end.

(** What axios hands to the response interceptor: the response, or an
    error with a response ([error.response.status], the [message] property
    of [error.response.data] when the body is an object that has one,
    [error.message]), an error with a request and no response, or any
    other error. *)
Inductive AxiosResult (A : Type) : Type :=
| Fulfilled (data : A)
| HttpError (status : Z) (data_message : option Json) (message : string)
| NoResponse (message : string) (code : string)
| SetupError (message : string).
Arguments Fulfilled {A} data.
Arguments HttpError {A} status data_message message.
Arguments NoResponse {A} message code.
Arguments SetupError {A} message.

(** The requests of the claim endpoints. *)
Inductive Request : Type :=
| GET_claims (params : Obj)
| POST_claims (body : Obj)
| PUT_claim (claimId : JsVal) (body : Obj).

(** The remote claim service and the clock, over a state [Remote] of
    their own. *)
Record Backend (Remote : Type) : Type := {
  list_claims : Obj -> Remote -> AxiosResult (list Obj) * Remote;
  create_claim : Obj -> Remote -> AxiosResult Obj * Remote;
  update_claim : JsVal -> Obj -> Remote -> AxiosResult Obj * Remote;
  (** [new Date().toISOString()] *)
  clock : Remote -> string
}.
Arguments list_claims {Remote} _ _ _.
Arguments create_claim {Remote} _ _ _.
Arguments update_claim {Remote} _ _ _ _.
Arguments clock {Remote} _ _.

(** The world a call runs in: the remote state and the requests sent so
    far, oldest first. *)
Record World (Remote : Type) : Type := {
  remote : Remote;
  sent : list Request
}.
Arguments remote {Remote} _.
Arguments sent {Remote} _.

(** Asynchronous functions: state passing over the world, with thrown
    errors. *)
Definition IO (Remote A : Type) : Type := World Remote -> Res A * World Remote.

Definition io_ret {Remote A} (a : A) : IO Remote A := fun w => (Ret a, w).

Definition io_throw {Remote A} (message : string) : IO Remote A :=
  fun w => (Throw message, w).

Definition io_bind {Remote A B} (m : IO Remote A) (k : A -> IO Remote B)
  : IO Remote B :=
  fun w =>
    match m w with
    | (Ret a, w') => k a w'
    | (Throw e, w') => (Throw e, w')
    end.

End Effects.

Import Effects.

Notation "x <~ m ;; k" := (io_bind m (fun x => k))
  (at level 100, m at next level, right associativity).

(** ** services/api.js: the axios instance and apiService *)

Module Api.

(** *** The response interceptor *)

Definition msg_unauthorized : string :=
  "Invalid API key. Please check your credentials.".
Definition msg_forbidden : string :=
  "Access forbidden. Please check your permissions.".
Definition msg_not_found : string :=
  "Endpoint not found. Please check the API URL.".
Definition msg_method_not_allowed : string :=
  "Method not allowed. The backend endpoint may not support this HTTP method.".
Definition msg_rate_limited : string :=
  "Rate limit exceeded. Please try again later.".
Definition msg_server_error : string :=
  "Server error. Please try again later.".
Definition msg_cors : string :=
  "CORS error: Please ensure the backend server is running and configured to allow requests from this origin. Check the proxy configuration.".
Definition msg_network : string :=
  "Network error. Please check your connection and ensure the backend is running.".
Definition msg_unexpected : string := "An unexpected error occurred.".

(** [a || b] on strings that may be missing. *)
Definition or_else (a : option string) (b : string) : string :=
  match a with
  | Some s => if String.eqb s EmptyString then b else s
  | None => b
  end.

(** [data?.message || fallback] as the argument of [new Error]: a truthy
    message is converted to a string, and a conversion that throws leaves
    its own TypeError as the error thrown. *)
Definition message_or_else (rt : Runtime) (data_message : option Json)
    (fallback : string) : string :=
  match data_message with
  | Some v =>
      if Json_truthy v
      then match Json_toString rt v with
           | Some s => s
           | None => ToPrimitive_error rt
           end
      else fallback
  | None => fallback
  end.

(** The message thrown for an error that carries a response. *)
Definition status_message (rt : Runtime) (status : Z) (data_message : option Json)
    (message : string) : string :=
  match status with
  | 401%Z => msg_unauthorized
  | 403%Z => msg_forbidden
  | 404%Z => msg_not_found
  | 405%Z => msg_method_not_allowed
  | 429%Z => msg_rate_limited
  | 500%Z => msg_server_error
  | _ => message_or_else rt data_message
           ("HTTP " +:+ string_of_Z status +:+ ": " +:+ message)
  end.

Definition responseInterceptor {A} (rt : Runtime) (r : AxiosResult A) : Res A :=
  match r with
  | Fulfilled data => Ret data
  | HttpError status data_message message =>
      Throw (status_message rt status data_message message)
  | NoResponse message code =>
      if includes message "CORS" || String.eqb code "ERR_NETWORK"
      then Throw msg_cors
      else Throw msg_network
  | SetupError message => Throw (or_else (Some message) msg_unexpected)
  end.

Section Service.

Context {Remote : Type} (be : Backend Remote) (rt : Runtime).

(** One call through the axios instance: the request is recorded, the
    backend answers, the interceptor maps the answer. *)
Definition call {A} (req : Request)
    (handler : Remote -> AxiosResult A * Remote) : IO Remote A :=
  fun w =>
    let '(r, remote') := handler (remote w) in
    (responseInterceptor rt r, {| remote := remote'; sent := sent w ++ [req] |}).

Definition now : IO Remote string := fun w => (Ret (clock be (remote w)), w).

Definition requiredFields : list string :=
  ["provider_id"; "risk_id"; "patient_id"; "policy_id"; "summary"].

Definition claim_defaults (submission_date : string) : Obj :=
  {[ "status" := JStr "Submitted";
     "submission_date" := JStr submission_date;
     "ex_gratia_flag" := JBool false;
     "appeal_case_flag" := JBool false;
     "reason_code" := JNull;
     "reason_description" := JNull ]}.

Definition submitClaim (claimData : Obj) : IO Remote Obj :=
  let missingFields :=
    filter (fun field => negb (truthy (get claimData field)) = true) requiredFields in
  if 0 <? length missingFields
  then io_throw ("Missing required fields: " +:+ join ", " missingFields)
  else
    date <~ now ;;
    let completeClaimData := spread (claim_defaults date) claimData in
    call (POST_claims completeClaimData) (create_claim be completeClaimData).

(** [params] of [getClaims]: only [skip] and [limit] are forwarded. *)
Definition forward (filters : Obj) (name : string) (params : Obj) : Obj :=
  if is_undefined (get filters name) then params
  else <[name := get filters name]> params.

(** [a === b]. *)
Definition strict_eq (a b : JsVal) : bool :=
  match a, b with
  | JUndefined, JUndefined | JNull, JNull => true
  | JBool x, JBool y => Bool.eqb x y
  | JNum x, JNum y => SFeqb x y
  | JStr x, JStr y => String.eqb x y
  | _, _ => false
  end.

Definition client_filter (filters : Obj) (name : string) (claims : list Obj)
  : list Obj :=
  if truthy (get filters name)
  then filter (fun claim => strict_eq (get claim name) (get filters name) = true) claims
  else claims.

Definition getClaims (filters : Obj) : IO Remote (list Obj) :=
  let params := forward filters "limit" (forward filters "skip" ∅) in
  claims <~ call (GET_claims params) (list_claims be params) ;;
  let claims := client_filter filters "status" claims in
  let claims := client_filter filters "provider_id" claims in
  let claims := client_filter filters "patient_id" claims in
  let claims := client_filter filters "policy_id" claims in
  io_ret claims.

Definition updateClaimStatus (claimId status reasonCode reasonDescription : JsVal)
  : IO Remote Obj :=
  let updateData : Obj :=
    {[ "status" := status;
       "reason_code" := reasonCode;
       "reason_description" := reasonDescription ]} in
  call (PUT_claim claimId updateData) (update_claim be claimId updateData).

Definition processClaim (claimId : JsVal) : IO Remote Obj :=
  updateClaimStatus claimId (JStr "Under Review") JNull
    (JStr "Claim is being processed").

(** An entry of the array returned by [processPendingClaims]:
    [{claim_id, success: true, result, originalStatus}] or
    [{claim_id, success: false, error, originalStatus}]. *)
Record PendingEntry : Type := {
  claim_id : JsVal;
  success : bool;
  result : option Obj;
  error : option string;
  originalStatus : JsVal
}.

Definition is_pending (claim : Obj) : bool :=
  strict_eq_str (get claim "status") "Submitted"
  || strict_eq_str (get claim "status") "Pending".

(** The [for ... of] loop over the pending claims, with the array
    [results] it pushes to. *)
Fixpoint process_loop (pendingClaims : list Obj) (results : list PendingEntry)
  : IO Remote (list PendingEntry) :=
  match pendingClaims with
  | [] => io_ret results
  | claim :: rest =>
      let id := or (get claim "claim_id") (get claim "id") in
      fun w =>
        match processClaim id w with
        | (Ret r, w') =>
            process_loop rest
              (push results
                 {| claim_id := id; success := true; result := Some r;
                    error := None; originalStatus := get claim "status" |}) w'
        | (Throw message, w') =>
            process_loop rest
              (push results
                 {| claim_id := id; success := false; result := None;
                    error := Some message;
                    originalStatus := get claim "status" |}) w'
        end
  end.

Definition processPendingClaims : IO Remote (list PendingEntry) :=
  claims <~ getClaims {[ "limit" := JNum (num 100) ]} ;;
  let pendingClaims := filter (fun claim => is_pending claim = true) claims in
  if length pendingClaims =? 0
  then io_ret []
  else process_loop pendingClaims [].

(** An entry of the arrays built by [submitBatchClaims]:
    [{index, success: true, data: result}] in [results] and
    [{index, success: false, error, data: claim}] in [errors]. *)
Record BatchItem : Type := {
  index : nat;
  item_success : bool;
  item_error : option string;
  data : Obj
}.

Record BatchSummary : Type := {
  total : nat;
  successful : nat;
  failed : nat;
  results : list BatchItem;
  errors : list BatchItem
}.

(** The [for] loop from index [i] on; [rest] is [claimsArray] from
    index [i]. *)
Fixpoint submit_loop (rest : list Obj) (i : nat) (results errors : list BatchItem)
  : IO Remote (list BatchItem * list BatchItem) :=
  match rest with
  | [] => io_ret (results, errors)
  | claim :: rest' =>
      fun w =>
        match submitClaim claim w with
        | (Ret r, w') =>
            submit_loop rest' (S i)
              (push results
                 {| index := i; item_success := true; item_error := None;
                    data := r |})
              errors w'
        | (Throw message, w') =>
            submit_loop rest' (S i) results
              (push errors
                 {| index := i; item_success := false;
                    item_error := Some message; data := claim |})
              w'
        end
  end.

Definition submitBatchClaims (claimsArray : list Obj) : IO Remote BatchSummary :=
  if length claimsArray =? 0
  then io_throw "Claims array is required and cannot be empty"
  else
    lists <~ submit_loop claimsArray 0 [] [] ;;
    io_ret {| total := length claimsArray;
              successful := length lists.1;
              failed := length lists.2;
              results := lists.1;
              errors := lists.2 |}.

(** [healthCheck]: one list request with [limit] 1; the report is
    [{ status: 'healthy', data }]. *)
Record HealthReport : Type := {
  health_status : string;
  health_data : list Obj
}.

Definition health_params : Obj := {[ "limit" := JNum (num 1) ]}.

Definition healthCheck : IO Remote HealthReport :=
  data <~ call (GET_claims health_params) (list_claims be health_params) ;;
  io_ret {| health_status := "healthy"; health_data := data |}.

(** [testConnection]: the health check with its error caught. *)
Record ConnectionReport : Type := {
  connection_success : bool;
  connection_message : string
}.

Definition testConnection : IO Remote ConnectionReport :=
  fun w =>
    match healthCheck w with
    | (Ret _, w') =>
        (Ret {| connection_success := true;
                connection_message := "Connection successful" |}, w')
    | (Throw message, w') =>
        (Ret {| connection_success := false; connection_message := message |}, w')
    end.

End Service.

End Api.

(** ** services/api.js: the configuration of the axios instance *)

Module ApiConfig.

(** The build-time environment: whether [NODE_ENV] is development, and the
    two optional variables. *)
Record Env : Type := {
  development : bool;
  REACT_APP_API_BASE_URL : option string;
  REACT_APP_API_KEY : option string
}.

Definition API_BASE_URL (env : Env) : string :=
  if development env then EmptyString
  else Api.or_else (REACT_APP_API_BASE_URL env) "http://localhost:8000".

Definition API_KEY (env : Env) : string :=
  Api.or_else (REACT_APP_API_KEY env) "your_api_key_here".

(** [localStorage]: [getItem] gives [None] for a key that is not stored. *)
Definition getItem (storage : gmap string string) (key : string) : option string :=
  storage !! key.

Definition setItem (key value : string) (storage : gmap string string)
  : gmap string string :=
  <[key := value]> storage.

(** The mutable configuration: the defaults of the axios instance and the
    local storage. *)
Record Config : Type := {
  baseURL : string;
  api_key_header : string;
  localStorage : gmap string string
}.

(** [!storedBaseUrl || storedBaseUrl.includes(':8080')]. *)
Definition stale_base_url (stored : option string) : bool :=
  match stored with
  | None => true
  | Some url => String.eqb url EmptyString || includes url ":8080"
  end.

Definition initializeApiConfig (env : Env) (storage : gmap string string)
  : gmap string string :=
  let storage :=
    if stale_base_url (getItem storage "apiBaseUrl")
    then setItem "apiBaseUrl"
           (if development env then EmptyString else "http://localhost:8000") storage
    else storage in
  match getItem storage "apiKey" with
  | Some key =>
      if String.eqb key EmptyString then setItem "apiKey" (API_KEY env) storage
      else storage
  | None => setItem "apiKey" (API_KEY env) storage
  end.

(** [axios.create] after the initialization. *)
Definition create (env : Env) (storage : gmap string string) : Config :=
  let storage := initializeApiConfig env storage in
  {| baseURL := Api.or_else (getItem storage "apiBaseUrl") (API_BASE_URL env);
     api_key_header := Api.or_else (getItem storage "apiKey") (API_KEY env);
     localStorage := storage |}.

(** The request interceptor: the [api-key] header a request leaves with. *)
Definition request_api_key (c : Config) : string :=
  match getItem (localStorage c) "apiKey" with
  | Some key => if String.eqb key EmptyString then api_key_header c else key
  | None => api_key_header c
  end.

Definition updateConfig (baseUrl apiKey : string) (c : Config) : Config :=
  {| baseURL := baseUrl;
     api_key_header := apiKey;
     localStorage := setItem "apiKey" apiKey (setItem "apiBaseUrl" baseUrl (localStorage c)) |}.

Record ConfigReport : Type := { baseUrl : string; apiKey : string }.

Definition getConfig (env : Env) (c : Config) : ConfigReport :=
  {| baseUrl := Api.or_else (getItem (localStorage c) "apiBaseUrl") (API_BASE_URL env);
     apiKey := Api.or_else (getItem (localStorage c) "apiKey") (API_KEY env) |}.

End ApiConfig.

(** ** services/claimsFormUtils.js: form data and bulk operations *)

Module JsString.

(** [s.split(sep)] for a separator of one character. *)
Fixpoint split (sep : ascii) (s : string) : list string :=
  match s with
  | EmptyString => [EmptyString]
  | String c r =>
      if Ascii.eqb c sep then EmptyString :: split sep r
      else match split sep r with
           | h :: t => String c h :: t
           | [] => [String c EmptyString]
           end
  end.

(** [toLowerCase] on the code units U+0000..U+00FF: A-Z and the capital
    letters U+00C0..U+00DE, the multiplication sign U+00D7 excepted. *)
Definition lower_char (c : ascii) : ascii :=
  let n := Ascii.nat_of_ascii c in
  if ((65 <=? n) && (n <=? 90))
     || ((192 <=? n) && (n <=? 222) && negb (n =? 215))
  then Ascii.ascii_of_nat (n + 32) else c.

Fixpoint toLowerCase (s : string) : string :=
  match s with
  | EmptyString => EmptyString
  | String c r => String (lower_char c) (toLowerCase r)
  end.

Definition comma : ascii := Ascii.ascii_of_nat 44.
Definition line_feed : ascii := Ascii.ascii_of_nat 10.

End JsString.

Module FormData.

(** [formatFormDataForApi(formData)].  [toISOString s] is
    [new Date(s).toISOString()], which throws for a string that is not a
    date. *)
Definition or_null (v : JsVal) : JsVal := if truthy v then v else JNull.

Definition formatFormDataForApi (toISOString : string -> Res string) (formData : Obj)
  : Res Obj :=
  let apiData := formData in
  let converted :=
    match get apiData "submission_date" with
    | JStr s =>
        if truthy (JStr s)
        then match toISOString s with
             | Ret iso => Ret (<["submission_date" := JStr iso]> apiData)
             | Throw message => Throw message
             end
        else Ret apiData
    | _ => Ret apiData
    end in
  match converted with
  | Throw message => Throw message
  | Ret apiData =>
      let apiData :=
        <["ex_gratia_flag" := JBool (truthy (get apiData "ex_gratia_flag"))]> apiData in
      let apiData :=
        <["appeal_case_flag" := JBool (truthy (get apiData "appeal_case_flag"))]> apiData in
      let apiData := <["reason_code" := or_null (get apiData "reason_code")]> apiData in
      let apiData :=
        <["reason_description" := or_null (get apiData "reason_description")]> apiData in
      Ret apiData
  end.

End FormData.

Module BulkUtils.

(** [claim[header] = value]: the assignment of a string to the key
    [__proto__] goes to the prototype setter, which ignores it. *)
Definition assign (claim : Obj) (cell : string * string) : Obj :=
  if String.eqb cell.1 "__proto__" then claim
  else <[cell.1 := JStr cell.2]> claim.

(** [if (claim[flag]) claim[flag] = claim[flag].toLowerCase() === 'true']:
    the values of a parsed row are strings. *)
Definition convert_flag (flag : string) (claim : Obj) : Obj :=
  match get claim flag with
  | JStr s =>
      if truthy (JStr s)
      then <[flag := JBool (String.eqb (JsString.toLowerCase s) "true")]> claim
      else claim
  | _ => claim
  end.

Definition cells (line : string) : list string :=
  trim <$> JsString.split JsString.comma line.

Definition row_claim (headers values : list string) : Obj :=
  let claim := fold_left assign (zip headers values) ∅ in
  let claim := convert_flag "ex_gratia_flag" claim in
  convert_flag "appeal_case_flag" claim.

(** The [for] loop over the lines from index [i] on, with the array
    [claims] it pushes to. *)
Fixpoint parse_rows (headers : list string) (rest : list string) (i : nat)
    (claims : list Obj) : Res (list Obj) :=
  match rest with
  | [] => Ret claims
  | line :: rest' =>
      let values := cells line in
      if negb (length values =? length headers)
      then Throw ("Row " +:+ string_of_nat (i + 1) +:+ ": Column count mismatch")
      else parse_rows headers rest' (S i) (push claims (row_claim headers values))
  end.

Definition parseCSVToClaims (csvText : string) : Res (list Obj) :=
  let lines := JsString.split JsString.line_feed (trim csvText) in
  let headers := cells (hd EmptyString lines) in
  parse_rows headers (tl lines) 1 [].

(** The entries of [validateBulkClaims]: [{index, claim}] in [valid] and
    [{index, claim, errors}] in [invalid]. *)
Record BulkEntry : Type := {
  index : nat;
  claim : Obj;
  entry_errors : list string
}.

Record BulkReport : Type := {
  valid : list BulkEntry;
  invalid : list BulkEntry;
  totalCount : nat;
  validCount : nat;
  invalidCount : nat
}.

Definition validateBulk_step (rt : Runtime) (acc : BulkReport * nat) (c : Obj)
  : BulkReport * nat :=
  let '(results, i) := acc in
  let validation := ClaimUtils.validateClaim rt c in
  (if ClaimUtils.isValid validation
   then {| valid := push (valid results)
                      {| index := i; claim := c; entry_errors := [] |};
           invalid := invalid results;
           totalCount := totalCount results;
           validCount := S (validCount results);
           invalidCount := invalidCount results |}
   else {| valid := valid results;
           invalid := push (invalid results)
                        {| index := i; claim := c;
                           entry_errors := ClaimUtils.errors validation |};
           totalCount := totalCount results;
           validCount := validCount results;
           invalidCount := S (invalidCount results) |},
   S i).

Definition validateBulkClaims (rt : Runtime) (claims : list Obj) : BulkReport :=
  (fold_left (validateBulk_step rt) claims
     ({| valid := []; invalid := []; totalCount := length claims;
         validCount := 0; invalidCount := 0 |}, 0)).1.

End BulkUtils.

(** ** services/useClaimsApi.js: the useClaims hook *)

Module UseClaims.

(** The three [useState] cells of the hook. *)
Record HookState : Type := {
  claims : list Obj;
  loading : bool;
  error : option string
}.

Definition setLoading (b : bool) (h : HookState) : HookState :=
  {| claims := claims h; loading := b; error := error h |}.
Definition setError (e : option string) (h : HookState) : HookState :=
  {| claims := claims h; loading := loading h; error := e |}.
Definition setClaims (f : list Obj -> list Obj) (h : HookState) : HookState :=
  {| claims := f (claims h); loading := loading h; error := error h |}.

Definition newline : string := String (Ascii.ascii_of_nat 10) EmptyString.

Section Hook.

Context {Remote : Type} (be : Backend Remote) (rt : Runtime).

(** The line pushed for a claim that fails validation. *)
Definition validation_line (index : nat) (claim : Obj) : string :=
  "Claim " +:+ string_of_nat (index + 1) +:+ ": "
  +:+ join ", " (ClaimUtils.errors (ClaimUtils.validateClaim rt claim)).

(** [claimsArray.forEach((claim, index) => ...)] from [index] on, with
    the array [validationErrors] it pushes to. *)
Fixpoint validate_all (rest : list Obj) (index : nat) (validationErrors : list string)
  : list string :=
  match rest with
  | [] => validationErrors
  | claim :: rest' =>
      validate_all rest' (S index)
        (if negb (ClaimUtils.isValid (ClaimUtils.validateClaim rt claim))
         then push validationErrors (validation_line index claim)
         else validationErrors)
  end.

(** The body of the [try] block.  The summary returned by
    [apiService.submitBatchClaims] has no [claims] property, so the
    guarded [setClaims] is not reached and the list is left as it is. *)
Definition submitBatchClaims_try (claimsArray : list Obj)
  : IO Remote Api.BatchSummary :=
  let validationErrors := validate_all claimsArray 0 [] in
  if 0 <? length validationErrors
  then io_throw ("Validation failed:" +:+ newline +:+ join newline validationErrors)
  else
    result <~ Api.submitBatchClaims be rt claimsArray ;;
    io_ret result.

Definition submitBatchClaims (claimsArray : list Obj) (h : HookState)
    (w : World Remote) : Res Api.BatchSummary * HookState * World Remote :=
  let h := setLoading true h in
  let h := setError None h in
  let '(r, w) := submitBatchClaims_try claimsArray w in
  let h := match r with
           | Throw message => setError (Some message) h
           | Ret _ => h
           end in
  let h := setLoading false h in
  (r, h, w).

(** [submitClaim] of the hook. *)
Definition submitClaim_try (claimData : Obj) : IO Remote Obj :=
  let validation := ClaimUtils.validateClaim rt claimData in
  if negb (ClaimUtils.isValid validation)
  then io_throw ("Validation failed: " +:+ join ", " (ClaimUtils.errors validation))
  else Api.submitClaim be rt claimData.

Definition submitClaim (claimData : Obj) (h : HookState) (w : World Remote)
  : Res Obj * HookState * World Remote :=
  let h := setLoading true h in
  let h := setError None h in
  let '(r, w) := submitClaim_try claimData w in
  let h := match r with
           | Ret result => setClaims (fun prevClaims => result :: prevClaims) h
           | Throw message => setError (Some message) h
           end in
  let h := setLoading false h in
  (r, h, w).

(** A parameter with the default [null]: an [undefined] argument takes the
    default. *)
Definition default_null (v : JsVal) : JsVal :=
  if is_undefined v then JNull else v.

(** [prevClaims.map(claim => ... ? { ...claim, ...result } : claim)]. *)
Definition merge_result (claimId : JsVal) (result : Obj) (claim : Obj) : Obj :=
  if Api.strict_eq (get claim "claim_id") claimId
     || Api.strict_eq (get claim "id") claimId
  then spread claim result
  else claim.

Definition updateClaimStatus (claimId status reasonCode reasonDescription : JsVal)
    (h : HookState) (w : World Remote) : Res Obj * HookState * World Remote :=
  let h := setLoading true h in
  let h := setError None h in
  let '(r, w) :=
    Api.updateClaimStatus be rt claimId status (default_null reasonCode)
      (default_null reasonDescription) w in
  let h := match r with
           | Ret result => setClaims (fun prevClaims => merge_result claimId result <$> prevClaims) h
           | Throw message => setError (Some message) h
           end in
  let h := setLoading false h in
  (r, h, w).

(** An entry of the [errors] of [processBatchClaims]: [{claimId, error}]. *)
Record BatchError : Type := { claimId : JsVal; error_message : string }.

Record BatchOutcome : Type := {
  successful : nat;
  failed : nat;
  results : list Obj;
  errors : list BatchError
}.

(** The [for ... of] loop of [processBatchClaims], with the two arrays it
    pushes to. *)
Fixpoint batch_loop (claimIds : list JsVal) (results : list Obj)
    (errors : list BatchError) (h : HookState) (w : World Remote)
  : list Obj * list BatchError * HookState * World Remote :=
  match claimIds with
  | [] => (results, errors, h, w)
  | id :: rest =>
      match updateClaimStatus id (JStr "Under Review") JNull (JStr "Batch processing") h w with
      | (Ret result, h, w) => batch_loop rest (push results result) errors h w
      | (Throw message, h, w) =>
          batch_loop rest results
            (push errors {| claimId := id; error_message := message |}) h w
      end
  end.

Definition processBatchClaims (claimIds : list JsVal) (h : HookState)
    (w : World Remote) : Res BatchOutcome * HookState * World Remote :=
  let h := setLoading true h in
  let h := setError None h in
  let '(results, errors, h, w) := batch_loop claimIds [] [] h w in
  let h := setLoading false h in
  (Ret {| successful := length results; failed := length errors;
          results := results; errors := errors |}, h, w).

(** [fetchClaims(filters)]: the fetched list replaces the local one. *)
Definition fetchClaims (filters : Obj) (h : HookState) (w : World Remote)
  : Res (list Obj) * HookState * World Remote :=
  let h := setLoading true h in
  let h := setError None h in
  let '(r, w) := Api.getClaims be rt filters w in
  let h := match r with
           | Ret result => setClaims (fun _ => result) h
           | Throw message => setError (Some message) h
           end in
  let h := setLoading false h in
  (r, h, w).

(** [getClaimStats()]: the counters of the [switch] over the status. *)
Record ClaimStats : Type := {
  stat_total : nat;
  submitted : nat;
  pending : nat;
  approved : nat;
  denied : nat;
  underReview : nat
}.

Definition count_status (stats : ClaimStats) (claim : Obj) : ClaimStats :=
  let status := get claim "status" in
  if strict_eq_str status "Submitted"
  then {| stat_total := stat_total stats; submitted := S (submitted stats);
          pending := pending stats; approved := approved stats;
          denied := denied stats; underReview := underReview stats |}
  else if strict_eq_str status "Pending"
  then {| stat_total := stat_total stats; submitted := submitted stats;
          pending := S (pending stats); approved := approved stats;
          denied := denied stats; underReview := underReview stats |}
  else if strict_eq_str status "Approved"
  then {| stat_total := stat_total stats; submitted := submitted stats;
          pending := pending stats; approved := S (approved stats);
          denied := denied stats; underReview := underReview stats |}
  else if strict_eq_str status "Denied"
  then {| stat_total := stat_total stats; submitted := submitted stats;
          pending := pending stats; approved := approved stats;
          denied := S (denied stats); underReview := underReview stats |}
  else if strict_eq_str status "Under Review"
  then {| stat_total := stat_total stats; submitted := submitted stats;
          pending := pending stats; approved := approved stats;
          denied := denied stats; underReview := S (underReview stats) |}
  else stats.

Definition getClaimStats (h : HookState) : ClaimStats :=
  fold_left count_status (claims h)
    {| stat_total := length (claims h); submitted := 0; pending := 0;
       approved := 0; denied := 0; underReview := 0 |}.

End Hook.

End UseClaims.

(** ** contexts/AppContext.js: the store *)

Module AppContext.

Record Stats : Type := {
  totalClaims : nat;
  approvedCount : nat;
  deniedCount : nat;
  pendingCount : nat;
  approvalRate : spec_float;
  avgProcessingTime : spec_float
}.

Record Settings : Type := {
  apiBaseUrl : string;
  apiKey : string;
  theme : string;
  autoRefresh : bool;
  refreshInterval : Z
}.

(** A partial settings object, as [UPDATE_SETTINGS] receives it. *)
Record SettingsPatch : Type := {
  patch_apiBaseUrl : option string;
  patch_apiKey : option string;
  patch_theme : option string;
  patch_autoRefresh : option bool;
  patch_refreshInterval : option Z
}.

Record BatchProcessing : Type := {
  inProgress : bool;
  progress : spec_float;
  results : list Api.PendingEntry;
  errors : list string
}.

Record AppState : Type := {
  loading : bool;
  error : option string;
  claims : list Obj;
  currentClaim : option Obj;
  recentClaims : list Obj;
  stats : Stats;
  settings : Settings;
  batchProcessing : BatchProcessing
}.

Definition initialState : AppState :=
  {| loading := false;
     error := None;
     claims := [];
     currentClaim := None;
     recentClaims := [];
     stats := {| totalClaims := 0; approvedCount := 0; deniedCount := 0;
                 pendingCount := 0; approvalRate := num 0;
                 avgProcessingTime := num 0 |};
     settings := {| apiBaseUrl := "http://localhost:8000";
                    apiKey := "your_api_key_here";
                    theme := "light";
                    autoRefresh := false;
                    refreshInterval := 30000%Z |};
     batchProcessing := {| inProgress := false; progress := num 0;
                           results := []; errors := [] |} |}.

Inductive Action : Type :=
| SET_LOADING (payload : bool)
| SET_ERROR (payload : option string)
| CLEAR_ERROR
| ADD_CLAIM (claimId : JsVal) (result : Obj)
| UPDATE_CLAIM
| SET_CURRENT_CLAIM (payload : option Obj)
| SET_RECENT_CLAIMS (payload : list Obj)
| UPDATE_STATS (payload : Stats)
| UPDATE_SETTINGS (payload : SettingsPatch)
| START_BATCH_PROCESSING
| UPDATE_BATCH_PROGRESS (payload : spec_float)
| FINISH_BATCH_PROCESSING
| ADD_BATCH_RESULT (payload : Api.PendingEntry)
| ADD_BATCH_ERROR (payload : string).

Definition with_batch (state : AppState) (b : BatchProcessing) : AppState :=
  {| loading := loading state; error := error state; claims := claims state;
     currentClaim := currentClaim state; recentClaims := recentClaims state;
     stats := stats state; settings := settings state; batchProcessing := b |}.

(** [{ id: claimId, ...result, processedAt: now }]. *)
Definition newClaim (now : string) (claimId : JsVal) (result : Obj) : Obj :=
  <["processedAt" := JStr now]> (spread {[ "id" := claimId ]} result).

Definition merge_settings (s : Settings) (p : SettingsPatch) : Settings :=
  {| apiBaseUrl := default (apiBaseUrl s) (patch_apiBaseUrl p);
     apiKey := default (apiKey s) (patch_apiKey p);
     theme := default (theme s) (patch_theme p);
     autoRefresh := default (autoRefresh s) (patch_autoRefresh p);
     refreshInterval := default (refreshInterval s) (patch_refreshInterval p) |}.

(** The reducer.  [now] is the reading of the clock that the [ADD_CLAIM]
    case takes.  The call of [apiService.updateConfig] in the
    [UPDATE_SETTINGS] case writes the gateway configuration, which is not
    part of the state; the payload of [UPDATE_STATS] is the full record
    that [calculateStats] returns, so the merge replaces every field. *)
Definition appReducer (now : string) (state : AppState) (action : Action) : AppState :=
  match action with
  | SET_LOADING payload =>
      {| loading := payload; error := error state; claims := claims state;
         currentClaim := currentClaim state; recentClaims := recentClaims state;
         stats := stats state; settings := settings state;
         batchProcessing := batchProcessing state |}
  | SET_ERROR payload =>
      {| loading := false; error := payload; claims := claims state;
         currentClaim := currentClaim state; recentClaims := recentClaims state;
         stats := stats state; settings := settings state;
         batchProcessing := batchProcessing state |}
  | CLEAR_ERROR =>
      {| loading := loading state; error := None; claims := claims state;
         currentClaim := currentClaim state; recentClaims := recentClaims state;
         stats := stats state; settings := settings state;
         batchProcessing := batchProcessing state |}
  | ADD_CLAIM claimId result =>
      let newClaim := newClaim now claimId result in
      {| loading := loading state; error := error state;
         claims := newClaim :: claims state;
         currentClaim := Some newClaim;
         recentClaims := newClaim :: take 9 (recentClaims state);
         stats := stats state; settings := settings state;
         batchProcessing := batchProcessing state |}
  | UPDATE_CLAIM => state
  | SET_CURRENT_CLAIM payload =>
      {| loading := loading state; error := error state; claims := claims state;
         currentClaim := payload; recentClaims := recentClaims state;
         stats := stats state; settings := settings state;
         batchProcessing := batchProcessing state |}
  | SET_RECENT_CLAIMS payload =>
      {| loading := loading state; error := error state; claims := claims state;
         currentClaim := currentClaim state; recentClaims := payload;
         stats := stats state; settings := settings state;
         batchProcessing := batchProcessing state |}
  | UPDATE_STATS payload =>
      {| loading := loading state; error := error state; claims := claims state;
         currentClaim := currentClaim state; recentClaims := recentClaims state;
         stats := payload; settings := settings state;
         batchProcessing := batchProcessing state |}
  | UPDATE_SETTINGS payload =>
      {| loading := loading state; error := error state; claims := claims state;
         currentClaim := currentClaim state; recentClaims := recentClaims state;
         stats := stats state; settings := merge_settings (settings state) payload;
         batchProcessing := batchProcessing state |}
  | START_BATCH_PROCESSING =>
      with_batch state
        {| inProgress := true; progress := num 0; results := []; errors := [] |}
  | UPDATE_BATCH_PROGRESS payload =>
      with_batch state
        {| inProgress := inProgress (batchProcessing state);
           progress := payload;
           results := results (batchProcessing state);
           errors := errors (batchProcessing state) |}
  | ADD_BATCH_RESULT payload =>
      with_batch state
        {| inProgress := inProgress (batchProcessing state);
           progress := progress (batchProcessing state);
           results := results (batchProcessing state) ++ [payload];
           errors := errors (batchProcessing state) |}
  | ADD_BATCH_ERROR payload =>
      with_batch state
        {| inProgress := inProgress (batchProcessing state);
           progress := progress (batchProcessing state);
           results := results (batchProcessing state);
           errors := errors (batchProcessing state) ++ [payload] |}
  | FINISH_BATCH_PROCESSING =>
      with_batch state
        {| inProgress := false;
           progress := num 100;
           results := results (batchProcessing state);
           errors := errors (batchProcessing state) |}
  end.

(** [claims.filter(c => c.decision === d).length]. *)
Definition count_decision (d : string) (claims : list Obj) : nat :=
  length (filter (fun c => strict_eq_str (get c "decision") d = true) claims).

Definition calculateStats (claims : list Obj) : Stats :=
  if length claims =? 0
  then {| totalClaims := 0; approvedCount := 0; deniedCount := 0;
          pendingCount := 0; approvalRate := num 0; avgProcessingTime := num 0 |}
  else
    let totalClaims := length claims in
    let approvedCount := count_decision "Approved" claims in
    let deniedCount := count_decision "Denied" claims in
    let pendingCount := count_decision "Pending" claims in
    let approvalRate :=
      if 0 <? totalClaims
      then mul (div (num_of_nat approvedCount) (num_of_nat totalClaims)) (num 100)
      else num 0 in
    {| totalClaims := totalClaims;
       approvedCount := approvedCount;
       deniedCount := deniedCount;
       pendingCount := pendingCount;
       approvalRate := div (Math_round (mul approvalRate (num 100))) (num 100);
       avgProcessingTime := decimal 23 10 |}.

(** The effect that runs when [recentClaims] has changed. *)
Definition recentClaims_effect (now : string) (state : AppState) : AppState :=
  appReducer now state (UPDATE_STATS (calculateStats (recentClaims state))).

(** The side effect of the [UPDATE_SETTINGS] case on the gateway
    configuration: [apiService.updateConfig] is called with the merged
    settings when the payload has a truthy [apiBaseUrl] or [apiKey]. *)
Definition patch_truthy (o : option string) : bool :=
  match o with
  | Some s => negb (String.eqb s EmptyString)
  | None => false
  end.

Definition UPDATE_SETTINGS_effect (state : AppState) (payload : SettingsPatch)
    (c : ApiConfig.Config) : ApiConfig.Config :=
  let newSettings := merge_settings (settings state) payload in
  if patch_truthy (patch_apiBaseUrl payload) || patch_truthy (patch_apiKey payload)
  then ApiConfig.updateConfig (apiBaseUrl newSettings) (apiKey newSettings) c
  else c.

Section Actions.

Context {Remote : Type} (be : Backend Remote) (rt : Runtime).

(** The store and the world a store action runs in. *)
Definition dispatch (a : Action) (s : AppState * World Remote)
  : AppState * World Remote :=
  (appReducer (clock be (remote s.2)) s.1 a, s.2).

(** [((i + 1) / results.length) * 100]. *)
Definition progress_at (i n : nat) : spec_float :=
  mul (div (num_of_nat (i + 1)) (num_of_nat n)) (num 100).

(** The [for] loop of the action from index [i] on; [rest] is [results]
    from index [i] and [n] is [results.length].  The pause between two
    items changes no state. *)
Fixpoint progress_loop (rest : list Api.PendingEntry) (i n : nat)
    (s : AppState * World Remote) : AppState * World Remote :=
  match rest with
  | [] => s
  | r :: rest' =>
      let s := dispatch (ADD_BATCH_RESULT r) s in
      let s := dispatch (UPDATE_BATCH_PROGRESS (progress_at i n)) s in
      progress_loop rest' (S i) n s
  end.

Definition processPendingClaims (s : AppState * World Remote)
  : Res (list Api.PendingEntry) * (AppState * World Remote) :=
  let s := dispatch START_BATCH_PROCESSING s in
  let s := dispatch (SET_LOADING true) s in
  let s := dispatch CLEAR_ERROR s in
  let '(r, s) :=
    match Api.processPendingClaims be rt s.2 with
    | (Ret results, w) =>
        let s := progress_loop results 0 (length results) (s.1, w) in
        let s := dispatch FINISH_BATCH_PROCESSING s in
        (Ret results, s)
    | (Throw message, w) =>
        let s := dispatch (ADD_BATCH_ERROR message) (s.1, w) in
        let s := dispatch (SET_ERROR (Some message)) s in
        (Throw message, s)
    end in
  let s := dispatch (SET_LOADING false) s in
  (r, s).

(** [actions.processClaim(claimId)]. *)
Definition processClaim (claimId : JsVal) (s : AppState * World Remote)
  : Res Obj * (AppState * World Remote) :=
  let s := dispatch (SET_LOADING true) s in
  let s := dispatch CLEAR_ERROR s in
  let '(r, s) :=
    match Api.processClaim be rt claimId s.2 with
    | (Ret result, w) =>
        let s := dispatch (ADD_CLAIM claimId result) (s.1, w) in
        (Ret result, s)
    | (Throw message, w) =>
        let s := dispatch (SET_ERROR (Some message)) (s.1, w) in
        (Throw message, s)
    end in
  let s := dispatch (SET_LOADING false) s in
  (r, s).

(** [actions.loadClaims(filters)]. *)
Definition loadClaims (filters : Obj) (s : AppState * World Remote)
  : Res (list Obj) * (AppState * World Remote) :=
  let s := dispatch (SET_LOADING true) s in
  let s := dispatch CLEAR_ERROR s in
  let '(r, s) :=
    match Api.getClaims be rt filters s.2 with
    | (Ret claims, w) =>
        let s := dispatch (SET_RECENT_CLAIMS claims) (s.1, w) in
        (Ret claims, s)
    | (Throw message, w) =>
        let s := dispatch (SET_ERROR (Some message)) (s.1, w) in
        (Throw message, s)
    end in
  let s := dispatch (SET_LOADING false) s in
  (r, s).

(** [actions.testConnection()]. *)
Definition testConnection (s : AppState * World Remote)
  : Res Api.ConnectionReport * (AppState * World Remote) :=
  let s := dispatch (SET_LOADING true) s in
  let s := dispatch CLEAR_ERROR s in
  let '(r, s) :=
    match Api.testConnection be rt s.2 with
    | (Ret result, w) => (Ret result, (s.1, w))
    | (Throw message, w) =>
        let s := dispatch (SET_ERROR (Some message)) (s.1, w) in
        (Throw message, s)
    end in
  let s := dispatch (SET_LOADING false) s in
  (r, s).

End Actions.

End AppContext.

(** ** Vocabulary of the statements *)

Module Spec.

#[global] Instance spec_float_eq_dec : EqDecision spec_float.
Proof. solve_decision. Defined.

#[global] Instance JsVal_eq_dec : EqDecision JsVal.
Proof. solve_decision. Defined.

(** The integer nearest to [n / d], ties upwards. *)
Definition round_half_up (n d : Z) : Z := ((2 * n + d) / (2 * d))%Z.

(** [approved / total * 100] in hundredths, rounded to the nearest. *)
Definition rate_hundredths (approved total : nat) : Z :=
  round_half_up (10000 * Z.of_nat approved) (Z.of_nat total).

(** The expression of [calculateStats] for the approval rate. *)
Definition rate_expr (approved total : nat) : spec_float :=
  div (Math_round
         (mul (mul (div (num_of_nat approved) (num_of_nat total)) (num 100))
              (num 100)))
      (num 100).

Definition rate_table_ok (bound : nat) : bool :=
  forallb
    (fun total =>
       forallb
         (fun approved =>
            bool_decide (rate_expr approved total
                         = decimal (rate_hundredths approved total) 100))
         (seq 0 (S total)))
    (seq 1 bound).

(** A sequence of store transitions, each with the clock reading it is
    reduced at. *)
Definition run (steps : list (string * AppContext.Action)) (state : AppContext.AppState)
  : AppContext.AppState :=
  fold_left (fun st step => AppContext.appReducer step.1 st step.2) steps state.

Definition is_ADD_CLAIM (a : AppContext.Action) : Prop :=
  match a with AppContext.ADD_CLAIM _ _ => True | _ => False end.

(** The statuses that the interceptor maps to a message of their own. *)
Definition listed_statuses : list Z := [401; 403; 404; 405; 429; 500]%Z.

(** The errors of each check of [validateClaim], as functions of the one
    value the check reads. *)
Definition required_error (field : string) (v : JsVal) : list string :=
  if ClaimUtils.blank_or_missing v then [field +:+ " is required"] else [].

Definition uuid_error (rt : Runtime) (field : string) (v : JsVal) : list string :=
  if truthy v && negb (ClaimUtils.uuidRegex_test rt v)
  then [field +:+ " must be a valid UUID"] else [].

Definition status_error (v : JsVal) : list string :=
  if truthy v && negb (ClaimUtils.statuses_include v)
  then ["status must be one of: Submitted, Pending, Approved, Denied, Under Review"]
  else [].

Definition boolean_error (field : string) (v : JsVal) : list string :=
  if negb (is_undefined v) && negb (typeof_boolean v)
  then [field +:+ " must be a boolean value"] else [].

Definition date_error (rt : Runtime) (v : JsVal) : list string :=
  if truthy v && negb (Date_valid rt v)
  then ["submission_date must be a valid ISO date string"] else [].

(** How often the message [m] occurs in a list of messages. *)
Definition occurrences (m : string) (l : list string) : nat :=
  length (filter (λ e, e = m) l).

(** The filters of the one [getClaims] call of [processPendingClaims]. *)
Definition limit_100 : Obj := {[ "limit" := JNum (num 100) ]}.

(** [completed / total * 100] as the program computes it. *)
Definition percent (completed total : nat) : spec_float :=
  mul (div (num_of_nat completed) (num_of_nat total)) (num 100).

(** The identifier and the update that [processPendingClaims] sends for a
    claim. *)
Definition pending_id (claim : Obj) : JsVal :=
  or (get claim "claim_id") (get claim "id").

Definition under_review : Obj :=
  {[ "status" := JStr "Under Review";
     "reason_code" := JNull;
     "reason_description" := JStr "Claim is being processed" ]}.

(** [e] is the entry of [claim]: its identifier and original status, and
    either a success with a result or a failure with an error message. *)
Definition entry_for (claim : Obj) (e : Api.PendingEntry) : Prop :=
  Api.claim_id e = pending_id claim
  ∧ Api.originalStatus e = get claim "status"
  ∧ ((Api.success e = true ∧ is_Some (Api.result e) ∧ Api.error e = None)
     ∨ (Api.success e = false ∧ Api.result e = None ∧ is_Some (Api.error e))).

(** The pending claims updated one after the other, none left out: each
    claim with the outcome of its update as the caller sees it, and the
    remote state reached at the end. *)
Fixpoint update_all {Remote : Type} (be : Backend Remote) (rt : Runtime)
    (claims : list Obj) (r : Remote) : list (Obj * Res Obj) * Remote :=
  match claims with
  | [] => ([], r)
  | claim :: rest =>
      let '(answer, r1) := update_claim be (pending_id claim) under_review r in
      let '(outcomes, r2) := update_all be rt rest r1 in
      ((claim, Api.responseInterceptor rt answer) :: outcomes, r2)
  end.

(** The entry that reports the outcome of a claim's update: the answer as
    [result] of a success, the message of the error as [error] of a
    failure. *)
Definition entry_of (outcome : Obj * Res Obj) : Api.PendingEntry :=
  match outcome with
  | (claim, Ret answer) =>
      {| Api.claim_id := pending_id claim; Api.success := true;
         Api.result := Some answer; Api.error := None;
         Api.originalStatus := get claim "status" |}
  | (claim, Throw message) =>
      {| Api.claim_id := pending_id claim; Api.success := false;
         Api.result := None; Api.error := Some message;
         Api.originalStatus := get claim "status" |}
  end.

(** The store once a batch has been started: the three dispatches that
    open [processPendingClaims]. *)
Definition batch_started {Remote : Type} (be : Backend Remote)
    (s : AppContext.AppState * World Remote) : AppContext.AppState * World Remote :=
  AppContext.dispatch be AppContext.CLEAR_ERROR
    (AppContext.dispatch be (AppContext.SET_LOADING true)
       (AppContext.dispatch be AppContext.START_BATCH_PROCESSING s)).

(** The claims of a batch posted one after the other, none left out: the
    body sent for each claim and the outcome the caller sees, with the
    remote state reached at the end. *)
Fixpoint post_all {Remote : Type} (be : Backend Remote) (rt : Runtime)
    (claims : list Obj) (r : Remote) : list (Obj * Res Obj) * Remote :=
  match claims with
  | [] => ([], r)
  | claim :: rest =>
      let body := spread (Api.claim_defaults (clock be r)) claim in
      let '(answer, r1) := create_claim be body r in
      let '(outcomes, r2) := post_all be rt rest r1 in
      ((body, Api.responseInterceptor rt answer) :: outcomes, r2)
  end.

(** The entries of the successful outcomes, and of the failed ones, each
    with the position of its claim; [i] is the position of the first. *)
Fixpoint successes (i : nat) (outcomes : list (Obj * Res Obj)) : list Api.BatchItem :=
  match outcomes with
  | [] => []
  | (_, Ret r) :: rest =>
      {| Api.index := i; Api.item_success := true; Api.item_error := None;
         Api.data := r |} :: successes (S i) rest
  | (_, Throw _) :: rest => successes (S i) rest
  end.

Fixpoint failures (i : nat) (claims : list Obj) (outcomes : list (Obj * Res Obj))
  : list Api.BatchItem :=
  match claims, outcomes with
  | claim :: claims', (_, Throw message) :: rest =>
      {| Api.index := i; Api.item_success := false; Api.item_error := Some message;
         Api.data := claim |} :: failures (S i) claims' rest
  | _ :: claims', (_, Ret _) :: rest => failures (S i) claims' rest
  | _, _ => []
  end.

Definition succeeded (o : Obj * Res Obj) : bool :=
  match o.2 with Ret _ => true | Throw _ => false end.

(** The counts of a returned summary and the positions its entries carry. *)
Definition summary_shape (r : Res Api.BatchSummary)
  : option (nat * nat * nat * list nat * list nat) :=
  match r with
  | Ret s =>
      Some (Api.total s, Api.successful s, Api.failed s,
            Api.index <$> Api.results s, Api.index <$> Api.errors s)
  | Throw _ => None
  end.

End Spec.

(** ** Inputs used to exercise the statements *)

Module Fixtures.

Definition rt : Runtime :=
  {| Number_toString := fun _ => "0"; Date_parse_ok := fun _ => true;
     ToPrimitive_error := "Cannot convert object to primitive value" |}.

Definition with_status (s : string) : Obj := {[ "status" := JStr s ]}.
Definition with_decision (s : string) : Obj := {[ "decision" := JStr s ]}.

Definition status_list : list Obj :=
  [with_status "Approved"; with_status "Denied"; with_status "Approved"].
Definition decision_list : list Obj :=
  [with_decision "Approved"; with_decision "Denied"; with_decision "Approved"].

(** A list of 160 entries, 23 of them approved: 23 / 160 * 100 is 14.375. *)
Definition long_decision_list : list Obj :=
  replicate 23 (with_decision "Approved") ++ replicate 137 (with_decision "Denied").

(** A store whose recent list holds ten claims, numbered 1 (newest) to 10
    (oldest). *)
Definition numbered (n : nat) : Obj := {[ "id" := JStr (string_of_nat n) ]}.
Definition ten_claims : list Obj := numbered <$> seq 1 10.
Definition full_state : AppContext.AppState :=
  AppContext.appReducer "t0" AppContext.initialState
    (AppContext.SET_RECENT_CLAIMS ten_claims).

(** A store whose recent list was loaded with twelve claims. *)
Definition overfull_state : AppContext.AppState :=
  AppContext.appReducer "t0" AppContext.initialState
    (AppContext.SET_RECENT_CLAIMS (numbered <$> seq 1 12)).

Definition sample_claim (summary : string) : Obj :=
  {[ "provider_id" := JStr "c0a19ac4-96ba-4c5f-8e44-425d3173b0d6";
     "risk_id" := JStr "1084bc4d-dd50-4eb4-a7da-591dc0f9bd76";
     "patient_id" := JStr "461caa86-be43-4b30-b67a-182fb964c546";
     "policy_id" := JStr "3d3eef35-4bd4-4e62-a20c-58b8a85e9000";
     "status" := JStr "Submitted";
     "summary" := JStr summary ]}.

(** A string of [n] letters. *)
Fixpoint letters (n : nat) : string :=
  match n with
  | O => EmptyString
  | S n' => String (Ascii.ascii_of_nat 97) (letters n')
  end.

Definition blank_provider_claim : Obj :=
  <["provider_id" := JStr "   "]> (sample_claim "a routine check-up").

Definition blank_summary_claim : Obj :=
  {[ "provider_id" := JStr "c0a19ac4-96ba-4c5f-8e44-425d3173b0d6";
     "summary" := JStr "   " ]}.

(** A remote service that counts the requests it has answered; the clock
    shows a fixed instant. *)
Definition fixed_instant : string := "2025-07-20T23:20:00.000Z".

(** The service holds two settled claims and none to process. *)
Definition settled_claims : list Obj :=
  [ {[ "claim_id" := JStr "claim-7"; "status" := JStr "Approved" ]};
    {[ "claim_id" := JStr "claim-8"; "status" := JStr "Denied" ]} ].

Definition be_settled : Backend nat :=
  {| list_claims := fun _ n => (Fulfilled settled_claims, S n);
     create_claim := fun body n => (Fulfilled body, S n);
     update_claim := fun _ body n => (Fulfilled body, S n);
     clock := fun _ => fixed_instant |}.

(** The service holds a pending, an approved and a submitted claim; it
    answers its second request with a 500 and every other update with the
    body it received. *)
Definition listed_claims : list Obj :=
  [ {[ "claim_id" := JStr "claim-1"; "status" := JStr "Pending" ]};
    {[ "claim_id" := JStr "claim-2"; "status" := JStr "Approved" ]};
    {[ "id" := JStr "claim-3"; "status" := JStr "Submitted" ]} ].

Definition be_mixed_updates : Backend nat :=
  {| list_claims := fun _ n => (Fulfilled listed_claims, S n);
     create_claim := fun body n => (Fulfilled body, S n);
     update_claim :=
       fun _ body n =>
         (if n =? 1 then HttpError 500 None "Request failed with status code 500"
          else Fulfilled body, S n);
     clock := fun _ => fixed_instant |}.

Definition failed_entry : Api.PendingEntry :=
  {| Api.claim_id := JStr "claim-1"; Api.success := false; Api.result := None;
     Api.error := Some Api.msg_server_error; Api.originalStatus := JStr "Pending" |}.

Definition succeeded_entry : Api.PendingEntry :=
  {| Api.claim_id := JStr "claim-3"; Api.success := true;
     Api.result := Some Spec.under_review; Api.error := None;
     Api.originalStatus := JStr "Submitted" |}.

(** The service answers its second request with a 503 and every other
    request with the body it received. *)
Definition be_second_fails : Backend nat :=
  {| list_claims := fun _ n => (Fulfilled [], S n);
     create_claim :=
       fun body n =>
         (if n =? 1 then HttpError 503 None "Request failed with status code 503"
          else Fulfilled body, S n);
     update_claim := fun _ body n => (Fulfilled body, S n);
     clock := fun _ => fixed_instant |}.

Definition fresh_world : World nat := {| remote := 0; sent := [] |}.

Definition idle_hook : UseClaims.HookState :=
  {| UseClaims.claims := []; UseClaims.loading := false; UseClaims.error := None |}.

Definition three_claims : list Obj :=
  [sample_claim "first visit to the clinic";
   sample_claim "second visit to the clinic";
   sample_claim "third visit to the clinic"].

(** A batch whose second and third items fail validation. *)
Definition mixed_claims : list Obj :=
  [sample_claim "first visit to the clinic"; ∅; blank_provider_claim].

(** The service is down: every request ends in a 502. *)
Definition be_unavailable : Backend nat :=
  {| list_claims := fun _ n => (HttpError 502 None "Request failed with status code 502", S n);
     create_claim := fun _ n => (HttpError 502 None "Request failed with status code 502", S n);
     update_claim := fun _ _ n => (HttpError 502 None "Request failed with status code 502", S n);
     clock := fun _ => fixed_instant |}.

End Fixtures.

(** ** Vocabulary of the further statements *)

Module More.

(** The class of characters that the identifier pattern admits at
    position [i]. *)
Definition uuid_class (i : nat) : ascii -> bool :=
  if i <? 8 then ClaimUtils.is_hex
  else if i <? 9 then ClaimUtils.is_dash
  else if i <? 13 then ClaimUtils.is_hex
  else if i <? 14 then ClaimUtils.is_dash
  else if i <? 15 then ClaimUtils.is_version
  else if i <? 18 then ClaimUtils.is_hex
  else if i <? 19 then ClaimUtils.is_dash
  else if i <? 20 then ClaimUtils.is_variant
  else if i <? 23 then ClaimUtils.is_hex
  else if i <? 24 then ClaimUtils.is_dash
  else if i <? 36 then ClaimUtils.is_hex
  else fun _ => false.

(** The entries that [validateBulkClaims] keeps of the claims from index
    [i] on: those of the valid claims, and those of the others. *)
Fixpoint valid_from (rt : Runtime) (i : nat) (claims : list Obj)
  : list BulkUtils.BulkEntry :=
  match claims with
  | [] => []
  | c :: rest =>
      (if ClaimUtils.isValid (ClaimUtils.validateClaim rt c)
       then [{| BulkUtils.index := i; BulkUtils.claim := c;
                BulkUtils.entry_errors := [] |}]
       else [])
      ++ valid_from rt (S i) rest
  end.

Fixpoint invalid_from (rt : Runtime) (i : nat) (claims : list Obj)
  : list BulkUtils.BulkEntry :=
  match claims with
  | [] => []
  | c :: rest =>
      (if ClaimUtils.isValid (ClaimUtils.validateClaim rt c)
       then []
       else [{| BulkUtils.index := i; BulkUtils.claim := c;
                BulkUtils.entry_errors :=
                  ClaimUtils.errors (ClaimUtils.validateClaim rt c) |}])
      ++ invalid_from rt (S i) rest
  end.

(** The position in [rows] of the first row whose number of cells is not
    the number of headers. *)
Fixpoint first_mismatch (headers : list string) (rows : list string) : option nat :=
  match rows with
  | [] => None
  | line :: rest =>
      if length (BulkUtils.cells line) =? length headers
      then S <$> first_mismatch headers rest
      else Some 0
  end.

End More.

(** ** Proof automation *)

(** Evaluate the comparisons of literal messages. *)
Ltac eval_message_tests :=
  repeat match goal with
         | |- context [bool_decide (?a = ?b)] =>
             let v := eval vm_compute in (bool_decide (a = b)) in
             change (bool_decide (a = b)) with v
         end;
  change (Nat.b2n true) with 1; change (Nat.b2n false) with 0;
  rewrite ?Nat.mul_0_r, ?Nat.mul_1_r, ?Nat.add_0_r, ?Nat.add_0_l.

(** One step through the groups of the identifier pattern. *)
Ltac eat_step G Hi :=
  apply G in Hi;
  match type of Hi with
  | if ?b then _ else _ =>
      let E := fresh "E" in
      destruct b eqn:E;
      [apply Nat.ltb_lt in E | apply Nat.ltb_ge in E]
  end.

(** * Properties *)

(** ** Helper lemmas *)

Lemma strict_eq_str_spec (v : JsVal) (s : string) :
  strict_eq_str v s = true ↔ v = JStr s.
Proof.
  destruct v as [| |b|x|t]; simpl; try (split; [discriminate|congruence]).
  rewrite String.eqb_eq. split; congruence.
Qed.

Lemma filter_length_ext {A} (P Q : A → Prop) `{∀ x, Decision (P x)} `{∀ x, Decision (Q x)}
    (l : list A) :
  (∀ x, P x ↔ Q x) → length (filter P l) = length (filter Q l).
Proof.
  intros HPQ. induction l as [|x l IH]; [done|].
  rewrite !filter_cons. destruct (decide (P x)) as [HP|HP], (decide (Q x)) as [HQ|HQ];
    simpl; try (rewrite IH; done); exfalso; [apply HQ, HPQ, HP | apply HP, HPQ, HQ].
Qed.

Lemma count_decision_spec (d : string) (claims : list Obj) :
  AppContext.count_decision d claims
  = length (filter (λ c, get c "decision" = JStr d) claims).
Proof.
  unfold AppContext.count_decision. apply filter_length_ext.
  intros c. apply strict_eq_str_spec.
Qed.

Lemma count_decision_le (d : string) (claims : list Obj) :
  AppContext.count_decision d claims ≤ length claims.
Proof. unfold AppContext.count_decision. apply length_filter. Qed.

(** The rate expression agrees with the exact rounding at every pair of
    counts with a total of at most 159. *)
Lemma rate_table_159 : Spec.rate_table_ok 159 = true.
Proof. vm_compute. reflexivity. Qed.

Lemma rate_table_ok_spec (bound approved total : nat) :
  Spec.rate_table_ok bound = true →
  approved ≤ total → 1 ≤ total ≤ bound →
  Spec.rate_expr approved total = decimal (Spec.rate_hundredths approved total) 100.
Proof.
  unfold Spec.rate_table_ok. intros Htab Ha Ht.
  apply (proj1 (forallb_forall _ _)) with (x := total) in Htab;
    [|apply in_seq; lia].
  apply (proj1 (forallb_forall _ _)) with (x := approved) in Htab;
    [|apply in_seq; lia].
  apply bool_decide_eq_true_1 in Htab. exact Htab.
Qed.

Lemma rate_expr_exact (approved total : nat) :
  approved ≤ total → 1 ≤ total ≤ 159 →
  Spec.rate_expr approved total = decimal (Spec.rate_hundredths approved total) 100.
Proof. apply rate_table_ok_spec, rate_table_159. Qed.

(** ** C1: derived statistics *)

(** C1, counterexamples.  The claim counts entries by their status.  For the
    list [{status: Approved}, {status: Denied}, {status: Approved}] the
    program reports total 3 and no approved or denied entry, with rate 0:
    [calculateStats] reads the [decision] property, which these entries do
    not have.  The claim rounds the rate to two decimals.  For a list of
    160 entries with 23 approved decisions the rate 14.375 rounds to 14.38,
    and the program's binary64 expression gives 14.37. *)
Lemma C1_status_list_and_rate_of_160 :
  (let s := AppContext.calculateStats Fixtures.status_list in
   AppContext.totalClaims s = 3
   ∧ AppContext.approvedCount s = 0
   ∧ AppContext.deniedCount s = 0
   ∧ AppContext.approvalRate s = num 0
   ∧ ¬ (AppContext.approvedCount s = 2 ∧ AppContext.deniedCount s = 1
        ∧ AppContext.approvalRate s = decimal 6667 100))
  ∧ (let s := AppContext.calculateStats Fixtures.long_decision_list in
     AppContext.totalClaims s = 160
     ∧ AppContext.approvedCount s = 23
     ∧ Spec.rate_hundredths 23 160 = 1438%Z
     ∧ AppContext.approvalRate s = decimal 1437 100
     ∧ AppContext.approvalRate s ≠ decimal 1438 100).
Proof.
  split.
  - vm_compute. repeat split; try reflexivity. intros (H & _). discriminate H.
  - vm_compute. repeat split; try reflexivity. discriminate.
Qed.

(** C1, as amended.  For every recent-claims list the derived statistics
    are: total = length of the list; approved, denied and pending counts =
    number of entries whose [decision] property is the string Approved,
    Denied, Pending; approval rate = 0 for the empty list and otherwise the
    program's expression round(approved / total * 100 * 100) / 100 in
    binary64, which for lists of at most 159 entries is the binary64 number
    nearest to approved / total * 100 rounded to two decimals.  The effect
    run on a change of the recent list stores exactly these statistics, and
    [{decision: Approved}, {decision: Denied}, {decision: Approved}] gives
    total 3, approved 2, denied 1, pending 0, rate 66.67. *)
Theorem C1_stats_count_decisions (now : string) (state : AppContext.AppState)
    (claims : list Obj) :
  let s := AppContext.calculateStats claims in
  AppContext.totalClaims s = length claims
  ∧ AppContext.approvedCount s
    = length (filter (λ c, get c "decision" = JStr "Approved") claims)
  ∧ AppContext.deniedCount s
    = length (filter (λ c, get c "decision" = JStr "Denied") claims)
  ∧ AppContext.pendingCount s
    = length (filter (λ c, get c "decision" = JStr "Pending") claims)
  ∧ AppContext.approvalRate s
    = (if decide (length claims = 0) then num 0
       else Spec.rate_expr (AppContext.approvedCount s) (length claims))
  ∧ (length claims ≤ 159 →
     AppContext.approvalRate s
     = decimal (Spec.rate_hundredths (AppContext.approvedCount s) (length claims)) 100)
  ∧ AppContext.stats (AppContext.recentClaims_effect now state)
    = AppContext.calculateStats (AppContext.recentClaims state)
  ∧ AppContext.calculateStats Fixtures.decision_list
    = {| AppContext.totalClaims := 3; AppContext.approvedCount := 2;
         AppContext.deniedCount := 1; AppContext.pendingCount := 0;
         AppContext.approvalRate := decimal 6667 100;
         AppContext.avgProcessingTime := decimal 23 10 |}.
Proof.
  intros s.
  assert (Hcounts : AppContext.totalClaims s = length claims
                    ∧ AppContext.approvedCount s
                      = AppContext.count_decision "Approved" claims
                    ∧ AppContext.deniedCount s
                      = AppContext.count_decision "Denied" claims
                    ∧ AppContext.pendingCount s
                      = AppContext.count_decision "Pending" claims
                    ∧ AppContext.approvalRate s
                      = (if decide (length claims = 0) then num 0
                         else Spec.rate_expr (AppContext.approvedCount s)
                                (length claims))).
  { subst s. unfold AppContext.calculateStats.
    destruct claims as [|c claims]; [by repeat split|].
    destruct (decide (length (c :: claims) = 0)) as [H0|_]; [discriminate H0|].
    by repeat split. }
  destruct Hcounts as (Htotal & Happroved & Hdenied & Hpending & Hrate).
  rewrite <- !count_decision_spec.
  do 4 (split; [assumption|]). split; [assumption|]. split; [|split].
  - intros Hle. rewrite Hrate. destruct (decide (length claims = 0)) as [H0|H0].
    + apply nil_length_inv in H0. subst claims. vm_compute. reflexivity.
    + rewrite Happroved.
      apply rate_expr_exact; [apply count_decision_le | lia].
  - reflexivity.
  - vm_compute. reflexivity.
Qed.

(** The amended statement at the three-entry list of decisions. *)
Lemma C1_stats_count_decisions_witness :
  length Fixtures.decision_list ≤ 159
  ∧ AppContext.approvalRate (AppContext.calculateStats Fixtures.decision_list)
    = decimal 6667 100.
Proof.
  split; [simpl; lia|].
  destruct (C1_stats_count_decisions "t0" AppContext.initialState Fixtures.decision_list)
    as (_ & _ & _ & _ & _ & H & _).
  rewrite H; [vm_compute; reflexivity | simpl; lia].
Defined.

(** ** C8 and C10: the ADD_CLAIM transition *)

Lemma take_9_removelast {A} (l : list A) :
  length l = 10 → take 9 l = removelast l.
Proof.
  intros H. do 10 (destruct l as [|? l]; [discriminate H|]).
  destruct l; [reflexivity | discriminate H].
Qed.

Lemma add_claim_recent_length (now : string) (state : AppContext.AppState)
    (claimId : JsVal) (result : Obj) :
  length (AppContext.recentClaims
            (AppContext.appReducer now state (AppContext.ADD_CLAIM claimId result)))
  = S (min 9 (length (AppContext.recentClaims state))).
Proof. simpl. by rewrite length_take. Qed.

Lemma run_add_claims_bound (steps : list (string * AppContext.Action))
    (state : AppContext.AppState) :
  Forall (λ step, Spec.is_ADD_CLAIM step.2) steps →
  length (AppContext.recentClaims state) ≤ 10 →
  length (AppContext.recentClaims (Spec.run steps state)) ≤ 10.
Proof.
  intros Hall. revert state.
  induction Hall as [|[now a] steps Ha _ IH]; intros state Hlen; [exact Hlen|].
  unfold Spec.run in *. cbn [fold_left]. apply IH.
  destruct a; try contradiction. cbn [fst snd].
  rewrite add_claim_recent_length. lia.
Qed.

(** C8.  In a state whose recent list has 10 entries, ADD_CLAIM gives a
    recent list of 10 entries whose first entry is the new claim and whose
    tail is the previous list without its last (oldest) entry; from a
    recent list of at most 10 entries, no sequence of ADD_CLAIM transitions
    leads to a recent list of more than 10 entries, and after at least one
    ADD_CLAIM the recent list has at most 10 entries whatever its size
    was. *)
Theorem C8_recent_claims_cap :
  (∀ (now : string) (state : AppContext.AppState) (claimId : JsVal) (result : Obj),
      length (AppContext.recentClaims state) = 10 →
      let state' :=
        AppContext.appReducer now state (AppContext.ADD_CLAIM claimId result) in
      length (AppContext.recentClaims state') = 10
      ∧ AppContext.recentClaims state' !! 0
        = Some (AppContext.newClaim now claimId result)
      ∧ AppContext.recentClaims state'
        = AppContext.newClaim now claimId result
          :: removelast (AppContext.recentClaims state))
  ∧ (∀ (steps : list (string * AppContext.Action)) (state : AppContext.AppState),
      Forall (λ step, Spec.is_ADD_CLAIM step.2) steps →
      length (AppContext.recentClaims state) ≤ 10 →
      length (AppContext.recentClaims (Spec.run steps state)) ≤ 10)
  ∧ (∀ (steps : list (string * AppContext.Action)) (state : AppContext.AppState),
      Forall (λ step, Spec.is_ADD_CLAIM step.2) steps →
      steps ≠ [] →
      length (AppContext.recentClaims (Spec.run steps state)) ≤ 10).
Proof.
  split; [|split].
  - intros now state claimId result Hlen state'. subst state'.
    rewrite add_claim_recent_length, Hlen. split; [reflexivity|].
    split; [reflexivity|]. simpl. by rewrite take_9_removelast.
  - apply run_add_claims_bound.
  - intros [|[now a] steps] state Hall Hne; [done|].
    apply Forall_cons in Hall as [Ha Hall].
    unfold Spec.run. cbn [fold_left]. apply (run_add_claims_bound steps _ Hall).
    destruct a; try contradiction. cbn [fst snd].
    rewrite add_claim_recent_length. lia.
Qed.

(** C8 at a store holding the claims 1..10: the eleventh claim comes first
    and claim 10 is gone; three further additions keep the size at 10, and
    one addition to a recent list of twelve leaves ten. *)
Lemma C8_recent_claims_cap_witness :
  length (AppContext.recentClaims Fixtures.full_state) = 10
  ∧ AppContext.recentClaims
      (AppContext.appReducer "t1" Fixtures.full_state
         (AppContext.ADD_CLAIM (JStr "11") ∅))
    = AppContext.newClaim "t1" (JStr "11") ∅ :: (Fixtures.numbered <$> seq 1 9)
  ∧ length (AppContext.recentClaims
              (Spec.run [("t1", AppContext.ADD_CLAIM (JStr "11") ∅);
                         ("t2", AppContext.ADD_CLAIM (JStr "12") ∅);
                         ("t3", AppContext.ADD_CLAIM (JStr "13") ∅)]
                 Fixtures.full_state)) ≤ 10
  ∧ length (AppContext.recentClaims Fixtures.overfull_state) = 12
  ∧ length (AppContext.recentClaims
              (Spec.run [("t1", AppContext.ADD_CLAIM (JStr "13") ∅)]
                 Fixtures.overfull_state)) ≤ 10.
Proof.
  destruct C8_recent_claims_cap as (Hadd & Hrun & Hany).
  split; [reflexivity|]. split; [|split; [|split; [reflexivity|]]].
  - destruct (Hadd "t1" Fixtures.full_state (JStr "11") ∅ eq_refl) as (_ & _ & H).
    rewrite H. reflexivity.
  - apply Hrun; [repeat constructor | simpl; lia].
  - apply Hany; [repeat constructor | discriminate].
Defined.

(** C10.  ADD_CLAIM puts the newly built claim in front of [claims] and of
    [recentClaims] and stores that same claim as [currentClaim], whatever
    the current claim was before; the new claim has the clock reading as
    [processedAt], every other property of the result, and the given id as
    [id] when the result has no [id] of its own. *)
Theorem C10_add_claim_sets_current (now : string) (state : AppContext.AppState)
    (claimId : JsVal) (result : Obj) :
  let state' := AppContext.appReducer now state (AppContext.ADD_CLAIM claimId result) in
  let c := AppContext.newClaim now claimId result in
  AppContext.currentClaim state' = Some c
  ∧ AppContext.claims state' = c :: AppContext.claims state
  ∧ AppContext.recentClaims state' = c :: take 9 (AppContext.recentClaims state)
  ∧ (∀ k : string,
        c !! k = if decide (k = "processedAt") then Some (JStr now)
                 else match result !! k with
                      | Some v => Some v
                      | None => if decide (k = "id") then Some claimId else None
                      end).
Proof.
  intros state' c. subst state' c. repeat split.
  intros k. unfold AppContext.newClaim, spread.
  destruct (decide (k = "processedAt")) as [->|Hk].
  - by rewrite lookup_insert_eq.
  - rewrite lookup_insert_ne by done. rewrite lookup_union.
    destruct (result !! k) as [v|] eqn:Hr.
    + by destruct (({[ "id" := claimId ]} : Obj) !! k).
    + rewrite (left_id None _). destruct (decide (k = "id")) as [->|Hid].
      * by rewrite lookup_singleton_eq.
      * by rewrite lookup_singleton_ne.
Qed.

(** ** C5: the response interceptor *)

(** C5, counterexamples.  A 503 response without a body message is not
    mapped to the server-error message: it falls to the default case.  A
    422 response whose body has the empty string as its message does not
    carry that message but the HTTP text, and one whose message is an
    object carries the text [[object Object]] in its place. *)
Lemma C5_other_5xx_and_body_messages :
  @Api.responseInterceptor Obj Fixtures.rt
    (HttpError 503 None "Request failed with status code 503")
  = Throw "HTTP 503: Request failed with status code 503"
  ∧ @Api.responseInterceptor Obj Fixtures.rt
      (HttpError 503 None "Request failed with status code 503")
    ≠ Throw Api.msg_server_error
  ∧ @Api.responseInterceptor Obj Fixtures.rt
      (HttpError 422 (Some (JsonStr EmptyString))
         "Request failed with status code 422")
    = Throw "HTTP 422: Request failed with status code 422"
  ∧ @Api.responseInterceptor Obj Fixtures.rt
      (HttpError 422 (Some (JsonObj [("detail", JsonStr "summary too long")]))
         "Request failed with status code 422")
    = Throw "[object Object]".
Proof. split; [reflexivity|]. split; [discriminate|]. split; reflexivity. Qed.

Lemma status_message_other (rt : Runtime) (status : Z)
    (data_message : option Json) (message : string) :
  status ∉ Spec.listed_statuses →
  Api.status_message rt status data_message message
  = Api.message_or_else rt data_message
      ("HTTP " +:+ string_of_Z status +:+ ": " +:+ message).
Proof.
  intros Hst. unfold Api.status_message.
  repeat (match goal with
          | |- context [match ?z with _ => _ end] => destruct z; try reflexivity
          end);
    exfalso; apply Hst; unfold Spec.listed_statuses; set_solver.
Qed.

(** C5, as amended.  For a failed request with a response the interceptor
    throws exactly one error, chosen by the status: 401 Unauthorized, 403
    Forbidden, 404 NotFound, 405 MethodNotAllowed, 429 RateLimited and the
    status 500 alone ServerError, the six messages being pairwise distinct;
    any other status, the other 5xx included, gives the unknown error.
    That error carries the body's message when the message is a non-empty
    string and, more generally, the string conversion of any truthy
    message that has one; it carries the text HTTP <status>: <error
    message> when the body has no message or a falsy one. *)
Theorem C5_status_mapping (A : Type) (rt : Runtime) (status : Z)
    (data_message : option Json) (message : string) :
  @Api.responseInterceptor A rt (HttpError status data_message message)
  = Throw (Api.status_message rt status data_message message)
  ∧ Api.status_message rt 401 data_message message = Api.msg_unauthorized
  ∧ Api.status_message rt 403 data_message message = Api.msg_forbidden
  ∧ Api.status_message rt 404 data_message message = Api.msg_not_found
  ∧ Api.status_message rt 405 data_message message = Api.msg_method_not_allowed
  ∧ Api.status_message rt 429 data_message message = Api.msg_rate_limited
  ∧ Api.status_message rt 500 data_message message = Api.msg_server_error
  ∧ NoDup [Api.msg_unauthorized; Api.msg_forbidden; Api.msg_not_found;
           Api.msg_method_not_allowed; Api.msg_rate_limited; Api.msg_server_error]
  ∧ (status ∉ Spec.listed_statuses →
     (∀ body, data_message = Some (JsonStr body) → body ≠ EmptyString →
              Api.status_message rt status data_message message = body)
     ∧ (∀ v s, data_message = Some v → Json_truthy v = true →
               Json_toString rt v = Some s →
               Api.status_message rt status data_message message = s)
     ∧ (data_message = None
        ∨ (∃ v, data_message = Some v ∧ Json_truthy v = false) →
        Api.status_message rt status data_message message
        = "HTTP " +:+ string_of_Z status +:+ ": " +:+ message)).
Proof.
  split; [reflexivity|]. do 6 (split; [reflexivity|]). split.
  - apply (bool_decide_eq_true_1 (NoDup _)). vm_compute. reflexivity.
  - intros Hst. rewrite (status_message_other _ _ _ _ Hst). split; [|split].
    + intros body -> Hbody. simpl. by destruct body.
    + intros v s -> Hv Hs. simpl. by rewrite Hv, Hs.
    + intros [-> | (v & -> & Hv)]; simpl; [reflexivity | by rewrite Hv].
Qed.

(** The amended C5 statement at a 503 without a body message, at a 422
    whose body has a string as its message, at one whose message is an
    array with a [null] element and at one whose message is [false]. *)
Lemma C5_status_mapping_witness :
  ((503%Z ∉ Spec.listed_statuses) ∧ (422%Z ∉ Spec.listed_statuses))
  ∧ Api.status_message Fixtures.rt 503 None "Request failed with status code 503"
    = "HTTP 503: Request failed with status code 503"
  ∧ Api.status_message Fixtures.rt 422 (Some (JsonStr "summary too long"))
      "Request failed with status code 422"
    = "summary too long"
  ∧ Api.status_message Fixtures.rt 422
      (Some (JsonArr [JsonStr "summary"; JsonNull; JsonStr "status"]))
      "Request failed with status code 422"
    = "summary,,status"
  ∧ Api.status_message Fixtures.rt 422 (Some (JsonBool false))
      "Request failed with status code 422"
    = "HTTP 422: Request failed with status code 422".
Proof.
  assert (H503 : 503%Z ∉ Spec.listed_statuses)
    by (apply (bool_decide_eq_true_1 (_ ∉ _)); reflexivity).
  assert (H422 : 422%Z ∉ Spec.listed_statuses)
    by (apply (bool_decide_eq_true_1 (_ ∉ _)); reflexivity).
  split; [by split|]. split; [|split; [|split]].
  - destruct (C5_status_mapping Obj Fixtures.rt 503 None
                "Request failed with status code 503")
      as (_ & _ & _ & _ & _ & _ & _ & _ & H).
    apply (H H503). by left.
  - destruct (C5_status_mapping Obj Fixtures.rt 422 (Some (JsonStr "summary too long"))
                "Request failed with status code 422")
      as (_ & _ & _ & _ & _ & _ & _ & _ & H).
    by apply (H H422).
  - destruct (C5_status_mapping Obj Fixtures.rt 422
                (Some (JsonArr [JsonStr "summary"; JsonNull; JsonStr "status"]))
                "Request failed with status code 422")
      as (_ & _ & _ & _ & _ & _ & _ & _ & H).
    destruct (H H422) as (_ & Hv & _).
    exact (Hv _ _ eq_refl eq_refl eq_refl).
  - destruct (C5_status_mapping Obj Fixtures.rt 422 (Some (JsonBool false))
                "Request failed with status code 422")
      as (_ & _ & _ & _ & _ & _ & _ & _ & H).
    apply (H H422). right. by eexists.
Defined.

(** ** Validation: the shape of the two reports *)

Lemma fold_left_push {A B} (step : list B → A → list B) (g : A → list B)
    (l : list A) (acc : list B) :
  (∀ acc x, step acc x = acc ++ g x) →
  fold_left step l acc = acc ++ flat_map g l.
Proof.
  intros Hstep. revert acc.
  induction l as [|x l IH]; intros acc; simpl; [by rewrite app_nil_r|].
  by rewrite IH, Hstep, <- app_assoc.
Qed.

Lemma check_required_app (claimData : Obj) (acc : list string) (field : string) :
  ClaimUtils.check_required claimData acc field
  = acc ++ Spec.required_error field (get claimData field).
Proof.
  unfold ClaimUtils.check_required, Spec.required_error, push.
  destruct (ClaimUtils.blank_or_missing _); [done | by rewrite app_nil_r].
Qed.

Lemma check_uuid_app (rt : Runtime) (claimData : Obj) (acc : list string)
    (field : string) :
  ClaimUtils.check_uuid rt claimData acc field
  = acc ++ Spec.uuid_error rt field (get claimData field).
Proof.
  unfold ClaimUtils.check_uuid, Spec.uuid_error, push.
  destruct (_ && _); [done | by rewrite app_nil_r].
Qed.

Lemma check_status_app (claimData : Obj) (acc : list string) :
  ClaimUtils.check_status claimData acc
  = acc ++ Spec.status_error (get claimData "status").
Proof.
  unfold ClaimUtils.check_status, Spec.status_error, push.
  destruct (_ && _); [done | by rewrite app_nil_r].
Qed.

Lemma check_boolean_app (claimData : Obj) (acc : list string) (field : string) :
  ClaimUtils.check_boolean claimData acc field
  = acc ++ Spec.boolean_error field (get claimData field).
Proof.
  unfold ClaimUtils.check_boolean, Spec.boolean_error, push.
  destruct (_ && _); [done | by rewrite app_nil_r].
Qed.

Lemma check_date_app (rt : Runtime) (claimData : Obj) (acc : list string) :
  ClaimUtils.check_date rt claimData acc
  = acc ++ Spec.date_error rt (get claimData "submission_date").
Proof.
  unfold ClaimUtils.check_date, Spec.date_error, push.
  destruct (truthy _), (Date_valid _ _); simpl; by rewrite ?app_nil_r.
Qed.

(** The errors of [validateClaim] are the errors of its checks, one after
    the other. *)
Lemma validateClaim_errors (rt : Runtime) (claimData : Obj) :
  ClaimUtils.errors (ClaimUtils.validateClaim rt claimData)
  = flat_map (λ f, Spec.required_error f (get claimData f)) ClaimUtils.requiredFields
    ++ flat_map (λ f, Spec.uuid_error rt f (get claimData f)) ClaimUtils.uuidFields
    ++ Spec.status_error (get claimData "status")
    ++ flat_map (λ f, Spec.boolean_error f (get claimData f)) ClaimUtils.booleanFields
    ++ Spec.date_error rt (get claimData "submission_date").
Proof.
  unfold ClaimUtils.validateClaim. cbn [ClaimUtils.errors].
  rewrite check_date_app.
  rewrite (fold_left_push _ (λ f, Spec.boolean_error f (get claimData f)))
    by apply check_boolean_app.
  rewrite check_status_app.
  rewrite (fold_left_push _ (λ f, Spec.uuid_error rt f (get claimData f)))
    by apply check_uuid_app.
  rewrite (fold_left_push _ (λ f, Spec.required_error f (get claimData f)))
    by apply check_required_app.
  rewrite app_nil_l, <- !app_assoc. reflexivity.
Qed.

Lemma validateClaim_isValid (rt : Runtime) (claimData : Obj) :
  ClaimUtils.isValid (ClaimUtils.validateClaim rt claimData) = true
  ↔ ClaimUtils.errors (ClaimUtils.validateClaim rt claimData) = [].
Proof.
  unfold ClaimUtils.validateClaim. cbn [ClaimUtils.isValid ClaimUtils.errors].
  rewrite Nat.eqb_eq. split; [apply nil_length_inv | by intros ->].
Qed.

Lemma flat_map_nil_inv {A B} (g : A → list B) (l : list A) (x : A) :
  flat_map g l = [] → x ∈ l → g x = [].
Proof.
  induction l as [|y l IH]; simpl; intros Hnil Hin; [by apply elem_of_nil in Hin|].
  apply app_eq_nil in Hnil as [Hy Hl].
  apply elem_of_cons in Hin as [->|Hin]; [done | by apply IH].
Qed.

(** A claim that passes [validateClaim] has a truthy, non-blank value in
    each required field. *)
Lemma valid_claim_required (rt : Runtime) (claimData : Obj) (field : string) :
  ClaimUtils.isValid (ClaimUtils.validateClaim rt claimData) = true →
  field ∈ ClaimUtils.requiredFields →
  ClaimUtils.blank_or_missing (get claimData field) = false.
Proof.
  rewrite validateClaim_isValid, validateClaim_errors. intros Hnil Hin.
  apply app_eq_nil in Hnil as [Hreq _].
  pose proof (flat_map_nil_inv _ _ _ Hreq Hin) as H.
  unfold Spec.required_error in H.
  by destruct (ClaimUtils.blank_or_missing _).
Qed.

(** [validateForm]: the fold over the field table. *)
Lemma validateForm_fold (rt : Runtime) (formData : Obj)
    (table : list (string * FormUtils.FieldConfig))
    (m : gmap string (list string)) (b : bool) :
  NoDup table.*1 →
  let r := fold_left (FormUtils.validateForm_step rt formData) table (m, b) in
  (∀ f cfg, (f, cfg) ∈ table →
     r.1 !! f = match FormUtils.validateField rt f (get formData f) cfg with
                | [] => m !! f
                | e :: es => Some (e :: es)
                end)
  ∧ (∀ f, f ∉ table.*1 → r.1 !! f = m !! f)
  ∧ r.2 = b || existsb (λ entry, 0 <? length (FormUtils.validateField rt entry.1
                                               (get formData entry.1) entry.2)) table.
Proof.
  revert m b. induction table as [|[f0 cfg0] table IH]; intros m b Hnd r.
  - subst r. simpl. split; [intros f cfg Hin; by apply elem_of_nil in Hin|].
    split; [done | by rewrite orb_false_r].
  - apply NoDup_cons in Hnd as [Hf0 Hnd]. subst r. cbn [fold_left].
    set (e0 := FormUtils.validateField rt f0 (get formData f0) cfg0).
    assert (Hstep : FormUtils.validateForm_step rt formData (m, b) (f0, cfg0)
                    = match e0 with
                      | [] => (m, b)
                      | _ :: _ => (<[f0 := e0]> m, true)
                      end).
    { unfold FormUtils.validateForm_step. fold e0. by destruct e0. }
    rewrite Hstep. clear Hstep.
    destruct e0 as [|e es] eqn:He0.
    + destruct (IH m b Hnd) as (Hin & Hout & Hb). split; [|split].
      * intros f cfg Hmem. apply elem_of_cons in Hmem as [Heq|Hmem].
        -- injection Heq as -> ->. fold e0. rewrite He0. by apply Hout.
        -- by apply Hin.
      * intros f Hf. cbn in Hf. apply not_elem_of_cons in Hf as [_ Hf].
        by apply Hout.
      * rewrite Hb. cbn [existsb fst snd]. fold e0. rewrite He0. done.
    + destruct (IH (<[f0 := e :: es]> m) true Hnd) as (Hin & Hout & Hb).
      split; [|split].
      * intros f cfg Hmem. apply elem_of_cons in Hmem as [Heq|Hmem].
        -- injection Heq as -> ->. fold e0. rewrite He0.
           rewrite Hout by done. by rewrite lookup_insert_eq.
        -- rewrite (Hin f cfg) by done.
           assert (f ≠ f0).
           { intros ->. apply Hf0. apply list_elem_of_fmap. by exists (f0, cfg). }
           by rewrite lookup_insert_ne.
      * intros f Hf. cbn in Hf. apply not_elem_of_cons in Hf as [Hne Hf].
        rewrite Hout by done. by rewrite lookup_insert_ne.
      * rewrite Hb. cbn [existsb fst snd]. fold e0. rewrite He0.
        by rewrite orb_true_r.
Qed.

Lemma CLAIM_FORM_FIELDS_NoDup : NoDup FormUtils.CLAIM_FORM_FIELDS.*1.
Proof. apply (bool_decide_eq_true_1 (NoDup _)). vm_compute. reflexivity. Qed.

(** The report of [validateForm], field by field. *)
Lemma validateForm_spec (rt : Runtime) (formData : Obj) :
  let r := FormUtils.validateForm rt formData in
  (∀ f cfg, (f, cfg) ∈ FormUtils.CLAIM_FORM_FIELDS →
     FormUtils.errors r !! f
     = match FormUtils.validateField rt f (get formData f) cfg with
       | [] => None
       | e :: es => Some (e :: es)
       end)
  ∧ (FormUtils.isValid r = true ↔
     ∀ f cfg, (f, cfg) ∈ FormUtils.CLAIM_FORM_FIELDS →
              FormUtils.validateField rt f (get formData f) cfg = []).
Proof.
  intros r.
  destruct (validateForm_fold rt formData FormUtils.CLAIM_FORM_FIELDS ∅ false
              CLAIM_FORM_FIELDS_NoDup) as (Hin & _ & Hb).
  assert (Hr : r = {| FormUtils.isValid :=
                        negb (fold_left (FormUtils.validateForm_step rt formData)
                                FormUtils.CLAIM_FORM_FIELDS (∅, false)).2;
                      FormUtils.errors :=
                        (fold_left (FormUtils.validateForm_step rt formData)
                           FormUtils.CLAIM_FORM_FIELDS (∅, false)).1 |}).
  { subst r. unfold FormUtils.validateForm. by destruct (fold_left _ _ _). }
  rewrite Hr. cbn [FormUtils.isValid FormUtils.errors]. split.
  - intros f cfg Hmem. rewrite (Hin f cfg Hmem). by rewrite lookup_empty.
  - rewrite Hb, orb_false_l, negb_true_iff. split.
    + intros Hex f cfg Hmem.
      destruct (FormUtils.validateField rt f (get formData f) cfg) as [|e es] eqn:He;
        [done|].
      assert (Htrue : existsb
                (λ entry, 0 <? length (FormUtils.validateField rt entry.1
                                         (get formData entry.1) entry.2))
                FormUtils.CLAIM_FORM_FIELDS = true).
      { apply existsb_exists. exists (f, cfg). split; [by apply list_elem_of_In|].
        cbn [fst snd]. by rewrite He. }
      congruence.
    + intros Hall. apply not_true_iff_false. intros Hex.
      apply existsb_exists in Hex as ([f cfg] & Hmem & Hlen).
      apply list_elem_of_In in Hmem. cbn [fst snd] in Hlen.
      by rewrite (Hall f cfg Hmem) in Hlen.
Qed.

(** ** C4: the length of the summary *)

Lemma summary_field_in_table :
  ("summary", {| FormUtils.label := "Claim Summary"; FormUtils.required := true;
                 FormUtils.validation := Some FormUtils.summary_validation |})
  ∈ FormUtils.CLAIM_FORM_FIELDS.
Proof. apply list_elem_of_In. simpl. tauto. Qed.

(** The errors of the summary field in the form validator. *)
Lemma validateField_summary (rt : Runtime) (s : string) :
  FormUtils.validateField rt "summary" (JStr s)
    {| FormUtils.label := "Claim Summary"; FormUtils.required := true;
       FormUtils.validation := Some FormUtils.summary_validation |}
  = if ClaimUtils.blank_or_missing (JStr s) then ["Claim Summary is required"]
    else (if String.length s <? 10
          then ["Claim Summary must be at least 10 characters"] else [])
         ++ (if 1000 <? String.length s
             then ["Claim Summary must not exceed 1000 characters"] else []).
Proof.
  unfold FormUtils.validateField.
  cbn [FormUtils.required FormUtils.label FormUtils.validation andb].
  destruct (ClaimUtils.blank_or_missing (JStr s)); [reflexivity|].
  cbn [mbind option_bind FormUtils.pattern FormUtils.minLength FormUtils.maxLength
       FormUtils.summary_validation FormUtils.bound FormUtils.length_lt
       FormUtils.length_gt].
  destruct (String.length s <? 10), (1000 <? String.length s); reflexivity.
Qed.

(** C4, counterexample.  [ClaimUtils.validateClaim] accepts a claim whose
    summary has 9 characters, and one whose summary has 1001 characters:
    it has no check on the length of the summary. *)
Lemma C4_validateClaim_accepts_short_summary :
  String.length "too short" = 9
  ∧ ClaimUtils.validateClaim Fixtures.rt (Fixtures.sample_claim "too short")
    = {| ClaimUtils.isValid := true; ClaimUtils.errors := [] |}
  ∧ String.length (Fixtures.letters 1001) = 1001
  ∧ ClaimUtils.validateClaim Fixtures.rt (Fixtures.sample_claim (Fixtures.letters 1001))
    = {| ClaimUtils.isValid := true; ClaimUtils.errors := [] |}.
Proof. repeat split; vm_compute; reflexivity. Qed.

(** C4, as amended.  The form validator ([FormUtils.validateField] under
    [validateForm]) enforces that the summary length lies in [10, 1000]: a
    form whose summary is a string shorter than 10 or longer than 1000 is
    reported invalid; a summary that is not blank gets exactly the
    at-least-10 error below 10 characters, exactly the not-exceed-1000 error
    above 1000, and no error from 10 to 1000 characters.
    [ClaimUtils.validateClaim] checks no length: its report is the same for
    any two non-blank summaries. *)
Theorem C4_form_summary_length (rt : Runtime) (formData : Obj) (s : string) :
  get formData "summary" = JStr s →
  let r := FormUtils.validateForm rt formData in
  (String.length s < 10 ∨ 1000 < String.length s → FormUtils.isValid r = false)
  ∧ (ClaimUtils.blank_or_missing (JStr s) = false →
     (String.length s < 10 →
      FormUtils.errors r !! "summary"
      = Some ["Claim Summary must be at least 10 characters"])
     ∧ (1000 < String.length s →
        FormUtils.errors r !! "summary"
        = Some ["Claim Summary must not exceed 1000 characters"])
     ∧ (10 ≤ String.length s ≤ 1000 → FormUtils.errors r !! "summary" = None))
  ∧ (∀ (claim : Obj) (s' : string),
        ClaimUtils.blank_or_missing (JStr s) = false →
        ClaimUtils.blank_or_missing (JStr s') = false →
        ClaimUtils.validateClaim rt (<["summary" := JStr s]> claim)
        = ClaimUtils.validateClaim rt (<["summary" := JStr s']> claim)).
Proof.
  intros Hs r.
  destruct (validateForm_spec rt formData) as [Hfield Hvalid]. fold r in Hfield, Hvalid.
  pose proof (Hfield _ _ summary_field_in_table) as Hsum.
  rewrite Hs, validateField_summary in Hsum.
  split; [|split].
  - intros Hlen. apply not_true_iff_false. intros Hok.
    pose proof (proj1 Hvalid Hok _ _ summary_field_in_table) as Hnil.
    rewrite Hs, validateField_summary in Hnil.
    destruct (ClaimUtils.blank_or_missing (JStr s)); [discriminate Hnil|].
    destruct Hlen as [Hlt|Hgt].
    + apply Nat.ltb_lt in Hlt. rewrite Hlt in Hnil. discriminate Hnil.
    + apply Nat.ltb_lt in Hgt. rewrite Hgt in Hnil.
      by destruct (String.length s <? 10).
  - intros Hnb. rewrite Hnb in Hsum. split; [|split].
    + intros Hlt. rewrite Hsum.
      replace (String.length s <? 10) with true by (symmetry; apply Nat.ltb_lt; lia).
      replace (1000 <? String.length s) with false
        by (symmetry; apply Nat.ltb_ge; lia).
      reflexivity.
    + intros Hgt. rewrite Hsum.
      replace (String.length s <? 10) with false by (symmetry; apply Nat.ltb_ge; lia).
      replace (1000 <? String.length s) with true by (symmetry; apply Nat.ltb_lt; lia).
      reflexivity.
    + intros [Hge Hle]. rewrite Hsum.
      replace (String.length s <? 10) with false by (symmetry; apply Nat.ltb_ge; lia).
      replace (1000 <? String.length s) with false
        by (symmetry; apply Nat.ltb_ge; lia).
      reflexivity.
  - intros claim s' Hnb Hnb'.
    assert (Hget : ∀ (t : string) (f : string),
               get (<["summary" := JStr t]> claim) f
               = if decide (f = "summary") then JStr t else get claim f).
    { intros t f. unfold get. destruct (decide (f = "summary")) as [->|Hne].
      - by rewrite lookup_insert_eq.
      - by rewrite lookup_insert_ne. }
    assert (Herr : ClaimUtils.errors
                     (ClaimUtils.validateClaim rt (<["summary" := JStr s]> claim))
                   = ClaimUtils.errors
                       (ClaimUtils.validateClaim rt (<["summary" := JStr s']> claim))).
    { rewrite !validateClaim_errors.
      unfold ClaimUtils.requiredFields, ClaimUtils.uuidFields, ClaimUtils.booleanFields.
      cbn [flat_map]. rewrite !Hget.
      repeat (destruct (decide _) as [Heq|_]; [discriminate Heq|]).
      destruct (decide _) as [_|Hne]; [|done].
      unfold Spec.required_error. rewrite Hnb, Hnb'. reflexivity. }
    unfold ClaimUtils.validateClaim in *. cbn [ClaimUtils.errors] in Herr.
    by rewrite Herr.
Qed.

(** The amended statement at summaries of 9, 10, 1000 and 1001
    characters. *)
Lemma C4_form_summary_length_witness :
  let form s := FormUtils.validateForm Fixtures.rt (Fixtures.sample_claim s) in
  FormUtils.isValid (form "too short") = false
  ∧ FormUtils.errors (form "too short") !! "summary"
    = Some ["Claim Summary must be at least 10 characters"]
  ∧ FormUtils.errors (form "ten chars!") !! "summary" = None
  ∧ FormUtils.errors (form (Fixtures.letters 1000)) !! "summary" = None
  ∧ FormUtils.isValid (form (Fixtures.letters 1001)) = false
  ∧ FormUtils.errors (form (Fixtures.letters 1001)) !! "summary"
    = Some ["Claim Summary must not exceed 1000 characters"].
Proof.
  intros form.
  assert (Hget : ∀ s, get (Fixtures.sample_claim s) "summary" = JStr s)
    by (intros s; reflexivity).
  pose proof (C4_form_summary_length Fixtures.rt _ _ (Hget "too short")) as (H9v & H9 & _).
  pose proof (C4_form_summary_length Fixtures.rt _ _ (Hget "ten chars!")) as (_ & H10 & _).
  pose proof (C4_form_summary_length Fixtures.rt _ _ (Hget (Fixtures.letters 1000)))
    as (_ & H1000 & _).
  pose proof (C4_form_summary_length Fixtures.rt _ _ (Hget (Fixtures.letters 1001)))
    as (H1001v & H1001 & _).
  split; [apply H9v; left; simpl; lia|].
  split; [apply H9; [reflexivity | simpl; lia]|].
  split; [apply H10; [reflexivity | simpl; lia]|].
  split; [apply H1000; [reflexivity | vm_compute; split; apply Nat.leb_le; reflexivity]|].
  split; [apply H1001v; right; vm_compute; apply Nat.leb_le; reflexivity|].
  apply H1001; [reflexivity | vm_compute; apply Nat.leb_le; reflexivity].
Defined.

(** ** C9 and the required fields of both validators *)

Lemma occurrences_app (m : string) (l1 l2 : list string) :
  Spec.occurrences m (l1 ++ l2) = Spec.occurrences m l1 + Spec.occurrences m l2.
Proof. unfold Spec.occurrences. by rewrite filter_app, length_app. Qed.

Lemma occurrences_cond (b : bool) (m t : string) :
  Spec.occurrences t (if b then [m] else [])
  = Nat.b2n b * Nat.b2n (bool_decide (m = t)).
Proof.
  unfold Spec.occurrences. destruct b; [|reflexivity].
  rewrite filter_cons, filter_nil. by destruct (decide (m = t)); case_bool_decide.
Qed.

(** Each required field that is blank or missing has its required error
    exactly once among the errors of [validateClaim]; the others have
    none. *)
Lemma validateClaim_required_once (rt : Runtime) (claimData : Obj) (f : string) :
  f ∈ ClaimUtils.requiredFields →
  Spec.occurrences (f +:+ " is required")
    (ClaimUtils.errors (ClaimUtils.validateClaim rt claimData))
  = if ClaimUtils.blank_or_missing (get claimData f) then 1 else 0.
Proof.
  intros Hin. rewrite validateClaim_errors.
  unfold ClaimUtils.requiredFields, ClaimUtils.uuidFields, ClaimUtils.booleanFields.
  cbn [flat_map].
  unfold Spec.required_error, Spec.uuid_error, Spec.status_error,
    Spec.boolean_error, Spec.date_error.
  rewrite !app_nil_r, !occurrences_app, !occurrences_cond.
  unfold ClaimUtils.requiredFields in Hin.
  repeat (apply elem_of_cons in Hin as [->|Hin];
          [eval_message_tests; by destruct (ClaimUtils.blank_or_missing _)|]).
  by apply elem_of_nil in Hin.
Qed.

Lemma occurrences_nil_inv (m : string) (l : list string) :
  0 < Spec.occurrences m l → l ≠ [].
Proof. intros H ->. unfold Spec.occurrences in H. simpl in H. lia. Qed.

Lemma required_field_in_table (f : string) :
  f ∈ ClaimUtils.requiredFields →
  ∃ cfg, (f, cfg) ∈ FormUtils.CLAIM_FORM_FIELDS ∧ FormUtils.required cfg = true.
Proof.
  intros Hin. unfold ClaimUtils.requiredFields in Hin.
  repeat (apply elem_of_cons in Hin as [->|Hin];
          [eexists; split; [apply list_elem_of_In; simpl; tauto | reflexivity]|]).
  by apply elem_of_nil in Hin.
Qed.

Lemma validateField_required_blank (rt : Runtime) (f : string) (v : JsVal)
    (cfg : FormUtils.FieldConfig) :
  FormUtils.required cfg = true → ClaimUtils.blank_or_missing v = true →
  FormUtils.validateField rt f v cfg = [FormUtils.label cfg +:+ " is required"].
Proof. intros Hreq Hblank. unfold FormUtils.validateField. by rewrite Hreq, Hblank. Qed.

(** C9, failing input.  The claim holds valid identifiers, but for a
    provider id of three spaces.  That value is blank, and the claim says a
    blank value skips the further checks of its field, as the form
    validator does: its entry for the field is the required error alone.
    [validateClaim] goes on to the format check of that same field and
    reports two errors for it; for the empty provider id it reports the
    required error only. *)
Theorem C9_blank_identifier_is_checked_further :
  ClaimUtils.blank_or_missing (get Fixtures.blank_provider_claim "provider_id") = true
  ∧ ClaimUtils.errors (ClaimUtils.validateClaim Fixtures.rt Fixtures.blank_provider_claim)
    = ["provider_id is required"; "provider_id must be a valid UUID"]
  ∧ FormUtils.errors (FormUtils.validateForm Fixtures.rt Fixtures.blank_provider_claim)
    !! "provider_id"
    = Some ["Provider ID is required"]
  ∧ ClaimUtils.errors
      (ClaimUtils.validateClaim Fixtures.rt
         (<["provider_id" := JStr EmptyString]> Fixtures.blank_provider_claim))
    = ["provider_id is required"].
Proof. repeat split; vm_compute; reflexivity. Qed.

(** Required fields in both validators.  For every claim record: each of
    the five required fields that is blank or missing, a whitespace-only
    string included, has exactly one required error ([validateClaim]: its
    message occurs once among the errors, and not at all for a field with a
    value; [validateForm]: the entry of the field is that one error), and
    the report is invalid as soon as one of them is missing.  The checks
    accumulate independently: the errors of [validateClaim] are the errors
    of each check in turn, each a function of the one value it reads, and
    [validateForm] holds for each field of the table the errors of that
    field alone.  A missing or empty value skips the further checks of the
    same field: in [validateClaim] the format, status and date checks
    report nothing for it; in the form validator a blank or missing
    required value yields the required error only. *)
Theorem required_errors_accumulate (rt : Runtime) (claimData : Obj) :
  let r := ClaimUtils.validateClaim rt claimData in
  let fr := FormUtils.validateForm rt claimData in
  (∀ f, f ∈ ClaimUtils.requiredFields →
        Spec.occurrences (f +:+ " is required") (ClaimUtils.errors r)
        = if ClaimUtils.blank_or_missing (get claimData f) then 1 else 0)
  ∧ (∀ f s, f ∈ ClaimUtils.requiredFields →
        get claimData f = JStr s → trim s = EmptyString →
        Spec.occurrences (f +:+ " is required") (ClaimUtils.errors r) = 1)
  ∧ (∀ f, f ∈ ClaimUtils.requiredFields →
          ClaimUtils.blank_or_missing (get claimData f) = true →
          ClaimUtils.isValid r = false ∧ FormUtils.isValid fr = false
          ∧ ∃ cfg, (f, cfg) ∈ FormUtils.CLAIM_FORM_FIELDS
                   ∧ FormUtils.errors fr !! f
                     = Some [FormUtils.label cfg +:+ " is required"])
  ∧ ClaimUtils.errors r
    = flat_map (λ f, Spec.required_error f (get claimData f)) ClaimUtils.requiredFields
      ++ flat_map (λ f, Spec.uuid_error rt f (get claimData f)) ClaimUtils.uuidFields
      ++ Spec.status_error (get claimData "status")
      ++ flat_map (λ f, Spec.boolean_error f (get claimData f)) ClaimUtils.booleanFields
      ++ Spec.date_error rt (get claimData "submission_date")
  ∧ (∀ f cfg, (f, cfg) ∈ FormUtils.CLAIM_FORM_FIELDS →
        FormUtils.errors fr !! f
        = match FormUtils.validateField rt f (get claimData f) cfg with
          | [] => None
          | e :: es => Some (e :: es)
          end)
  ∧ (∀ f v, truthy v = false →
        Spec.uuid_error rt f v = [] ∧ Spec.status_error v = []
        ∧ Spec.date_error rt v = [])
  ∧ (∀ f v cfg, FormUtils.required cfg = true →
        ClaimUtils.blank_or_missing v = true →
        FormUtils.validateField rt f v cfg = [FormUtils.label cfg +:+ " is required"]).
Proof.
  intros r fr. subst r fr.
  destruct (validateForm_spec rt claimData) as [Hfield Hvalid].
  split; [intros f Hin; by apply validateClaim_required_once|].
  split.
  { intros f s' Hin Hget Htrim. rewrite validateClaim_required_once by done.
    rewrite Hget. unfold ClaimUtils.blank_or_missing. rewrite Htrim.
    by rewrite orb_true_r. }
  split; [|split; [apply validateClaim_errors|split; [exact Hfield|split]]].
  - intros f Hin Hblank.
    destruct (required_field_in_table f Hin) as (cfg & Hmem & Hreq).
    pose proof (validateField_required_blank rt f _ cfg Hreq Hblank) as Herr.
    split; [|split].
    + apply not_true_iff_false. rewrite validateClaim_isValid.
      apply (occurrences_nil_inv (f +:+ " is required")).
      rewrite validateClaim_required_once by done. rewrite Hblank. lia.
    + apply not_true_iff_false. intros Hok.
      pose proof (proj1 Hvalid Hok f cfg Hmem) as Hnil. congruence.
    + exists cfg. split; [done|]. by rewrite (Hfield f cfg Hmem), Herr.
  - intros f v Hv. unfold Spec.uuid_error, Spec.status_error, Spec.date_error.
    by rewrite Hv.
  - intros f v cfg. apply validateField_required_blank.
Qed.

(** The statement at a claim record with a valid provider id, a summary of
    three spaces and no other field: the blank summary and the missing
    risk id have one required error each, the provider id none, and both
    reports are invalid. *)
Lemma required_errors_accumulate_witness :
  let claim := Fixtures.blank_summary_claim in
  ("summary" ∈ ClaimUtils.requiredFields
   ∧ get claim "summary" = JStr "   " ∧ trim "   " = EmptyString)
  ∧ ClaimUtils.isValid (ClaimUtils.validateClaim Fixtures.rt claim) = false
  ∧ FormUtils.isValid (FormUtils.validateForm Fixtures.rt claim) = false
  ∧ Spec.occurrences "summary is required"
      (ClaimUtils.errors (ClaimUtils.validateClaim Fixtures.rt claim)) = 1
  ∧ Spec.occurrences "risk_id is required"
      (ClaimUtils.errors (ClaimUtils.validateClaim Fixtures.rt claim)) = 1
  ∧ Spec.occurrences "provider_id is required"
      (ClaimUtils.errors (ClaimUtils.validateClaim Fixtures.rt claim)) = 0
  ∧ FormUtils.errors (FormUtils.validateForm Fixtures.rt claim) !! "summary"
    = Some ["Claim Summary is required"].
Proof.
  intros claim.
  destruct (required_errors_accumulate Fixtures.rt claim)
    as (Honce & Hblank & Hmissing & _ & _ & _ & _).
  assert (Hsummary : "summary" ∈ ClaimUtils.requiredFields)
    by (apply list_elem_of_In; simpl; tauto).
  assert (Hrisk : "risk_id" ∈ ClaimUtils.requiredFields)
    by (apply list_elem_of_In; simpl; tauto).
  assert (Hprovider : "provider_id" ∈ ClaimUtils.requiredFields)
    by (apply list_elem_of_In; simpl; tauto).
  split; [by repeat split|].
  destruct (Hmissing "summary" Hsummary eq_refl) as (Hr & Hfr & cfg & _ & _).
  split; [exact Hr|]. split; [exact Hfr|].
  split; [exact (Hblank "summary" "   " Hsummary eq_refl eq_refl)|].
  split; [exact (Honce "risk_id" Hrisk)|].
  split; [exact (Honce "provider_id" Hprovider)|].
  vm_compute. reflexivity.
Defined.

(** ** C2 and C3: processing the pending claims *)

Lemma filter_nil_intro {A} (P : A → Prop) `{∀ x, Decision (P x)} (l : list A) :
  (∀ x, x ∈ l → ¬ P x) → filter P l = [].
Proof.
  induction l as [|a l IH]; intros Hall; [done|].
  rewrite filter_cons. destruct (decide (P a)) as [Ha|_].
  - exfalso. apply (Hall a); [apply list_elem_of_here | exact Ha].
  - apply IH. intros x Hx. apply Hall. by apply list_elem_of_further.
Qed.

Section ProcessPending.

Context {Remote : Type} (be : Backend Remote) (rt : Runtime).

(** [getClaims({ limit: 100 })] is one GET request whose answer is passed
    on unfiltered. *)
Lemma getClaims_limit (w : World Remote) :
  Api.getClaims be rt Spec.limit_100 w
  = (Api.responseInterceptor rt (list_claims be Spec.limit_100 (remote w)).1,
     {| remote := (list_claims be Spec.limit_100 (remote w)).2;
        sent := sent w ++ [GET_claims Spec.limit_100] |}).
Proof.
  unfold Api.getClaims, io_bind, Api.call.
  change (Api.forward Spec.limit_100 "limit" (Api.forward Spec.limit_100 "skip" ∅))
    with Spec.limit_100.
  destruct (list_claims be Spec.limit_100 (remote w)) as [answer remote'].
  cbn [fst snd]. by destruct (Api.responseInterceptor rt answer).
Qed.

Lemma processClaim_sent (id : JsVal) (w : World Remote) :
  sent (Api.processClaim be rt id w).2 = sent w ++ [PUT_claim id Spec.under_review].
Proof.
  unfold Api.processClaim, Api.updateClaimStatus, Api.call.
  by destruct (update_claim be _ _ _).
Qed.

Lemma processClaim_run (id : JsVal) (w : World Remote) :
  Api.processClaim be rt id w
  = (Api.responseInterceptor rt (update_claim be id Spec.under_review (remote w)).1,
     {| remote := (update_claim be id Spec.under_review (remote w)).2;
        sent := sent w ++ [PUT_claim id Spec.under_review] |}).
Proof.
  unfold Api.processClaim, Api.updateClaimStatus, Api.call.
  change ({[ "status" := JStr "Under Review"; "reason_code" := JNull;
             "reason_description" := JStr "Claim is being processed" ]} : Obj)
    with Spec.under_review.
  by destruct (update_claim be id Spec.under_review (remote w)).
Qed.

Lemma entry_of_entry_for (claim : Obj) (outcome : Res Obj) :
  Spec.entry_for claim (Spec.entry_of (claim, outcome)).
Proof.
  destruct outcome as [answer|message]; (split; [reflexivity|]; split; [reflexivity|]).
  - left. by repeat split.
  - right. by repeat split.
Qed.

Lemma update_all_claims (pending : list Obj) (r : Remote) :
  (Spec.update_all be rt pending r).1.*1 = pending.
Proof.
  revert r. induction pending as [|claim rest IH]; intros r; [done|].
  cbn [Spec.update_all].
  destruct (update_claim be (Spec.pending_id claim) Spec.under_review r) as [answer r1].
  specialize (IH r1). destruct (Spec.update_all be rt rest r1) as [outcomes r2].
  cbn [fst fmap list_fmap] in *. by rewrite IH.
Qed.

Lemma update_all_entries (pending : list Obj) (r : Remote) :
  Forall2 Spec.entry_for pending (Spec.entry_of <$> (Spec.update_all be rt pending r).1).
Proof.
  revert r. induction pending as [|claim rest IH]; intros r; [constructor|].
  cbn [Spec.update_all].
  destruct (update_claim be (Spec.pending_id claim) Spec.under_review r) as [answer r1].
  specialize (IH r1). destruct (Spec.update_all be rt rest r1) as [outcomes r2].
  cbn [fst fmap list_fmap] in *. constructor; [apply entry_of_entry_for | exact IH].
Qed.

(** The loop over the pending claims never throws: it sends one update per
    claim, in order, and pushes the entry of each outcome, in order. *)
Lemma process_loop_spec (pending : list Obj) (results : list Api.PendingEntry)
    (w : World Remote) :
  let run := Spec.update_all be rt pending (remote w) in
  Api.process_loop be rt pending results w
  = (Ret (results ++ (Spec.entry_of <$> run.1)),
     {| remote := run.2;
        sent := sent w ++ ((λ c, PUT_claim (Spec.pending_id c) Spec.under_review)
                           <$> pending) |}).
Proof.
  revert results w. induction pending as [|claim rest IH]; intros results w.
  - simpl. unfold io_ret. rewrite !app_nil_r. by destruct w.
  - cbn [Api.process_loop Spec.update_all]. fold (Spec.pending_id claim).
    rewrite processClaim_run.
    destruct (update_claim be (Spec.pending_id claim) Spec.under_review (remote w))
      as [answer r1].
    cbn [fst snd].
    destruct (Api.responseInterceptor rt answer) as [r|message];
      rewrite IH; cbn [remote sent];
      destruct (Spec.update_all be rt rest r1) as [outcomes r2];
      cbn [fst snd fmap list_fmap Spec.entry_of]; unfold push;
      rewrite <- !app_assoc; reflexivity.
Qed.

(** No dispatch of the batch actions touches the world. *)
Lemma progress_loop_world (rest : list Api.PendingEntry) (i n : nat)
    (s : AppContext.AppState * World Remote) :
  (AppContext.progress_loop be rest i n s).2 = s.2.
Proof. revert i s. induction rest as [|r rest IH]; intros i s; [done|]. simpl. by rewrite IH. Qed.

(** The batch record after the loop has gone through [rest]. *)
Lemma progress_loop_batch (rest : list Api.PendingEntry) (i n : nat)
    (s : AppContext.AppState * World Remote) :
  let b := AppContext.batchProcessing s.1 in
  AppContext.batchProcessing (AppContext.progress_loop be rest i n s).1
  = {| AppContext.inProgress := AppContext.inProgress b;
       AppContext.progress :=
         match rest with
         | [] => AppContext.progress b
         | _ :: _ => Spec.percent (i + length rest) n
         end;
       AppContext.results := AppContext.results b ++ rest;
       AppContext.errors := AppContext.errors b |}.
Proof.
  revert i s. induction rest as [|r rest IH]; intros i s b; subst b.
  - simpl. rewrite app_nil_r. by destruct (AppContext.batchProcessing s.1).
  - cbn [AppContext.progress_loop]. rewrite IH. clear IH.
    cbn [AppContext.dispatch AppContext.appReducer AppContext.with_batch fst snd
         AppContext.batchProcessing AppContext.inProgress AppContext.progress
         AppContext.results AppContext.errors].
    rewrite <- app_assoc. cbn [app length]. f_equal.
    destruct rest as [|r' rest].
    + reflexivity.
    + cbn [length]. f_equal. lia.
Qed.

Lemma progress_loop_app (l1 l2 : list Api.PendingEntry) (i n : nat)
    (s : AppContext.AppState * World Remote) :
  AppContext.progress_loop be (l1 ++ l2) i n s
  = AppContext.progress_loop be l2 (i + length l1) n
      (AppContext.progress_loop be l1 i n s).
Proof.
  revert i s. induction l1 as [|r l1 IH]; intros i s.
  - simpl. by rewrite Nat.add_0_r.
  - cbn [app AppContext.progress_loop length]. rewrite IH. f_equal. lia.
Qed.

Lemma batch_started_batch (s : AppContext.AppState * World Remote) :
  AppContext.batchProcessing (Spec.batch_started be s).1
  = {| AppContext.inProgress := true; AppContext.progress := num 0;
       AppContext.results := []; AppContext.errors := [] |}
  ∧ (Spec.batch_started be s).2 = s.2.
Proof. done. Qed.

(** The store action when the service call returns [entries]. *)
Lemma processPendingClaims_returns (state : AppContext.AppState) (w w2 : World Remote)
    (entries : list Api.PendingEntry) :
  Api.processPendingClaims be rt w = (Ret entries, w2) →
  AppContext.processPendingClaims be rt (state, w)
  = (Ret entries,
     ((AppContext.dispatch be (AppContext.SET_LOADING false)
         (AppContext.dispatch be AppContext.FINISH_BATCH_PROCESSING
            (AppContext.progress_loop be entries 0 (length entries)
               ((Spec.batch_started be (state, w)).1, w2)))).1, w2)).
Proof.
  intros Hcall. unfold AppContext.processPendingClaims.
  change (AppContext.dispatch be AppContext.CLEAR_ERROR
            (AppContext.dispatch be (AppContext.SET_LOADING true)
               (AppContext.dispatch be AppContext.START_BATCH_PROCESSING (state, w))))
    with (Spec.batch_started be (state, w)).
  rewrite (proj2 (batch_started_batch (state, w))). cbn [snd]. rewrite Hcall.
  unfold AppContext.dispatch at 1 2. cbn [fst snd].
  by rewrite progress_loop_world.
Qed.

(** C3, as amended.  When the fetched claims hold none whose status is
    Submitted or Pending, the service call returns the empty array after
    its one GET request, without any update request; the store action
    returns the empty array as well, but it starts and finishes a batch
    around the call: afterwards [inProgress] is false, [progress] is 100
    and [results] and [errors] are empty, whatever they were before; the
    loading flag is off, the error is cleared and the rest of the store is
    as before. *)
Theorem C3_no_pending_claims (state : AppContext.AppState) (w w1 : World Remote)
    (claims : list Obj) :
  Api.getClaims be rt Spec.limit_100 w = (Ret claims, w1) →
  (∀ c, c ∈ claims → Api.is_pending c = false) →
  Api.processPendingClaims be rt w = (Ret [], w1)
  ∧ sent w1 = sent w ++ [GET_claims Spec.limit_100]
  ∧ ∃ state',
      AppContext.processPendingClaims be rt (state, w) = (Ret [], (state', w1))
      ∧ AppContext.batchProcessing state'
        = {| AppContext.inProgress := false; AppContext.progress := num 100;
             AppContext.results := []; AppContext.errors := [] |}
      ∧ AppContext.loading state' = false
      ∧ AppContext.error state' = None
      ∧ AppContext.claims state' = AppContext.claims state
      ∧ AppContext.currentClaim state' = AppContext.currentClaim state
      ∧ AppContext.recentClaims state' = AppContext.recentClaims state
      ∧ AppContext.stats state' = AppContext.stats state
      ∧ AppContext.settings state' = AppContext.settings state.
Proof.
  intros Hget Hall.
  assert (Hnone : filter (λ c, Api.is_pending c = true) claims = []).
  { apply filter_nil_intro. intros c Hc. rewrite (Hall c Hc). discriminate. }
  assert (Hcall : Api.processPendingClaims be rt w = (Ret [], w1)).
  { unfold Api.processPendingClaims, io_bind.
    change ({[ "limit" := JNum (num 100) ]} : Obj) with Spec.limit_100.
    rewrite Hget, Hnone. reflexivity. }
  split; [exact Hcall|]. split.
  - rewrite getClaims_limit in Hget. injection Hget as _ <-. reflexivity.
  - eexists. rewrite (processPendingClaims_returns _ _ _ _ Hcall).
    split; [reflexivity|]. repeat split.
Qed.

(** C2, as amended.  When some fetched claim is Submitted or Pending, the
    service call processes the qualifying claims one after the other, in
    order, sending one update per claim, and returns one entry per claim in
    a single array: [{claim_id, success: true, result, originalStatus}]
    with the answer as result when the update succeeded and [{claim_id,
    success: false, error, originalStatus}] with the message of the error
    when it failed.  The store action then adds every
    entry, failed or not, to the batch results and leaves the batch errors
    empty; after the k-th entry the progress is k / total * 100, and the
    finished batch holds all entries with progress 100. *)
Theorem C2_process_pending_entries (state : AppContext.AppState)
    (w w1 : World Remote) (claims : list Obj) :
  Api.getClaims be rt Spec.limit_100 w = (Ret claims, w1) →
  (∃ c, c ∈ claims ∧ Api.is_pending c = true) →
  let pending := filter (λ c, Api.is_pending c = true) claims in
  ∃ (entries : list Api.PendingEntry) (w2 : World Remote)
    (state' : AppContext.AppState),
    Api.processPendingClaims be rt w = (Ret entries, w2)
    ∧ Forall2 Spec.entry_for pending entries
    ∧ entries = Spec.entry_of <$> (Spec.update_all be rt pending (remote w1)).1
    ∧ (Spec.update_all be rt pending (remote w1)).1.*1 = pending
    ∧ remote w2 = (Spec.update_all be rt pending (remote w1)).2
    ∧ sent w2
      = sent w1 ++ ((λ c, PUT_claim (Spec.pending_id c) Spec.under_review) <$> pending)
    ∧ AppContext.processPendingClaims be rt (state, w) = (Ret entries, (state', w2))
    ∧ AppContext.batchProcessing state'
      = {| AppContext.inProgress := false; AppContext.progress := num 100;
           AppContext.results := entries; AppContext.errors := [] |}
    ∧ (∀ k, 1 ≤ k ≤ length entries →
         let start := ((Spec.batch_started be (state, w)).1, w2) in
         let sk :=
           AppContext.progress_loop be (take k entries) 0 (length entries) start in
         AppContext.batchProcessing sk.1
         = {| AppContext.inProgress := true;
              AppContext.progress := Spec.percent k (length entries);
              AppContext.results := take k entries;
              AppContext.errors := [] |}
         ∧ AppContext.progress_loop be entries 0 (length entries) start
           = AppContext.progress_loop be (drop k entries) k (length entries) sk).
Proof.
  intros Hget (c0 & Hc0 & Hp0) pending.
  assert (Hsome : c0 ∈ pending) by (apply list_elem_of_filter; done).
  pose proof (process_loop_spec pending [] w1) as Hloop. cbn zeta in Hloop.
  cbn [app] in Hloop.
  set (entries := Spec.entry_of <$> (Spec.update_all be rt pending (remote w1)).1) in *.
  set (w2 := {| remote := (Spec.update_all be rt pending (remote w1)).2;
                sent := sent w1 ++ ((λ c, PUT_claim (Spec.pending_id c) Spec.under_review)
                                    <$> pending) |}) in *.
  assert (Hcall : Api.processPendingClaims be rt w = (Ret entries, w2)).
  { unfold Api.processPendingClaims, io_bind.
    change ({[ "limit" := JNum (num 100) ]} : Obj) with Spec.limit_100.
    rewrite Hget. fold pending.
    destruct pending as [|c pending'] eqn:Hp; [by apply elem_of_nil in Hsome|].
    exact Hloop. }
  exists entries, w2. eexists.
  split; [exact Hcall|]. split; [apply update_all_entries|].
  split; [reflexivity|]. split; [apply update_all_claims|].
  split; [reflexivity|]. split; [reflexivity|].
  rewrite (processPendingClaims_returns _ _ _ _ Hcall).
  split; [reflexivity|]. split.
  - cbn [AppContext.dispatch AppContext.appReducer AppContext.with_batch fst snd
         AppContext.batchProcessing AppContext.inProgress AppContext.progress
         AppContext.results AppContext.errors].
    rewrite progress_loop_batch. reflexivity.
  - intros k Hk start sk. subst sk start. split.
    + rewrite progress_loop_batch. cbn [fst].
      rewrite (proj1 (batch_started_batch (state, w))).
      cbn [AppContext.inProgress AppContext.progress AppContext.results
           AppContext.errors app].
      assert (Hlen : length (take k entries) = k) by (rewrite length_take; lia).
      destruct (take k entries) as [|e es] eqn:Htake; [simpl in Hlen; lia|].
      rewrite Hlen. reflexivity.
    + rewrite <- (take_drop k entries) at 1. rewrite progress_loop_app.
      rewrite length_take. do 2 f_equal. lia.
Qed.

End ProcessPending.

(** C2, counterexample.  The service lists the pending claim-1, whose
    update fails, and the submitted claim-3, whose update succeeds.  The
    failed entry is not put in a list of errors: it sits in the results
    next to the successful one, and the batch errors stay empty. *)
Lemma C2_failure_is_added_to_results :
  let run := AppContext.processPendingClaims Fixtures.be_mixed_updates Fixtures.rt
               (AppContext.initialState, Fixtures.fresh_world) in
  (Api.processPendingClaims Fixtures.be_mixed_updates Fixtures.rt Fixtures.fresh_world).1
  = Ret [Fixtures.failed_entry; Fixtures.succeeded_entry]
  ∧ AppContext.results (AppContext.batchProcessing run.2.1)
    = [Fixtures.failed_entry; Fixtures.succeeded_entry]
  ∧ AppContext.errors (AppContext.batchProcessing run.2.1) = [].
Proof. repeat split; vm_compute; reflexivity. Qed.

(** The amended C2 statement at that service: the entry of claim-1 is the
    failure with the message of its update, the entry of claim-3 the
    success with the answer to its update. *)
Lemma C2_process_pending_entries_witness :
  (∃ c, c ∈ Fixtures.listed_claims ∧ Api.is_pending c = true)
  ∧ ∃ entries w2 state',
      AppContext.processPendingClaims Fixtures.be_mixed_updates Fixtures.rt
        (AppContext.initialState, Fixtures.fresh_world)
      = (Ret entries, (state', w2))
      ∧ entries = [Fixtures.failed_entry; Fixtures.succeeded_entry]
      ∧ AppContext.results (AppContext.batchProcessing state') = entries
      ∧ AppContext.errors (AppContext.batchProcessing state') = [].
Proof.
  assert (Hsome : ∃ c, c ∈ Fixtures.listed_claims ∧ Api.is_pending c = true).
  { eexists. split; [apply list_elem_of_here | reflexivity]. }
  split; [exact Hsome|].
  destruct (C2_process_pending_entries Fixtures.be_mixed_updates Fixtures.rt
              AppContext.initialState Fixtures.fresh_world _ Fixtures.listed_claims
              eq_refl Hsome)
    as (entries & w2 & state' & _ & _ & Hentries & _ & _ & _ & Hrun & Hbatch & _).
  exists entries, w2, state'. split; [exact Hrun|].
  split; [rewrite Hentries; vm_compute; reflexivity|].
  rewrite Hbatch. split; reflexivity.
Defined.

(** C3, counterexample.  The service holds no claim to process and the
    store is in its initial state, with progress 0.  After the call the progress is 100:
    the batch record is not left as it was. *)
Lemma C3_batch_state_changes :
  let run := AppContext.processPendingClaims Fixtures.be_settled Fixtures.rt
               (AppContext.initialState, Fixtures.fresh_world) in
  run.1 = Ret []
  ∧ AppContext.progress (AppContext.batchProcessing AppContext.initialState) = num 0
  ∧ AppContext.progress (AppContext.batchProcessing run.2.1) = num 100
  ∧ AppContext.batchProcessing run.2.1
    ≠ AppContext.batchProcessing AppContext.initialState.
Proof. repeat split; try (vm_compute; reflexivity). vm_compute. discriminate. Qed.

(** The amended C3 statement at that service. *)
Lemma C3_no_pending_claims_witness :
  (∀ c : Obj, c ∈ Fixtures.settled_claims → Api.is_pending c = false)
  ∧ ∃ state',
      AppContext.processPendingClaims Fixtures.be_settled Fixtures.rt
        (AppContext.initialState, Fixtures.fresh_world)
      = (Ret [], (state', {| remote := 1; sent := [GET_claims Spec.limit_100] |}))
      ∧ AppContext.batchProcessing state'
        = {| AppContext.inProgress := false; AppContext.progress := num 100;
             AppContext.results := []; AppContext.errors := [] |}.
Proof.
  assert (Hnone : ∀ c : Obj, c ∈ Fixtures.settled_claims → Api.is_pending c = false).
  { intros c Hc. unfold Fixtures.settled_claims in Hc.
    repeat (apply elem_of_cons in Hc as [->|Hc]; [reflexivity|]).
    by apply elem_of_nil in Hc. }
  split; [exact Hnone|].
  destruct (C3_no_pending_claims Fixtures.be_settled Fixtures.rt AppContext.initialState
              Fixtures.fresh_world _ Fixtures.settled_claims eq_refl Hnone)
    as (_ & _ & state' & Hrun & Hbatch & _).
  exists state'. split; [exact Hrun | exact Hbatch].
Defined.

(** ** C6 and C7: submitting a batch *)

Section SubmitBatch.

Context {Remote : Type} (be : Backend Remote) (rt : Runtime).

(** The lines collected by the validation pass: those already collected,
    then one line per failing claim. *)
Lemma validate_all_elem (rest : list Obj) (index : nat) (acc : list string)
    (line : string) :
  line ∈ UseClaims.validate_all rt rest index acc
  ↔ line ∈ acc
    ∨ ∃ i claim, rest !! i = Some claim
                 ∧ ClaimUtils.isValid (ClaimUtils.validateClaim rt claim) = false
                 ∧ line = UseClaims.validation_line rt (index + i) claim.
Proof.
  revert index acc. induction rest as [|c rest IH]; intros index acc.
  - simpl. split; [by left|]. intros [H|(i & claim & H & _)]; [done|].
    by rewrite lookup_nil in H.
  - cbn [UseClaims.validate_all]. rewrite IH. clear IH. split.
    + intros [Hacc|(i & claim & Hi & Hbad & ->)].
      * destruct (ClaimUtils.isValid (ClaimUtils.validateClaim rt c)) eqn:Hc;
          cbn [negb] in Hacc; [by left|].
        unfold push in Hacc. apply elem_of_app in Hacc as [Hacc|Hnew]; [by left|].
        apply list_elem_of_singleton in Hnew as ->. right. exists 0, c.
        by rewrite Nat.add_0_r.
      * right. exists (S i), claim. split; [done|]. split; [done|].
        f_equal. lia.
    + intros [Hacc|(i & claim & Hi & Hbad & ->)].
      * left. destruct (negb _); [|done]. unfold push. apply elem_of_app. by left.
      * destruct i as [|i]; cbn in Hi.
        -- injection Hi as ->. left. rewrite Hbad. cbn [negb]. unfold push.
           apply elem_of_app. right. rewrite Nat.add_0_r. apply list_elem_of_here.
        -- right. exists i, claim. split; [done|]. split; [done|]. f_equal. lia.
Qed.

(** A claim that passes validation is posted: [submitClaim] finds no
    missing field and makes its one request. *)
Lemma submitClaim_valid (claim : Obj) (w : World Remote) :
  ClaimUtils.isValid (ClaimUtils.validateClaim rt claim) = true →
  let body := spread (Api.claim_defaults (clock be (remote w))) claim in
  Api.submitClaim be rt claim w
  = (Api.responseInterceptor rt (create_claim be body (remote w)).1,
     {| remote := (create_claim be body (remote w)).2;
        sent := sent w ++ [POST_claims body] |}).
Proof.
  intros Hvalid body.
  assert (Hnone : filter (λ field, negb (truthy (get claim field)) = true)
                    Api.requiredFields = []).
  { apply filter_nil_intro. intros f Hf.
    pose proof (valid_claim_required rt claim f Hvalid Hf) as Hreq.
    unfold ClaimUtils.blank_or_missing in Hreq.
    apply orb_false_iff in Hreq as [Hreq _]. rewrite Hreq. discriminate. }
  unfold Api.submitClaim. rewrite Hnone. cbn [length Nat.ltb Nat.leb].
  unfold io_bind, Api.now, Api.call. fold body.
  by destruct (create_claim be body (remote w)).
Qed.

(** The loop of [submitBatchClaims] over valid claims: every claim is
    posted, in order, whatever the outcome of the claims before it, and the
    two arrays receive the successes and the failures. *)
Lemma submit_loop_spec (rest : list Obj) (i : nat) (results errors : list Api.BatchItem)
    (w : World Remote) :
  Forall (λ c, ClaimUtils.isValid (ClaimUtils.validateClaim rt c) = true) rest →
  Api.submit_loop be rt rest i results errors w
  = (Ret (results ++ Spec.successes i (Spec.post_all be rt rest (remote w)).1,
          errors ++ Spec.failures i rest (Spec.post_all be rt rest (remote w)).1),
     {| remote := (Spec.post_all be rt rest (remote w)).2;
        sent := sent w ++ ((λ o, POST_claims o.1)
                           <$> (Spec.post_all be rt rest (remote w)).1) |}).
Proof.
  intros Hvalid. revert i results errors w.
  induction Hvalid as [|c rest Hc _ IH]; intros i results errors w.
  - simpl. unfold io_ret. rewrite !app_nil_r. by destruct w.
  - cbn [Api.submit_loop Spec.post_all]. rewrite (submitClaim_valid c w Hc).
    destruct (create_claim be _ (remote w)) as [answer r1]. cbn [fst snd].
    destruct (Spec.post_all be rt rest r1) as [outcomes r2] eqn:Hpost.
    cbn [fst snd Spec.successes Spec.failures fmap list_fmap].
    destruct (Api.responseInterceptor rt answer) as [r|message];
      rewrite IH; cbn [remote sent]; rewrite Hpost; cbn [fst snd];
      unfold push; rewrite <- !app_assoc; reflexivity.
Qed.

Lemma post_all_length (claims : list Obj) (r : Remote) :
  length (Spec.post_all be rt claims r).1 = length claims.
Proof.
  revert r. induction claims as [|c claims IH]; intros r; [done|].
  cbn [Spec.post_all]. destruct (create_claim be _ r) as [answer r1].
  specialize (IH r1). destruct (Spec.post_all be rt claims r1). simpl in *. by rewrite IH.
Qed.

Lemma successes_failures_length (i : nat) (claims : list Obj)
    (outcomes : list (Obj * Res Obj)) :
  length outcomes = length claims →
  length (Spec.successes i outcomes) + length (Spec.failures i claims outcomes)
  = length claims.
Proof.
  revert i claims. induction outcomes as [|[body [r|m]] outcomes IH];
    intros i [|c claims] Hlen; try discriminate Hlen; [done| |];
    cbn [Spec.successes Spec.failures length]; injection Hlen as Hlen;
    specialize (IH (S i) claims Hlen); lia.
Qed.

(** The entries carry the position of their claim. *)
Lemma successes_index (i : nat) (outcomes : list (Obj * Res Obj)) (item : Api.BatchItem) :
  item ∈ Spec.successes i outcomes →
  ∃ body, outcomes !! (Api.index item - i) = Some (body, Ret (Api.data item))
          ∧ i ≤ Api.index item ∧ Api.item_success item = true
          ∧ Api.item_error item = None.
Proof.
  revert i. induction outcomes as [|[body [r|m]] outcomes IH]; intros i Hin.
  - by apply elem_of_nil in Hin.
  - cbn [Spec.successes] in Hin. apply elem_of_cons in Hin as [->|Hin].
    + exists body. cbn. rewrite Nat.sub_diag. by repeat split.
    + destruct (IH _ Hin) as (b & Hl & Hle & Hs & He). exists b.
      replace (Api.index item - i) with (S (Api.index item - S i)) by lia.
      repeat split; [done | lia | done | done].
  - cbn [Spec.successes] in Hin.
    destruct (IH _ Hin) as (b & Hl & Hle & Hs & He). exists b.
    replace (Api.index item - i) with (S (Api.index item - S i)) by lia.
    repeat split; [done | lia | done | done].
Qed.

Lemma failures_index (i : nat) (claims : list Obj) (outcomes : list (Obj * Res Obj))
    (item : Api.BatchItem) :
  item ∈ Spec.failures i claims outcomes →
  ∃ body message,
    outcomes !! (Api.index item - i) = Some (body, Throw message)
    ∧ claims !! (Api.index item - i) = Some (Api.data item)
    ∧ i ≤ Api.index item ∧ Api.item_success item = false
    ∧ Api.item_error item = Some message.
Proof.
  revert i claims. induction outcomes as [|[body [r|m]] outcomes IH];
    intros i [|c claims] Hin; try (by apply elem_of_nil in Hin).
  - cbn [Spec.failures] in Hin.
    destruct (IH _ _ Hin) as (b & m & Hl & Hc & Hle & Hs & He). exists b, m.
    replace (Api.index item - i) with (S (Api.index item - S i)) by lia.
    repeat split; [done | done | lia | done | done].
  - cbn [Spec.failures] in Hin. apply elem_of_cons in Hin as [->|Hin].
    + exists body, m. cbn. rewrite Nat.sub_diag. by repeat split.
    + destruct (IH _ _ Hin) as (b & m' & Hl & Hc & Hle & Hs & He). exists b, m'.
      replace (Api.index item - i) with (S (Api.index item - S i)) by lia.
      repeat split; [done | done | lia | done | done].
Qed.

Lemma successes_count (i : nat) (outcomes : list (Obj * Res Obj)) :
  length (Spec.successes i outcomes)
  = length (filter (λ o, Spec.succeeded o = true) outcomes).
Proof.
  revert i. induction outcomes as [|[body [r|m]] outcomes IH]; intros i; [done| |].
  - cbn [Spec.successes length]. rewrite filter_cons_True by done.
    cbn [length]. by rewrite IH.
  - cbn [Spec.successes]. rewrite filter_cons_False by done. apply IH.
Qed.

Lemma failures_count (i : nat) (claims : list Obj) (outcomes : list (Obj * Res Obj)) :
  length outcomes = length claims →
  length (Spec.failures i claims outcomes)
  = length (filter (λ o, Spec.succeeded o = false) outcomes).
Proof.
  revert i claims. induction outcomes as [|[body [r|m]] outcomes IH];
    intros i [|c claims] Hlen; try discriminate Hlen; [done| |];
    injection Hlen as Hlen; cbn [Spec.failures].
  - rewrite filter_cons_False by done. by apply IH.
  - rewrite filter_cons_True by done. cbn [length]. by rewrite IH.
Qed.

(** C6.  If some item of the batch fails validation, the hook throws an
    error whose message is the heading Validation failed: followed by one
    line per failing item, and only for failing items, each line naming the
    item by its position and listing all its validation errors; the world
    is returned untouched (no request is sent for any item and the remote
    state is the same) and the local claims list is unchanged; the hook
    records the message and ends with the loading flag off. *)
Theorem C6_invalid_item_aborts_batch (claimsArray : list Obj) (h : UseClaims.HookState)
    (w : World Remote) :
  (∃ claim, claim ∈ claimsArray
            ∧ ClaimUtils.isValid (ClaimUtils.validateClaim rt claim) = false) →
  ∃ lines : list string,
    let message :=
      "Validation failed:" +:+ UseClaims.newline +:+ join UseClaims.newline lines in
    UseClaims.submitBatchClaims be rt claimsArray h w
    = (Throw message,
       {| UseClaims.claims := UseClaims.claims h; UseClaims.loading := false;
          UseClaims.error := Some message |},
       w)
    ∧ (∀ line,
          line ∈ lines
          ↔ ∃ i claim,
              claimsArray !! i = Some claim
              ∧ ClaimUtils.isValid (ClaimUtils.validateClaim rt claim) = false
              ∧ line = "Claim " +:+ string_of_nat (i + 1) +:+ ": "
                       +:+ join ", " (ClaimUtils.errors
                                        (ClaimUtils.validateClaim rt claim))).
Proof.
  intros (claim & Hin & Hbad).
  exists (UseClaims.validate_all rt claimsArray 0 []). intros message.
  assert (Hlines : ∀ line,
             line ∈ UseClaims.validate_all rt claimsArray 0 []
             ↔ ∃ i c, claimsArray !! i = Some c
                      ∧ ClaimUtils.isValid (ClaimUtils.validateClaim rt c) = false
                      ∧ line = UseClaims.validation_line rt i c).
  { intros line. rewrite validate_all_elem. split.
    - intros [Hnil|H]; [by apply elem_of_nil in Hnil | exact H].
    - intros H. by right. }
  split; [|exact Hlines].
  apply list_elem_of_lookup in Hin as [i Hi].
  assert (Hne : (0 <? length (UseClaims.validate_all rt claimsArray 0 [])) = true).
  { apply Nat.ltb_lt.
    destruct (UseClaims.validate_all rt claimsArray 0 []) as [|l ls] eqn:Hl;
      [|simpl; lia].
    exfalso. apply (elem_of_nil (UseClaims.validation_line rt i claim)).
    apply Hlines. eauto. }
  unfold UseClaims.submitBatchClaims, UseClaims.submitBatchClaims_try.
  rewrite Hne. reflexivity.
Qed.

(** C7, as amended.  For every non-empty batch whose items all pass
    validation, the items are posted one after the other, in order, each of
    them whatever the outcome of the items before it; the hook returns a
    summary with total = length of the batch, successful = number of items
    whose request succeeded = length of [results], failed = number of items
    whose request failed = length of [errors]; each entry of [results]
    carries the position of a succeeded item and the answer to it, each
    entry of [errors] the position of a failed item, that item and the
    error message; the local claims list is unchanged.  A batch of three
    where the second request fails reports successful 2 and failed 1, with
    results at positions 0 and 2 and the error at position 1. *)
Theorem C7_batch_isolation (claimsArray : list Obj) (h : UseClaims.HookState)
    (w : World Remote) :
  claimsArray ≠ [] →
  Forall (λ c, ClaimUtils.isValid (ClaimUtils.validateClaim rt c) = true) claimsArray →
  let outcomes := (Spec.post_all be rt claimsArray (remote w)).1 in
  ∃ summary : Api.BatchSummary,
    UseClaims.submitBatchClaims be rt claimsArray h w
    = (Ret summary,
       {| UseClaims.claims := UseClaims.claims h; UseClaims.loading := false;
          UseClaims.error := None |},
       {| remote := (Spec.post_all be rt claimsArray (remote w)).2;
          sent := sent w ++ ((λ o, POST_claims o.1) <$> outcomes) |})
    ∧ length outcomes = length claimsArray
    ∧ Api.total summary = length claimsArray
    ∧ Api.successful summary = length (Api.results summary)
    ∧ Api.successful summary = length (filter (λ o, Spec.succeeded o = true) outcomes)
    ∧ Api.failed summary = length (Api.errors summary)
    ∧ Api.failed summary = length (filter (λ o, Spec.succeeded o = false) outcomes)
    ∧ Api.successful summary + Api.failed summary = Api.total summary
    ∧ (∀ item, item ∈ Api.results summary →
         ∃ body, outcomes !! Api.index item = Some (body, Ret (Api.data item))
                 ∧ Api.item_success item = true)
    ∧ (∀ item, item ∈ Api.errors summary →
         ∃ body message,
           outcomes !! Api.index item = Some (body, Throw message)
           ∧ claimsArray !! Api.index item = Some (Api.data item)
           ∧ Api.item_success item = false
           ∧ Api.item_error item = Some message)
    ∧ Spec.summary_shape
        (UseClaims.submitBatchClaims Fixtures.be_second_fails Fixtures.rt
           Fixtures.three_claims Fixtures.idle_hook Fixtures.fresh_world).1.1
      = Some (3, 2, 1, [0; 2], [1]).
Proof.
  intros Hne Hvalid outcomes.
  pose proof (post_all_length claimsArray (remote w)) as Hlen. fold outcomes in Hlen.
  exists {| Api.total := length claimsArray;
            Api.successful := length (Spec.successes 0 outcomes);
            Api.failed := length (Spec.failures 0 claimsArray outcomes);
            Api.results := Spec.successes 0 outcomes;
            Api.errors := Spec.failures 0 claimsArray outcomes |}.
  cbn [Api.total Api.successful Api.failed Api.results Api.errors].
  split.
  { unfold UseClaims.submitBatchClaims, UseClaims.submitBatchClaims_try.
    assert (Hnil : UseClaims.validate_all rt claimsArray 0 [] = []).
    { destruct (UseClaims.validate_all rt claimsArray 0 []) as [|l ls] eqn:Hl; [done|].
      assert (Hin : l ∈ UseClaims.validate_all rt claimsArray 0 [])
        by (rewrite Hl; apply list_elem_of_here).
      apply validate_all_elem in Hin as [Hin|(i & c & Hi & Hbad & _)];
        [by apply elem_of_nil in Hin|].
      rewrite Forall_forall in Hvalid.
      apply list_elem_of_lookup_2 in Hi. rewrite (Hvalid c Hi) in Hbad. discriminate. }
    rewrite Hnil. cbn [length Nat.ltb Nat.leb].
    unfold io_bind, Api.submitBatchClaims.
    replace (length claimsArray =? 0) with false
      by (symmetry; apply Nat.eqb_neq; by destruct claimsArray).
    unfold io_bind. rewrite (submit_loop_spec claimsArray 0 [] [] w Hvalid).
    reflexivity. }
  split; [exact Hlen|]. split; [reflexivity|]. split; [reflexivity|].
  split; [apply successes_count|]. split; [reflexivity|].
  split; [by apply failures_count|].
  split; [by apply successes_failures_length|].
  split; [|split].
  - intros item Hin. destruct (successes_index 0 outcomes item Hin)
      as (body & Hl & _ & Hs & _).
    rewrite Nat.sub_0_r in Hl. eauto.
  - intros item Hin. destruct (failures_index 0 claimsArray outcomes item Hin)
      as (body & m & Hl & Hc & _ & Hs & He).
    rewrite Nat.sub_0_r in Hl, Hc. eauto 6.
  - vm_compute. reflexivity.
Qed.

End SubmitBatch.

(** C6 at a batch of three whose second and third items fail validation:
    no request is sent and both items are listed. *)
Lemma C6_invalid_item_aborts_batch_witness :
  (∃ claim, claim ∈ Fixtures.mixed_claims
            ∧ ClaimUtils.isValid (ClaimUtils.validateClaim Fixtures.rt claim) = false)
  ∧ ∃ message,
      UseClaims.submitBatchClaims Fixtures.be_second_fails Fixtures.rt
        Fixtures.mixed_claims Fixtures.idle_hook Fixtures.fresh_world
      = (Throw message,
         {| UseClaims.claims := []; UseClaims.loading := false;
            UseClaims.error := Some message |},
         Fixtures.fresh_world).
Proof.
  assert (Hbad : ∃ claim, claim ∈ Fixtures.mixed_claims
                   ∧ ClaimUtils.isValid (ClaimUtils.validateClaim Fixtures.rt claim)
                     = false).
  { exists ∅. split; [apply list_elem_of_further, list_elem_of_here | reflexivity]. }
  split; [exact Hbad|].
  destruct (C6_invalid_item_aborts_batch Fixtures.be_second_fails Fixtures.rt
              Fixtures.mixed_claims Fixtures.idle_hook Fixtures.fresh_world Hbad)
    as (lines & Hrun & _).
  eexists. exact Hrun.
Defined.

(** C7, counterexample.  Every item of the empty batch passes validation,
    yet no summary is returned: the call throws. *)
Lemma C7_empty_batch_throws :
  Forall (λ c, ClaimUtils.isValid (ClaimUtils.validateClaim Fixtures.rt c) = true) []
  ∧ UseClaims.submitBatchClaims Fixtures.be_second_fails Fixtures.rt []
      Fixtures.idle_hook Fixtures.fresh_world
    = (Throw "Claims array is required and cannot be empty",
       {| UseClaims.claims := []; UseClaims.loading := false;
          UseClaims.error := Some "Claims array is required and cannot be empty" |},
       Fixtures.fresh_world).
Proof. split; [constructor | reflexivity]. Qed.

(** The amended C7 statement at the batch of three whose second request
    fails: the third item is still posted. *)
Lemma C7_batch_isolation_witness :
  Fixtures.three_claims ≠ []
  ∧ Forall (λ c, ClaimUtils.isValid (ClaimUtils.validateClaim Fixtures.rt c) = true)
      Fixtures.three_claims
  ∧ ∃ summary w',
      UseClaims.submitBatchClaims Fixtures.be_second_fails Fixtures.rt
        Fixtures.three_claims Fixtures.idle_hook Fixtures.fresh_world
      = (Ret summary, Fixtures.idle_hook, w')
      ∧ length (sent w') = 3
      ∧ Api.total summary = 3
      ∧ Api.successful summary + Api.failed summary = 3.
Proof.
  assert (Hne : Fixtures.three_claims ≠ []) by discriminate.
  assert (Hvalid : Forall (λ c, ClaimUtils.isValid
                                  (ClaimUtils.validateClaim Fixtures.rt c) = true)
                     Fixtures.three_claims)
    by (repeat constructor).
  split; [exact Hne|]. split; [exact Hvalid|].
  destruct (C7_batch_isolation Fixtures.be_second_fails Fixtures.rt
              Fixtures.three_claims Fixtures.idle_hook Fixtures.fresh_world Hne Hvalid)
    as (summary & Hrun & Hlen & Htotal & _ & _ & _ & _ & Hsum & _).
  eexists summary, _. split; [exact Hrun|]. split.
  - cbn [sent Fixtures.fresh_world app]. rewrite length_fmap, Hlen. reflexivity.
  - split; [exact Htotal | by rewrite Hsum, Htotal].
Defined.

(** * Further properties *)


Lemma eat_spec (p : ascii → bool) (n : nat) (s r : string) :
  ClaimUtils.eat p n s = Some r →
  String.length s = n + String.length r
  ∧ ∀ i c, String.get i s = Some c →
           if i <? n then p c = true else String.get (i - n) r = Some c.
Proof.
  revert s. induction n as [|n IH]; intros s H.
  - injection H as ->. split; [done|]. intros i c Hi. by rewrite Nat.sub_0_r.
  - destruct s as [|a s]; [discriminate H|]. cbn [ClaimUtils.eat] in H.
    destruct (p a) eqn:Hp; [|discriminate H].
    destruct (IH s H) as [Hlen Hget]. split; [cbn; lia|].
    intros [|i] c Hi; cbn in Hi.
    + by injection Hi as <-.
    + apply Hget in Hi. exact Hi.
Qed.


(** ** Further properties: validation *)

Lemma uuid_match_chain (s : string) :
  ClaimUtils.uuid_match s = true →
  ∃ s1 s2 s3 s4 s5 s6 s7 s8 s9 s10,
    ClaimUtils.eat ClaimUtils.is_hex 8 s = Some s1
    ∧ ClaimUtils.eat ClaimUtils.is_dash 1 s1 = Some s2
    ∧ ClaimUtils.eat ClaimUtils.is_hex 4 s2 = Some s3
    ∧ ClaimUtils.eat ClaimUtils.is_dash 1 s3 = Some s4
    ∧ ClaimUtils.eat ClaimUtils.is_version 1 s4 = Some s5
    ∧ ClaimUtils.eat ClaimUtils.is_hex 3 s5 = Some s6
    ∧ ClaimUtils.eat ClaimUtils.is_dash 1 s6 = Some s7
    ∧ ClaimUtils.eat ClaimUtils.is_variant 1 s7 = Some s8
    ∧ ClaimUtils.eat ClaimUtils.is_hex 3 s8 = Some s9
    ∧ ClaimUtils.eat ClaimUtils.is_dash 1 s9 = Some s10
    ∧ ClaimUtils.eat ClaimUtils.is_hex 12 s10 = Some EmptyString.
Proof.
  unfold ClaimUtils.uuid_match. intros H.
  destruct (ClaimUtils.eat ClaimUtils.is_hex 8 s) as [s1|] eqn:H1; [|discriminate H].
  cbn [mbind option_bind] in H.
  destruct (ClaimUtils.eat ClaimUtils.is_dash 1 s1) as [s2|] eqn:H2; [|discriminate H].
  cbn [mbind option_bind] in H.
  destruct (ClaimUtils.eat ClaimUtils.is_hex 4 s2) as [s3|] eqn:H3; [|discriminate H].
  cbn [mbind option_bind] in H.
  destruct (ClaimUtils.eat ClaimUtils.is_dash 1 s3) as [s4|] eqn:H4; [|discriminate H].
  cbn [mbind option_bind] in H.
  destruct (ClaimUtils.eat ClaimUtils.is_version 1 s4) as [s5|] eqn:H5; [|discriminate H].
  cbn [mbind option_bind] in H.
  destruct (ClaimUtils.eat ClaimUtils.is_hex 3 s5) as [s6|] eqn:H6; [|discriminate H].
  cbn [mbind option_bind] in H.
  destruct (ClaimUtils.eat ClaimUtils.is_dash 1 s6) as [s7|] eqn:H7; [|discriminate H].
  cbn [mbind option_bind] in H.
  destruct (ClaimUtils.eat ClaimUtils.is_variant 1 s7) as [s8|] eqn:H8; [|discriminate H].
  cbn [mbind option_bind] in H.
  destruct (ClaimUtils.eat ClaimUtils.is_hex 3 s8) as [s9|] eqn:H9; [|discriminate H].
  cbn [mbind option_bind] in H.
  destruct (ClaimUtils.eat ClaimUtils.is_dash 1 s9) as [s10|] eqn:H10; [|discriminate H].
  cbn [mbind option_bind] in H.
  destruct (ClaimUtils.eat ClaimUtils.is_hex 12 s10) as [[|a r]|] eqn:H11;
    [|discriminate H|discriminate H].
  by exists s1, s2, s3, s4, s5, s6, s7, s8, s9, s10.
Qed.

(** A string accepted by the identifier pattern has exactly 36
    characters, and each of them belongs to the class of its position:
    dashes at positions 8, 13, 18 and 23, a digit 1-5 at position 14, one of
    8, 9, a, b (either case) at position 19, hexadecimal digits (either
    case) elsewhere. *)
Theorem uuid_match_shape (s : string) :
  ClaimUtils.uuid_match s = true →
  String.length s = 36
  ∧ ∀ i c, String.get i s = Some c → More.uuid_class i c = true.
Proof.
  intros H.
  destruct (uuid_match_chain s H)
    as (s1 & s2 & s3 & s4 & s5 & s6 & s7 & s8 & s9 & s10
        & H1 & H2 & H3 & H4 & H5 & H6 & H7 & H8 & H9 & H10 & H11).
  apply eat_spec in H1 as [L1 G1]. apply eat_spec in H2 as [L2 G2].
  apply eat_spec in H3 as [L3 G3]. apply eat_spec in H4 as [L4 G4].
  apply eat_spec in H5 as [L5 G5]. apply eat_spec in H6 as [L6 G6].
  apply eat_spec in H7 as [L7 G7]. apply eat_spec in H8 as [L8 G8].
  apply eat_spec in H9 as [L9 G9]. apply eat_spec in H10 as [L10 G10].
  apply eat_spec in H11 as [L11 G11].
  split; [cbn [String.length] in L11; lia|].
  intros i c Hi. unfold More.uuid_class.
  eat_step G1 Hi; [|eat_step G2 Hi; [|eat_step G3 Hi; [|eat_step G4 Hi; [|eat_step G5 Hi;
    [|eat_step G6 Hi; [|eat_step G7 Hi; [|eat_step G8 Hi; [|eat_step G9 Hi; [|eat_step G10 Hi;
    [|eat_step G11 Hi; [|by destruct (_ - _)]]]]]]]]]]];
    repeat match goal with
           | |- context [?a <? ?b] => destruct (Nat.ltb_spec a b); try lia
           end;
    exact Hi.
Qed.

(** The shape at the sample provider identifier. *)
Lemma uuid_match_shape_witness :
  String.length "c0a19ac4-96ba-4c5f-8e44-425d3173b0d6" = 36
  ∧ More.uuid_class 14 (Ascii.ascii_of_nat 52) = true.
Proof.
  destruct (uuid_match_shape "c0a19ac4-96ba-4c5f-8e44-425d3173b0d6" eq_refl)
    as [Hlen Hclass].
  split; [exact Hlen|]. apply Hclass. reflexivity.
Defined.


Lemma flat_map_nil_iff {A B} (g : A → list B) (l : list A) :
  flat_map g l = [] ↔ ∀ x, x ∈ l → g x = [].
Proof.
  split; [intros H x; by apply flat_map_nil_inv|].
  induction l as [|y l IH]; intros H; [done|]. simpl.
  rewrite (H y) by apply list_elem_of_here.
  apply IH. intros x Hx. apply H. by apply list_elem_of_further.
Qed.

Lemma required_error_nil (f : string) (v : JsVal) :
  Spec.required_error f v = [] ↔ ClaimUtils.blank_or_missing v = false.
Proof. unfold Spec.required_error. by destruct (ClaimUtils.blank_or_missing v). Qed.

Lemma uuid_error_nil (rt : Runtime) (f : string) (v : JsVal) :
  Spec.uuid_error rt f v = []
  ↔ (truthy v = true → ClaimUtils.uuidRegex_test rt v = true).
Proof.
  unfold Spec.uuid_error.
  destruct (truthy v), (ClaimUtils.uuidRegex_test rt v); simpl; split; try done.
  intros H. by specialize (H eq_refl).
Qed.

Lemma status_error_nil (v : JsVal) :
  Spec.status_error v = []
  ↔ (truthy v = true → ClaimUtils.statuses_include v = true).
Proof.
  unfold Spec.status_error.
  destruct (truthy v), (ClaimUtils.statuses_include v); simpl; split; try done.
  intros H. by specialize (H eq_refl).
Qed.

Lemma boolean_error_nil (f : string) (v : JsVal) :
  Spec.boolean_error f v = [] ↔ (v = JUndefined ∨ ∃ b, v = JBool b).
Proof.
  unfold Spec.boolean_error. destruct v as [| |b|x|s]; simpl; split; try done;
    try (intros [H|[b' H]]; discriminate H); eauto.
Qed.

Lemma date_error_nil (rt : Runtime) (v : JsVal) :
  Spec.date_error rt v = [] ↔ (truthy v = true → Date_valid rt v = true).
Proof.
  unfold Spec.date_error.
  destruct (truthy v), (Date_valid rt v); simpl; split; try done.
  intros H. by specialize (H eq_refl).
Qed.

Lemma blank_false_truthy (v : JsVal) :
  ClaimUtils.blank_or_missing v = false → truthy v = true.
Proof.
  unfold ClaimUtils.blank_or_missing. intros H.
  apply orb_false_iff in H as [H _]. by apply negb_false_iff in H.
Qed.

Lemma uuidFields_required (f : string) :
  f ∈ ClaimUtils.uuidFields → f ∈ ClaimUtils.requiredFields.
Proof.
  unfold ClaimUtils.uuidFields, ClaimUtils.requiredFields. intros H.
  repeat (apply elem_of_cons in H as [->|H]; [set_solver|]).
  by apply elem_of_nil in H.
Qed.

(** [validateClaim] accepts a claim exactly when each of the five
    required fields has a value that is not blank, each of the four
    identifiers matches the identifier pattern, the status is missing, empty
    or one of the five statuses, each of the two flags is missing or a
    boolean, and the submission date is missing, empty or a valid date. *)
Theorem validateClaim_valid_iff (rt : Runtime) (claimData : Obj) :
  ClaimUtils.isValid (ClaimUtils.validateClaim rt claimData) = true
  ↔ (∀ f, f ∈ ClaimUtils.requiredFields →
          ClaimUtils.blank_or_missing (get claimData f) = false)
    ∧ (∀ f, f ∈ ClaimUtils.uuidFields →
            ClaimUtils.uuidRegex_test rt (get claimData f) = true)
    ∧ (truthy (get claimData "status") = true →
       ClaimUtils.statuses_include (get claimData "status") = true)
    ∧ (∀ f, f ∈ ClaimUtils.booleanFields →
            get claimData f = JUndefined ∨ ∃ b, get claimData f = JBool b)
    ∧ (truthy (get claimData "submission_date") = true →
       Date_valid rt (get claimData "submission_date") = true).
Proof.
  rewrite validateClaim_isValid, validateClaim_errors.
  rewrite !app_nil, !flat_map_nil_iff, status_error_nil, date_error_nil.
  split.
  - intros (Hreq & Huuid & Hstatus & Hbool & Hdate).
    assert (Hreq' : ∀ f, f ∈ ClaimUtils.requiredFields →
                         ClaimUtils.blank_or_missing (get claimData f) = false)
      by (intros f Hf; exact (proj1 (required_error_nil f _) (Hreq f Hf))).
    split; [exact Hreq'|]. split; [|split; [done|split; [|done]]].
    + intros f Hf. apply (proj1 (uuid_error_nil rt f _) (Huuid f Hf)).
      apply blank_false_truthy, Hreq'. by apply uuidFields_required.
    + intros f Hf. exact (proj1 (boolean_error_nil f _) (Hbool f Hf)).
  - intros (Hreq & Huuid & Hstatus & Hbool & Hdate).
    split; [intros f Hf; exact (proj2 (required_error_nil f _) (Hreq f Hf))|].
    split; [|split; [done|split; [|done]]].
    + intros f Hf. apply (proj2 (uuid_error_nil rt f _)). intros _. by apply Huuid.
    + intros f Hf. exact (proj2 (boolean_error_nil f _) (Hbool f Hf)).
Qed.

(** The characterisation at the sample claim. *)
Lemma validateClaim_valid_iff_witness :
  ClaimUtils.isValid
    (ClaimUtils.validateClaim Fixtures.rt (Fixtures.sample_claim "a routine check-up"))
  = true
  ∧ ClaimUtils.uuidRegex_test Fixtures.rt
      (get (Fixtures.sample_claim "a routine check-up") "policy_id") = true.
Proof.
  assert (Hvalid : ClaimUtils.isValid
                     (ClaimUtils.validateClaim Fixtures.rt
                        (Fixtures.sample_claim "a routine check-up")) = true)
    by reflexivity.
  split; [exact Hvalid|].
  destruct (proj1 (validateClaim_valid_iff Fixtures.rt _) Hvalid) as (_ & Huuid & _).
  apply Huuid. apply list_elem_of_In. simpl. tauto.
Defined.

Lemma flat_map_ext_In {A B} (g g' : A → list B) (l : list A) :
  (∀ x, In x l → g x = g' x) → flat_map g l = flat_map g' l.
Proof.
  induction l as [|y l IH]; intros H; [done|]. simpl.
  rewrite (H y) by (by left). f_equal. apply IH. intros x Hx. apply H. by right.
Qed.

(** The value of a property after a spread. *)
Lemma get_spread (defaults claimData : Obj) (f : string) :
  get (spread defaults claimData) f
  = match claimData !! f with
    | Some v => v
    | None => get defaults f
    end.
Proof.
  unfold get, spread. rewrite lookup_union.
  destruct (claimData !! f) as [v|]; [by destruct (defaults !! f)|].
  by rewrite (left_id None _).
Qed.

(** Filling in the draft defaults does not change the validation
    report: when the clock reading is accepted as a date,
    [validateClaim(createClaim(data))] is [validateClaim(data)]. *)
Theorem createClaim_keeps_report (rt : Runtime) (now : string) (claimData : Obj) :
  Date_parse_ok rt now = true →
  ClaimUtils.validateClaim rt (ClaimUtils.createClaim now claimData)
  = ClaimUtils.validateClaim rt claimData.
Proof.
  intros Hnow.
  assert (Hget : ∀ f, get (ClaimUtils.createClaim now claimData) f
                      = match claimData !! f with
                        | Some v => v
                        | None => get (ClaimUtils.claim_draft_defaults now) f
                        end)
    by (intros f; apply get_spread).
  assert (Herr : ClaimUtils.errors
                   (ClaimUtils.validateClaim rt (ClaimUtils.createClaim now claimData))
                 = ClaimUtils.errors (ClaimUtils.validateClaim rt claimData)).
  { rewrite !validateClaim_errors. f_equal; [|f_equal; [|f_equal; [|f_equal]]].
    - apply flat_map_ext_In. intros f Hf. rewrite Hget. unfold get at 2.
      destruct (claimData !! f) as [v|]; [done|].
      unfold ClaimUtils.requiredFields in Hf. simpl in Hf.
      by repeat (destruct Hf as [<-|Hf]; [vm_compute; reflexivity|]).
    - apply flat_map_ext_In. intros f Hf. rewrite Hget. unfold get at 2.
      destruct (claimData !! f) as [v|]; [done|].
      unfold ClaimUtils.uuidFields in Hf. simpl in Hf.
      by repeat (destruct Hf as [<-|Hf]; [reflexivity|]).
    - rewrite Hget. unfold get at 2.
      by destruct (claimData !! "status") as [v|].
    - apply flat_map_ext_In. intros f Hf. rewrite Hget. unfold get at 2.
      destruct (claimData !! f) as [v|]; [done|].
      unfold ClaimUtils.booleanFields in Hf. simpl in Hf.
      by repeat (destruct Hf as [<-|Hf]; [reflexivity|]).
    - rewrite Hget. unfold get at 2.
      destruct (claimData !! "submission_date") as [v|]; [done|].
      change (get (ClaimUtils.claim_draft_defaults now) "submission_date")
        with (JStr now).
      unfold Spec.date_error. cbn [Date_valid default]. rewrite Hnow.
      by rewrite andb_false_r. }
  unfold ClaimUtils.validateClaim in *. cbn [ClaimUtils.errors] in Herr.
  by rewrite Herr.
Qed.

(** The statement at the empty record: the draft built from nothing misses the same
    five fields. *)
Lemma createClaim_keeps_report_witness :
  Date_parse_ok Fixtures.rt Fixtures.fixed_instant = true
  ∧ ClaimUtils.errors
      (ClaimUtils.validateClaim Fixtures.rt
         (ClaimUtils.createClaim Fixtures.fixed_instant ∅))
    = ["provider_id is required"; "risk_id is required"; "patient_id is required";
       "policy_id is required"; "summary is required"].
Proof.
  split; [reflexivity|].
  rewrite (createClaim_keeps_report Fixtures.rt Fixtures.fixed_instant ∅ eq_refl).
  reflexivity.
Defined.

(** ** Further properties: the gateway *)

Section Gateway.

Context {Remote : Type} (be : Backend Remote) (rt : Runtime).

Lemma filter_ext_bool {A} (p q : A → bool) (l : list A) :
  (∀ x, p x = q x) →
  filter (λ x, p x = true) l = filter (λ x, q x = true) l.
Proof.
  intros H. induction l as [|a l IH]; [done|].
  rewrite !filter_cons, IH. destruct (decide (p a = true)) as [Hp|Hp],
    (decide (q a = true)) as [Hq|Hq]; try done; rewrite H in Hp; contradiction.
Qed.

(** [submitClaim] of the gateway.  When some required field is falsy the
    call throws the message that lists the falsy fields in the order of the
    table, and no request is sent.  Otherwise it sends exactly one POST,
    whose body holds every property of the claim and, for the six optional
    properties the claim does not have, the default; the outcome is the
    answer as the interceptor maps it. *)
Theorem submitClaim_guard (claimData : Obj) (w : World Remote) :
  let missing :=
    filter (λ f, truthy (get claimData f) = false) Api.requiredFields in
  let body := spread (Api.claim_defaults (clock be (remote w))) claimData in
  (missing ≠ [] →
   Api.submitClaim be rt claimData w
   = (Throw ("Missing required fields: " +:+ join ", " missing), w))
  ∧ (missing = [] →
     Api.submitClaim be rt claimData w
     = (Api.responseInterceptor rt (create_claim be body (remote w)).1,
        {| remote := (create_claim be body (remote w)).2;
           sent := sent w ++ [POST_claims body] |}))
  ∧ (∀ k, body !! k = match claimData !! k with
                      | Some v => Some v
                      | None => Api.claim_defaults (clock be (remote w)) !! k
                      end).
Proof.
  intros missing body.
  assert (Hmissing : filter (λ field, negb (truthy (get claimData field)) = true)
                       Api.requiredFields = missing).
  { subst missing. unfold Api.requiredFields.
    rewrite !filter_cons, !filter_nil.
    repeat match goal with
           | |- context [truthy ?v] => destruct (truthy v); simpl
           end; reflexivity. }
  split; [|split].
  - intros Hne. unfold Api.submitClaim. rewrite Hmissing.
    destruct missing as [|f l]; [done|]. reflexivity.
  - intros Hnil. unfold Api.submitClaim. rewrite Hmissing, Hnil.
    cbn [length Nat.ltb Nat.leb]. unfold io_bind, Api.now, Api.call. fold body.
    by destruct (create_claim be body (remote w)).
  - intros k. subst body. unfold spread. rewrite lookup_union.
    destruct (claimData !! k) as [v|].
    + by destruct (Api.claim_defaults _ !! k).
    + by rewrite (left_id None _).
Qed.

Lemma forward_lookup_eq (filters : Obj) (name : string) (params : Obj) :
  Api.forward filters name params !! name
  = match filters !! name with
    | Some JUndefined | None => params !! name
    | Some v => Some v
    end.
Proof.
  unfold Api.forward, get.
  destruct (filters !! name) as [[]|]; cbn [default from_option id is_undefined];
    by rewrite ?lookup_insert_eq.
Qed.

Lemma forward_lookup_ne (filters : Obj) (name k : string) (params : Obj) :
  k ≠ name → Api.forward filters name params !! k = params !! k.
Proof.
  intros Hk. unfold Api.forward.
  destruct (is_undefined (get filters name)); [done|].
  by rewrite lookup_insert_ne.
Qed.

Lemma client_filter_elem (filters : Obj) (name : string) (claims : list Obj)
    (c : Obj) :
  c ∈ Api.client_filter filters name claims
  ↔ c ∈ claims
    ∧ (truthy (get filters name) = true →
       Api.strict_eq (get c name) (get filters name) = true).
Proof.
  unfold Api.client_filter. destruct (truthy (get filters name)).
  - rewrite list_elem_of_filter. split.
    + intros [Heq Hc]. by split.
    + intros [Hc Heq]. split; [by apply Heq | done].
  - split; [intros Hc; by split | by intros [Hc _]].
Qed.

Lemma client_filter_sublist (filters : Obj) (name : string) (claims : list Obj) :
  Api.client_filter filters name claims `sublist_of` claims.
Proof.
  unfold Api.client_filter. destruct (truthy (get filters name)); [|done].
  apply sublist_filter.
Qed.

(** [getClaims] sends one GET request whose parameters are the [skip] and
    [limit] of the filters, and nothing else of them.  When the request
    succeeds, the claims returned are those of the answer, in the order of
    the answer, whose [status], [provider_id], [patient_id] and [policy_id]
    are strictly equal to each filter of that name that is truthy; when it
    fails, the error of the interceptor is thrown. *)
Theorem getClaims_filters (filters : Obj) (w : World Remote) :
  let params := Api.forward filters "limit" (Api.forward filters "skip" ∅) in
  let answer := Api.responseInterceptor rt (list_claims be params (remote w)).1 in
  let run := Api.getClaims be rt filters w in
  run.2 = {| remote := (list_claims be params (remote w)).2;
             sent := sent w ++ [GET_claims params] |}
  ∧ (∀ k, params !! k
          = if decide (k = "skip" ∨ k = "limit")
            then match filters !! k with
                 | Some JUndefined => None
                 | other => other
                 end
            else None)
  ∧ match answer with
    | Throw message => run.1 = Throw message
    | Ret listed =>
        ∃ claims, run.1 = Ret claims
          ∧ claims `sublist_of` listed
          ∧ ∀ c, c ∈ claims
                 ↔ c ∈ listed
                   ∧ ∀ name, name ∈ ["status"; "provider_id"; "patient_id"; "policy_id"] →
                             truthy (get filters name) = true →
                             Api.strict_eq (get c name) (get filters name) = true
    end.
Proof.
  intros params answer run. subst run answer.
  unfold Api.getClaims, io_bind, Api.call. fold params.
  destruct (list_claims be params (remote w)) as [r remote'] eqn:Hlist. cbn [fst snd].
  split; [by destruct (Api.responseInterceptor rt r)|]. split.
  - intros k. subst params.
    destruct (decide (k = "skip" ∨ k = "limit")) as [[->| ->]|Hk].
    + rewrite forward_lookup_ne by done. rewrite forward_lookup_eq, lookup_empty.
      by destruct (filters !! "skip") as [[]|].
    + rewrite forward_lookup_eq, forward_lookup_ne, lookup_empty by done.
      by destruct (filters !! "limit") as [[]|].
    + rewrite !forward_lookup_ne by tauto. apply lookup_empty.
  - destruct (Api.responseInterceptor rt r) as [listed|message]; [|reflexivity].
    eexists. split; [reflexivity|]. split.
    + repeat (etrans; [apply client_filter_sublist|]). done.
    + intros c. rewrite !client_filter_elem. split.
      * intros ((((Hc & H1) & H2) & H3) & H4). split; [done|].
        intros name Hname.
        repeat (apply elem_of_cons in Hname as [->|Hname]; [done|]).
        by apply elem_of_nil in Hname.
      * intros (Hc & Hall).
        repeat split; [done|..]; apply Hall; set_solver.
Qed.

(** [testConnection] never throws.  It sends the one GET request of the
    health check, with [limit] 1, and reports success exactly when that
    request succeeds; a failure is reported with the message of the
    interceptor's error. *)
Theorem testConnection_never_throws (w : World Remote) :
  let answer :=
    Api.responseInterceptor rt (list_claims be Api.health_params (remote w)).1 in
  ∃ report,
    Api.testConnection be rt w
    = (Ret report,
       {| remote := (list_claims be Api.health_params (remote w)).2;
          sent := sent w ++ [GET_claims Api.health_params] |})
    ∧ report = match answer with
               | Ret _ => {| Api.connection_success := true;
                             Api.connection_message := "Connection successful" |}
               | Throw message => {| Api.connection_success := false;
                                     Api.connection_message := message |}
               end.
Proof.
  intros answer. subst answer.
  unfold Api.testConnection, Api.healthCheck, io_bind, Api.call.
  destruct (list_claims be Api.health_params (remote w)) as [r remote'].
  cbn [fst snd]. destruct (Api.responseInterceptor rt r); eexists; split; reflexivity.
Qed.

(** The store action [testConnection] returns the report of the gateway
    and never records an error: afterwards the error is cleared and the
    loading flag is off, whether the connection works or not; nothing else
    of the store changes. *)
Theorem testConnection_action_clears_error (state : AppContext.AppState)
    (w : World Remote) :
  ∃ report w',
    Api.testConnection be rt w = (Ret report, w')
    ∧ AppContext.testConnection be rt (state, w)
      = (Ret report,
         (AppContext.appReducer (clock be (remote w')) 
            (AppContext.appReducer (clock be (remote w))
               (AppContext.appReducer (clock be (remote w)) state
                  (AppContext.SET_LOADING true))
               AppContext.CLEAR_ERROR)
            (AppContext.SET_LOADING false), w'))
    ∧ let state' := (AppContext.testConnection be rt (state, w)).2.1 in
      AppContext.error state' = None
      ∧ AppContext.loading state' = false
      ∧ AppContext.claims state' = AppContext.claims state
      ∧ AppContext.recentClaims state' = AppContext.recentClaims state
      ∧ AppContext.batchProcessing state' = AppContext.batchProcessing state.
Proof.
  destruct (testConnection_never_throws w) as (report & Hrun & _).
  eexists report, _. split; [exact Hrun|].
  unfold AppContext.testConnection, AppContext.dispatch. cbn [fst snd].
  rewrite Hrun. cbn [fst snd]. split; [reflexivity|]. by repeat split.
Qed.

End Gateway.

(** The errors of the interceptor outside the status table.  A fulfilled
    request is passed on.  A request without a response throws the CORS
    message when the error's message mentions CORS or its code is
    ERR_NETWORK, and the network message otherwise.  An error raised
    before the request was sent throws its own message, or the unexpected
    error message when it has none.  With a status outside the table, a
    body message that is an object with a member [toString] cannot be
    converted: the conversion's TypeError is what is thrown. *)
Theorem responseInterceptor_other_errors (A : Type) (rt : Runtime) :
  (∀ data : A, Api.responseInterceptor rt (Fulfilled data) = Ret data)
  ∧ (∀ message code,
        @Api.responseInterceptor A rt (NoResponse message code)
        = Throw (if includes message "CORS" || String.eqb code "ERR_NETWORK"
                 then Api.msg_cors else Api.msg_network))
  ∧ (∀ message,
        @Api.responseInterceptor A rt (SetupError message)
        = Throw (if String.eqb message EmptyString then Api.msg_unexpected
                 else message))
  ∧ (∀ status members message,
        status ∉ Spec.listed_statuses →
        has_member "toString" members = true →
        @Api.responseInterceptor A rt
          (HttpError status (Some (JsonObj members)) message)
        = Throw (ToPrimitive_error rt))
  ∧ Api.msg_cors ≠ Api.msg_network.
Proof.
  split; [reflexivity|]. split; [intros message code; simpl; by destruct (_ || _)|].
  split; [reflexivity|]. split; [|discriminate].
  intros status members message Hst Hmem. simpl.
  rewrite (status_message_other _ _ _ _ Hst). simpl. by rewrite Hmem.
Qed.

(** The statement at a 422 whose body message is an object with a member
    [toString]. *)
Lemma responseInterceptor_other_errors_witness :
  (422%Z ∉ Spec.listed_statuses)
  ∧ @Api.responseInterceptor Obj Fixtures.rt
      (HttpError 422 (Some (JsonObj [("toString", JsonStr "summary too long")]))
         "Request failed with status code 422")
    = Throw "Cannot convert object to primitive value".
Proof.
  assert (H422 : 422%Z ∉ Spec.listed_statuses)
    by (apply (bool_decide_eq_true_1 (_ ∉ _)); reflexivity).
  split; [exact H422|].
  destruct (responseInterceptor_other_errors Obj Fixtures.rt) as (_ & _ & _ & H & _).
  exact (H 422%Z [("toString", JsonStr "summary too long")] _ H422 eq_refl).
Defined.

(** ** Further properties: the configuration of the gateway *)

Lemma or_else_default (a : option string) (b : string) :
  b ≠ EmptyString → Api.or_else a b ≠ EmptyString.
Proof.
  intros Hb. unfold Api.or_else. destruct a as [s|]; [|done].
  by destruct (String.eqb_spec s EmptyString).
Qed.

Lemma API_KEY_not_empty (env : ApiConfig.Env) : ApiConfig.API_KEY env ≠ EmptyString.
Proof. by apply or_else_default. Qed.

(** The initialization of the stored configuration.  Afterwards a base URL
    is stored and it does not mention the old port 8080: it is the stored
    one when that was not empty and did not mention the port, and otherwise
    the empty string in development and http://localhost:8000 elsewhere.  A
    key is stored and it is not empty: the stored one when there was one,
    the key of the environment otherwise.  No other entry of the storage is
    touched, and running the initialization again changes nothing. *)
Theorem initializeApiConfig_spec (env : ApiConfig.Env) (storage : gmap string string) :
  let storage' := ApiConfig.initializeApiConfig env storage in
  (∃ url, storage' !! "apiBaseUrl" = Some url
          ∧ includes url ":8080" = false
          ∧ url = (if ApiConfig.stale_base_url (storage !! "apiBaseUrl")
                   then if ApiConfig.development env then EmptyString
                        else "http://localhost:8000"
                   else default EmptyString (storage !! "apiBaseUrl")))
  ∧ (∃ key, storage' !! "apiKey" = Some key
            ∧ key ≠ EmptyString
            ∧ key = Api.or_else (storage !! "apiKey") (ApiConfig.API_KEY env))
  ∧ (∀ k, k ≠ "apiBaseUrl" → k ≠ "apiKey" → storage' !! k = storage !! k)
  ∧ ApiConfig.initializeApiConfig env storage' = storage'.
Proof.
  intros storage'.
  set (url := if ApiConfig.stale_base_url (storage !! "apiBaseUrl")
              then if ApiConfig.development env then EmptyString
                   else "http://localhost:8000"
              else default EmptyString (storage !! "apiBaseUrl")).
  set (key := Api.or_else (storage !! "apiKey") (ApiConfig.API_KEY env)).
  assert (Hurl_ok : includes url ":8080" = false
                    ∧ ApiConfig.stale_base_url (Some url)
                      = String.eqb url EmptyString).
  { subst url. destruct (ApiConfig.stale_base_url (storage !! "apiBaseUrl")) eqn:Hst.
    - by destruct (ApiConfig.development env).
    - unfold ApiConfig.stale_base_url in *.
      destruct (storage !! "apiBaseUrl") as [u|]; [|discriminate Hst].
      apply orb_false_iff in Hst as [Hu Hp]. cbn [default from_option id].
      by rewrite Hu, Hp. }
  destruct Hurl_ok as [Hport Hstale].
  assert (Hkey : key ≠ EmptyString) by apply or_else_default, API_KEY_not_empty.
  assert (Hshape : storage' = <["apiKey" := key]> (<["apiBaseUrl" := url]> storage)).
  { subst storage' url key. unfold ApiConfig.initializeApiConfig, ApiConfig.getItem,
      ApiConfig.setItem.
    destruct (ApiConfig.stale_base_url (storage !! "apiBaseUrl")) eqn:Hst.
    - rewrite lookup_insert_ne by done. unfold Api.or_else.
      destruct (storage !! "apiKey") as [k0|] eqn:Hk0; [|done].
      destruct (String.eqb k0 EmptyString); [done|].
      apply map_eq. intros k. destruct (decide (k = "apiKey")) as [->|Hk].
      + by rewrite lookup_insert_eq, lookup_insert_ne.
      + by rewrite (lookup_insert_ne _ "apiKey").
    - unfold ApiConfig.stale_base_url in Hst.
      destruct (storage !! "apiBaseUrl") as [u|] eqn:Hu; [|discriminate Hst].
      cbn [default from_option id]. rewrite (insert_id storage "apiBaseUrl" u Hu).
      unfold Api.or_else.
      destruct (storage !! "apiKey") as [k0|] eqn:Hk0; [|done].
      destruct (String.eqb k0 EmptyString); [done|].
      by rewrite insert_id. }
  assert (Hget_url : storage' !! "apiBaseUrl" = Some url)
    by (rewrite Hshape, lookup_insert_ne by done; apply lookup_insert_eq).
  assert (Hget_key : storage' !! "apiKey" = Some key)
    by (rewrite Hshape; apply lookup_insert_eq).
  split; [by exists url|]. split; [by exists key|]. split.
  - intros k Hk1 Hk2. by rewrite Hshape, !lookup_insert_ne.
  - unfold ApiConfig.initializeApiConfig, ApiConfig.getItem, ApiConfig.setItem.
    rewrite Hget_url, Hstale.
    destruct (String.eqb_spec url EmptyString) as [Hempty|Hfull].
    + assert (Hdev : (if ApiConfig.development env then EmptyString
                      else "http://localhost:8000") = url).
      { subst url. destruct (ApiConfig.stale_base_url (storage !! "apiBaseUrl")) eqn:Hst.
        - reflexivity.
        - exfalso. unfold ApiConfig.stale_base_url in Hst.
          destruct (storage !! "apiBaseUrl") as [u|]; [|discriminate Hst].
          cbn [default from_option id] in Hempty. subst u. discriminate Hst. }
      rewrite Hdev, (insert_id storage' "apiBaseUrl" url Hget_url), Hget_key.
      by destruct (String.eqb_spec key EmptyString).
    + rewrite Hget_key. by destruct (String.eqb_spec key EmptyString).
Qed.

(** The configuration after [updateConfig] with a base URL and a key that
    are strings.  [getConfig] reports them back when they are not empty,
    and the value of the environment in the place of an empty one; every
    request leaves with the new key as its [api-key] header, the empty key
    included. *)
Theorem updateConfig_getConfig (env : ApiConfig.Env) (c : ApiConfig.Config)
    (baseUrl apiKey : string) :
  let c' := ApiConfig.updateConfig baseUrl apiKey c in
  ApiConfig.getConfig env c'
  = {| ApiConfig.baseUrl := if String.eqb baseUrl EmptyString
                            then ApiConfig.API_BASE_URL env else baseUrl;
       ApiConfig.apiKey := if String.eqb apiKey EmptyString
                           then ApiConfig.API_KEY env else apiKey |}
  ∧ ApiConfig.request_api_key c' = apiKey
  ∧ ApiConfig.baseURL c' = baseUrl.
Proof.
  intros c'. subst c'.
  unfold ApiConfig.getConfig, ApiConfig.request_api_key, ApiConfig.updateConfig,
    ApiConfig.getItem, ApiConfig.setItem.
  cbn [ApiConfig.localStorage ApiConfig.api_key_header ApiConfig.baseURL].
  rewrite lookup_insert_eq, lookup_insert_ne, lookup_insert_eq by done.
  split; [reflexivity|]. split; [|reflexivity].
  by destruct (String.eqb_spec apiKey EmptyString).
Qed.

(** The axios instance created after the initialization sends every
    request with the stored key, which is not empty, and to the stored base
    URL; its base URL never mentions the old port 8080, and it is empty in
    development only. *)
Theorem create_uses_stored_config (env : ApiConfig.Env) (storage : gmap string string) :
  let c := ApiConfig.create env storage in
  ApiConfig.localStorage c = ApiConfig.initializeApiConfig env storage
  ∧ ApiConfig.localStorage c !! "apiKey" = Some (ApiConfig.request_api_key c)
  ∧ ApiConfig.request_api_key c ≠ EmptyString
  ∧ ApiConfig.request_api_key c = ApiConfig.api_key_header c
  ∧ ApiConfig.apiKey (ApiConfig.getConfig env c) = ApiConfig.request_api_key c
  ∧ ApiConfig.localStorage c !! "apiBaseUrl" = Some (ApiConfig.baseURL c)
  ∧ includes (ApiConfig.baseURL c) ":8080" = false
  ∧ (ApiConfig.baseURL c = EmptyString → ApiConfig.development env = true).
Proof.
  intros c. subst c.
  destruct (initializeApiConfig_spec env storage)
    as ((url & Hurl & Hport & Hchoice) & (key & Hkey & Hne & _) & _).
  assert (Hdev : url = EmptyString → ApiConfig.development env = true).
  { intros ->. destruct (ApiConfig.stale_base_url (storage !! "apiBaseUrl")) eqn:Hst.
    - by destruct (ApiConfig.development env).
    - unfold ApiConfig.stale_base_url in Hst.
      destruct (storage !! "apiBaseUrl") as [u|]; [|discriminate Hst].
      cbn [default from_option id] in Hchoice. subst u. discriminate Hst. }
  unfold ApiConfig.create, ApiConfig.request_api_key, ApiConfig.getConfig,
    ApiConfig.getItem.
  cbn [ApiConfig.localStorage ApiConfig.api_key_header ApiConfig.baseURL
       ApiConfig.apiKey].
  rewrite Hkey, Hurl. unfold Api.or_else.
  destruct (String.eqb_spec key EmptyString) as [He|_]; [done|].
  do 5 (split; [done|]).
  destruct (String.eqb_spec url EmptyString) as [->|Hfull].
  - unfold ApiConfig.API_BASE_URL. rewrite (Hdev eq_refl). by repeat split.
  - by repeat split.
Qed.

(** ** Further properties: bulk operations *)

Lemma parse_rows_spec (headers rest : list string) (i : nat) (claims : list Obj) :
  BulkUtils.parse_rows headers rest i claims
  = match More.first_mismatch headers rest with
    | Some j =>
        Throw ("Row " +:+ string_of_nat (i + j + 1) +:+ ": Column count mismatch")
    | None =>
        Ret (claims ++ ((λ line, BulkUtils.row_claim headers (BulkUtils.cells line))
                        <$> rest))
    end.
Proof.
  revert i claims. induction rest as [|line rest IH]; intros i claims.
  - simpl. by rewrite app_nil_r.
  - cbn [BulkUtils.parse_rows More.first_mismatch].
    destruct (length (BulkUtils.cells line) =? length headers); cbn [negb].
    + rewrite IH. destruct (More.first_mismatch headers rest) as [j|]; cbn [fmap option_fmap option_map].
      * by replace (S i + j + 1) with (i + S j + 1) by lia.
      * unfold push. by rewrite <- app_assoc.
    + by rewrite Nat.add_0_r.
Qed.

Lemma first_mismatch_Some (headers rows : list string) (j : nat) :
  More.first_mismatch headers rows = Some j
  ↔ (∃ line, rows !! j = Some line
             ∧ length (BulkUtils.cells line) ≠ length headers)
    ∧ ∀ k line, k < j → rows !! k = Some line →
                length (BulkUtils.cells line) = length headers.
Proof.
  revert j. induction rows as [|line rest IH]; intros j.
  - simpl. split; [discriminate|]. intros [(l & Hl & _) _]. discriminate Hl.
  - cbn [More.first_mismatch].
    destruct (Nat.eqb_spec (length (BulkUtils.cells line)) (length headers)) as [He|He].
    + destruct j as [|j].
      * split; [by destruct (More.first_mismatch headers rest)|].
        intros [(l & Hl & Hbad) _]. injection Hl as <-. contradiction.
      * destruct (More.first_mismatch headers rest) as [j'|] eqn:Hf;
          cbn [fmap option_fmap option_map].
        -- split.
           ++ intros Hj. injection Hj as <-.
              destruct (proj1 (IH j') eq_refl) as [Hbad Hbefore].
              split; [exact Hbad|]. intros [|k] l Hk Hl.
              ** by injection Hl as <-.
              ** apply (Hbefore k l); [lia | exact Hl].
           ++ intros [Hbad Hbefore].
              assert (Hj : Some j' = Some j); [|by injection Hj as ->].
              apply IH. split; [exact Hbad|].
              intros k l Hk Hl. apply (Hbefore (S k) l); [lia | exact Hl].
        -- split; [discriminate|]. intros [Hbad Hbefore].
           assert (Hj : None = Some j); [|discriminate Hj].
           apply IH. split; [exact Hbad|].
           intros k l Hk Hl. apply (Hbefore (S k) l); [lia | exact Hl].
    + split.
      * intros Hj. injection Hj as <-. split; [by exists line|]. intros k l Hk. lia.
      * intros [_ Hbefore]. destruct j as [|j]; [done|].
        exfalso. apply He. apply (Hbefore 0 line); [lia | done].
Qed.

Lemma first_mismatch_None (headers rows : list string) :
  More.first_mismatch headers rows = None
  ↔ ∀ line, line ∈ rows → length (BulkUtils.cells line) = length headers.
Proof.
  induction rows as [|line rest IH].
  - split; [|done]. intros _ l Hl. by apply elem_of_nil in Hl.
  - cbn [More.first_mismatch].
    destruct (Nat.eqb_spec (length (BulkUtils.cells line)) (length headers)) as [He|He].
    + destruct (More.first_mismatch headers rest) as [j|];
        cbn [fmap option_fmap option_map].
      * split; [discriminate|]. intros Hall.
        assert (Hn : Some j = None); [|discriminate Hn].
        apply IH. intros l Hl. apply Hall. by apply list_elem_of_further.
      * split; [|done]. intros _ l Hl.
        apply elem_of_cons in Hl as [->|Hl]; [done|]. by apply (proj1 IH).
    + split; [discriminate|]. intros Hall. exfalso. apply He, Hall, list_elem_of_here.
Qed.

(** [parseCSVToClaims]: the first line of the trimmed text gives the
    headers and every further line is a row.  When every row has as many
    cells as there are headers, the result holds one claim per row, in
    order; a text of one line gives no claim.  Otherwise the call throws
    for the first row that differs, numbered from the first line of the
    text as line 1: rows before it do not count, rows after it are not
    looked at. *)
Theorem parseCSVToClaims_rows (csvText : string) :
  let lines := JsString.split JsString.line_feed (trim csvText) in
  let headers := BulkUtils.cells (hd EmptyString lines) in
  let rows := tl lines in
  ((∀ line, line ∈ rows → length (BulkUtils.cells line) = length headers) →
   BulkUtils.parseCSVToClaims csvText
   = Ret ((λ line, BulkUtils.row_claim headers (BulkUtils.cells line)) <$> rows))
  ∧ (∀ j line,
       rows !! j = Some line →
       length (BulkUtils.cells line) ≠ length headers →
       (∀ k l, k < j → rows !! k = Some l →
               length (BulkUtils.cells l) = length headers) →
       BulkUtils.parseCSVToClaims csvText
       = Throw ("Row " +:+ string_of_nat (j + 2) +:+ ": Column count mismatch"))
  ∧ (rows = [] → BulkUtils.parseCSVToClaims csvText = Ret []).
Proof.
  intros lines headers rows.
  assert (Hrun : BulkUtils.parseCSVToClaims csvText
                 = BulkUtils.parse_rows headers rows 1 []) by reflexivity.
  rewrite Hrun, parse_rows_spec. split; [|split].
  - intros Hall. by rewrite (proj2 (first_mismatch_None headers rows) Hall).
  - intros j line Hj Hbad Hbefore.
    rewrite (proj2 (first_mismatch_Some headers rows j)) by eauto.
    by replace (1 + j + 1) with (j + 2) by lia.
  - intros ->. reflexivity.
Qed.

(** The statement at a text with a header line, a row of two cells and a
    row of one: the second row is line 3 of the text. *)
Lemma parseCSVToClaims_rows_witness :
  BulkUtils.parseCSVToClaims
    ("summary,ex_gratia_flag" +:+ UseClaims.newline +:+ "a routine check-up, TRUE"
     +:+ UseClaims.newline +:+ "second visit")
  = Throw "Row 3: Column count mismatch"
  ∧ BulkUtils.parseCSVToClaims
      ("summary,ex_gratia_flag" +:+ UseClaims.newline +:+ "a routine check-up, TRUE")
    = Ret [ {[ "summary" := JStr "a routine check-up";
               "ex_gratia_flag" := JBool true ]} ].
Proof.
  split.
  - destruct (parseCSVToClaims_rows
                ("summary,ex_gratia_flag" +:+ UseClaims.newline
                 +:+ "a routine check-up, TRUE" +:+ UseClaims.newline +:+ "second visit"))
      as (_ & Hbad & _).
    apply (Hbad 1 "second visit"); [reflexivity | vm_compute; discriminate |].
    intros [|k] l Hk Hl; [|lia]. injection Hl as <-. reflexivity.
  - destruct (parseCSVToClaims_rows
                ("summary,ex_gratia_flag" +:+ UseClaims.newline
                 +:+ "a routine check-up, TRUE"))
      as (Hok & _ & _).
    rewrite Hok.
    + vm_compute. reflexivity.
    + intros line Hl. apply list_elem_of_singleton in Hl as ->. reflexivity.
Defined.

Lemma fold_assign_get (cells : list (string * string)) (claim : Obj) (k : string) :
  (get claim k = JUndefined ∨ ∃ s, get claim k = JStr s) →
  get (fold_left BulkUtils.assign cells claim) k = JUndefined
  ∨ ∃ s, get (fold_left BulkUtils.assign cells claim) k = JStr s.
Proof.
  revert claim. induction cells as [|[h v] cells IH]; intros claim Hk; [exact Hk|].
  cbn [fold_left]. apply IH. unfold BulkUtils.assign. cbn [fst snd].
  destruct (String.eqb h "__proto__"); [exact Hk|].
  unfold get. destruct (decide (k = h)) as [->|Hne].
  - rewrite lookup_insert_eq. right. by exists v.
  - by rewrite lookup_insert_ne.
Qed.

Lemma convert_flag_get_ne (flag k : string) (claim : Obj) :
  k ≠ flag → get (BulkUtils.convert_flag flag claim) k = get claim k.
Proof.
  intros Hk. unfold BulkUtils.convert_flag.
  destruct (get claim flag) as [| | | |s]; try reflexivity.
  destruct (truthy (JStr s)); [|reflexivity].
  unfold get. by rewrite lookup_insert_ne.
Qed.

Lemma convert_flag_get_eq (flag : string) (claim : Obj) :
  get (BulkUtils.convert_flag flag claim) flag
  = match get claim flag with
    | JStr s =>
        if String.eqb s EmptyString then JStr s
        else JBool (String.eqb (JsString.toLowerCase s) "true")
    | v => v
    end.
Proof.
  unfold BulkUtils.convert_flag.
  destruct (get claim flag) as [| | | |s] eqn:Hg; cbn beta iota; try exact Hg.
  destruct s as [|a s]; cbn [truthy String.eqb negb]; cbn beta iota; [exact Hg|].
  unfold get. by rewrite lookup_insert_eq.
Qed.

(** The flags of a parsed row.  Each of the two flags of a claim built from
    a row is missing, the empty string or a boolean, and a boolean exactly
    when its cell is not empty; so the boolean check of [validateClaim]
    rejects the claim of a row whose flag cell is empty, and accepts the
    flags of every other row. *)
Theorem row_claim_flags (headers values : list string) (flag : string) :
  flag ∈ ClaimUtils.booleanFields →
  let v := get (BulkUtils.row_claim headers values) flag in
  (v = JUndefined ∨ v = JStr EmptyString ∨ ∃ b, v = JBool b)
  ∧ (Spec.boolean_error flag v = [] ↔ v ≠ JStr EmptyString).
Proof.
  intros Hflag v.
  assert (Hshape : v = JUndefined ∨ v = JStr EmptyString ∨ ∃ b, v = JBool b).
  { subst v. unfold BulkUtils.row_claim.
    pose proof (fold_assign_get (zip headers values) ∅ flag) as Hraw.
    set (raw := fold_left BulkUtils.assign (zip headers values) ∅) in *.
    specialize (Hraw (or_introl eq_refl)).
    unfold ClaimUtils.booleanFields in Hflag.
    apply elem_of_cons in Hflag as [->|Hflag];
      [|apply list_elem_of_singleton in Hflag as ->].
    - rewrite convert_flag_get_ne by done. rewrite convert_flag_get_eq.
      destruct Hraw as [-> | [s ->]]; [by left|].
      destruct (String.eqb_spec s EmptyString) as [->|_]; eauto.
    - rewrite convert_flag_get_eq.
      rewrite convert_flag_get_ne by done.
      destruct Hraw as [-> | [s ->]]; [by left|].
      destruct (String.eqb_spec s EmptyString) as [->|_]; eauto. }
  split; [exact Hshape|].
  destruct Hshape as [-> | [-> | [b ->]]]; unfold Spec.boolean_error; simpl;
    split; done.
Qed.

(** The flags at a row with an empty flag cell: the claim keeps the empty
    string, which the validator rejects. *)
Lemma row_claim_flags_witness :
  "ex_gratia_flag" ∈ ClaimUtils.booleanFields
  ∧ get (BulkUtils.row_claim ["summary"; "ex_gratia_flag"] ["a routine check-up"; EmptyString])
        "ex_gratia_flag" = JStr EmptyString
  ∧ Spec.boolean_error "ex_gratia_flag"
      (get (BulkUtils.row_claim ["summary"; "ex_gratia_flag"]
              ["a routine check-up"; EmptyString]) "ex_gratia_flag") ≠ [].
Proof.
  assert (Hin : "ex_gratia_flag" ∈ ClaimUtils.booleanFields)
    by (apply list_elem_of_In; simpl; tauto).
  split; [exact Hin|]. split; [reflexivity|].
  destruct (row_claim_flags ["summary"; "ex_gratia_flag"]
              ["a routine check-up"; EmptyString] "ex_gratia_flag" Hin) as [_ Hiff].
  intros Hnil. by apply (proj1 Hiff Hnil).
Defined.

Lemma validateBulk_fold (rt : Runtime) (claims : list Obj)
    (r : BulkUtils.BulkReport) (i : nat) :
  fold_left (BulkUtils.validateBulk_step rt) claims (r, i)
  = ({| BulkUtils.valid := BulkUtils.valid r ++ More.valid_from rt i claims;
        BulkUtils.invalid := BulkUtils.invalid r ++ More.invalid_from rt i claims;
        BulkUtils.totalCount := BulkUtils.totalCount r;
        BulkUtils.validCount :=
          BulkUtils.validCount r + length (More.valid_from rt i claims);
        BulkUtils.invalidCount :=
          BulkUtils.invalidCount r + length (More.invalid_from rt i claims) |},
     i + length claims).
Proof.
  revert r i. induction claims as [|c claims IH]; intros r i.
  - simpl. rewrite !app_nil_r, !Nat.add_0_r. by destruct r.
  - cbn [fold_left BulkUtils.validateBulk_step More.valid_from More.invalid_from].
    destruct (ClaimUtils.isValid (ClaimUtils.validateClaim rt c)); rewrite IH;
      cbn [BulkUtils.valid BulkUtils.invalid BulkUtils.totalCount
           BulkUtils.validCount BulkUtils.invalidCount app length];
      unfold push; rewrite <- ?app_assoc, ?app_nil_r; cbn [app];
      rewrite <- ?Nat.add_succ_comm; reflexivity.
Qed.

Lemma valid_from_elem (rt : Runtime) (i : nat) (claims : list Obj)
    (e : BulkUtils.BulkEntry) :
  e ∈ More.valid_from rt i claims
  ↔ ∃ j c, claims !! j = Some c
           ∧ ClaimUtils.isValid (ClaimUtils.validateClaim rt c) = true
           ∧ e = {| BulkUtils.index := i + j; BulkUtils.claim := c;
                    BulkUtils.entry_errors := [] |}.
Proof.
  revert i. induction claims as [|c claims IH]; intros i.
  - simpl. split; [intros H; by apply elem_of_nil in H|].
    intros (j & c & H & _). discriminate H.
  - cbn [More.valid_from]. rewrite elem_of_app, IH. split.
    + intros [Hhere|(j & c' & Hj & Hv & ->)].
      * destruct (ClaimUtils.isValid (ClaimUtils.validateClaim rt c)) eqn:Hc;
          [|by apply elem_of_nil in Hhere].
        apply list_elem_of_singleton in Hhere as ->. exists 0, c.
        by rewrite Nat.add_0_r.
      * exists (S j), c'. by rewrite <- Nat.add_succ_comm.
    + intros ([|j] & c' & Hj & Hv & ->).
      * injection Hj as <-. left. rewrite Hv, Nat.add_0_r. apply list_elem_of_here.
      * right. exists j, c'. by rewrite Nat.add_succ_comm.
Qed.

Lemma invalid_from_elem (rt : Runtime) (i : nat) (claims : list Obj)
    (e : BulkUtils.BulkEntry) :
  e ∈ More.invalid_from rt i claims
  ↔ ∃ j c, claims !! j = Some c
           ∧ ClaimUtils.isValid (ClaimUtils.validateClaim rt c) = false
           ∧ e = {| BulkUtils.index := i + j; BulkUtils.claim := c;
                    BulkUtils.entry_errors :=
                      ClaimUtils.errors (ClaimUtils.validateClaim rt c) |}.
Proof.
  revert i. induction claims as [|c claims IH]; intros i.
  - simpl. split; [intros H; by apply elem_of_nil in H|].
    intros (j & c & H & _). discriminate H.
  - cbn [More.invalid_from]. rewrite elem_of_app, IH. split.
    + intros [Hhere|(j & c' & Hj & Hv & ->)].
      * destruct (ClaimUtils.isValid (ClaimUtils.validateClaim rt c)) eqn:Hc;
          [by apply elem_of_nil in Hhere|].
        apply list_elem_of_singleton in Hhere as ->. exists 0, c.
        by rewrite Nat.add_0_r.
      * exists (S j), c'. by rewrite <- Nat.add_succ_comm.
    + intros ([|j] & c' & Hj & Hv & ->).
      * injection Hj as <-. left. rewrite Hv, Nat.add_0_r. apply list_elem_of_here.
      * right. exists j, c'. by rewrite Nat.add_succ_comm.
Qed.

Lemma valid_invalid_length (rt : Runtime) (i : nat) (claims : list Obj) :
  length (More.valid_from rt i claims) + length (More.invalid_from rt i claims)
  = length claims.
Proof.
  revert i. induction claims as [|c claims IH]; intros i; [done|].
  cbn [More.valid_from More.invalid_from]. rewrite !length_app.
  specialize (IH (S i)).
  destruct (ClaimUtils.isValid (ClaimUtils.validateClaim rt c)); simpl; lia.
Qed.

(** [validateBulkClaims] splits the claims in two.  The report counts all
    claims, the two counters are the lengths of the two lists and add up to
    the total; the valid list holds, with its position, exactly each claim
    that [validateClaim] accepts, and the invalid list exactly each claim it
    rejects, with the errors it reports. *)
Theorem validateBulkClaims_partition (rt : Runtime) (claims : list Obj) :
  let r := BulkUtils.validateBulkClaims rt claims in
  BulkUtils.totalCount r = length claims
  ∧ BulkUtils.validCount r = length (BulkUtils.valid r)
  ∧ BulkUtils.invalidCount r = length (BulkUtils.invalid r)
  ∧ BulkUtils.validCount r + BulkUtils.invalidCount r = BulkUtils.totalCount r
  ∧ (∀ e, e ∈ BulkUtils.valid r
          ↔ ∃ j c, claims !! j = Some c
                   ∧ ClaimUtils.isValid (ClaimUtils.validateClaim rt c) = true
                   ∧ e = {| BulkUtils.index := j; BulkUtils.claim := c;
                            BulkUtils.entry_errors := [] |})
  ∧ (∀ e, e ∈ BulkUtils.invalid r
          ↔ ∃ j c, claims !! j = Some c
                   ∧ ClaimUtils.isValid (ClaimUtils.validateClaim rt c) = false
                   ∧ e = {| BulkUtils.index := j; BulkUtils.claim := c;
                            BulkUtils.entry_errors :=
                              ClaimUtils.errors (ClaimUtils.validateClaim rt c) |})
  ∧ StronglySorted lt (BulkUtils.index <$> BulkUtils.valid r)
  ∧ StronglySorted lt (BulkUtils.index <$> BulkUtils.invalid r).
Proof.
  intros r. subst r. unfold BulkUtils.validateBulkClaims.
  rewrite validateBulk_fold.
  cbn [fst BulkUtils.valid BulkUtils.invalid BulkUtils.totalCount
       BulkUtils.validCount BulkUtils.invalidCount app Nat.add].
  split; [reflexivity|]. split; [reflexivity|]. split; [reflexivity|].
  split; [apply valid_invalid_length|].
  split; [intros e; apply (valid_from_elem rt 0)|].
  split; [intros e; apply (invalid_from_elem rt 0)|].
  split.
  - generalize 0. induction claims as [|c claims IH]; intros i; [constructor|].
    cbn [More.valid_from].
    destruct (ClaimUtils.isValid (ClaimUtils.validateClaim rt c)); [|apply IH].
    cbn [app fmap list_fmap BulkUtils.index]. constructor; [apply IH|].
    apply Forall_forall. intros n Hn.
    apply list_elem_of_fmap in Hn as (e & -> & He).
    apply valid_from_elem in He as (j & c' & _ & _ & ->). simpl. lia.
  - generalize 0. induction claims as [|c claims IH]; intros i; [constructor|].
    cbn [More.invalid_from].
    destruct (ClaimUtils.isValid (ClaimUtils.validateClaim rt c)); [apply IH|].
    cbn [app fmap list_fmap BulkUtils.index]. constructor; [apply IH|].
    apply Forall_forall. intros n Hn.
    apply list_elem_of_fmap in Hn as (e & -> & He).
    apply invalid_from_elem in He as (j & c' & _ & _ & ->). simpl. lia.
Qed.

Section BulkSubmission.

Context {Remote : Type} (be : Backend Remote) (rt : Runtime).

Lemma invalid_from_nil (i : nat) (claims : list Obj) :
  More.invalid_from rt i claims = []
  ↔ Forall (λ c, ClaimUtils.isValid (ClaimUtils.validateClaim rt c) = true) claims.
Proof.
  revert i. induction claims as [|c claims IH]; intros i; [by split|].
  cbn [More.invalid_from]. rewrite Forall_cons, <- (IH (S i)).
  destruct (ClaimUtils.isValid (ClaimUtils.validateClaim rt c)); simpl.
  - split; [by intros H | by intros [_ H]].
  - split; [discriminate | by intros [H _]].
Qed.

Lemma validate_all_nil (claims : list Obj) :
  UseClaims.validate_all rt claims 0 [] = []
  ↔ Forall (λ c, ClaimUtils.isValid (ClaimUtils.validateClaim rt c) = true) claims.
Proof.
  split.
  - intros Hnil. apply Forall_forall. intros c Hc.
    apply list_elem_of_lookup in Hc as [i Hi].
    destruct (ClaimUtils.isValid (ClaimUtils.validateClaim rt c)) eqn:Hv; [done|].
    assert (Hin : UseClaims.validation_line rt (0 + i) c
                  ∈ UseClaims.validate_all rt claims 0 []).
    { apply validate_all_elem. right. by exists i, c. }
    rewrite Hnil in Hin. by apply elem_of_nil in Hin.
  - intros Hvalid.
    destruct (UseClaims.validate_all rt claims 0 []) as [|l ls] eqn:Hl; [done|].
    assert (Hin : l ∈ UseClaims.validate_all rt claims 0 [])
      by (rewrite Hl; apply list_elem_of_here).
    apply validate_all_elem in Hin as [Hin|(i & c & Hi & Hbad & _)];
      [by apply elem_of_nil in Hin|].
    rewrite Forall_forall in Hvalid.
    apply list_elem_of_lookup_2 in Hi. rewrite (Hvalid c Hi) in Hbad. discriminate.
Qed.

(** The bulk validator decides what the hook does with a batch.  When it
    reports no invalid claim of a non-empty list, [submitBatchClaims] of
    the hook passes its own validation and posts every claim: it returns a
    summary of all of them and leaves no error.  When it reports an invalid
    claim, the hook throws its validation error, records it, and sends
    nothing. *)
Theorem bulk_report_decides_batch (claims : list Obj) (h : UseClaims.HookState)
    (w : World Remote) :
  let r := BulkUtils.validateBulkClaims rt claims in
  let run := UseClaims.submitBatchClaims be rt claims h w in
  (BulkUtils.invalidCount r = 0 → claims ≠ [] →
   ∃ summary,
     run.1.1 = Ret summary
     ∧ Api.total summary = length claims
     ∧ Api.successful summary + Api.failed summary = length claims
     ∧ length (sent run.2) = length (sent w) + length claims
     ∧ run.1.2 = {| UseClaims.claims := UseClaims.claims h;
                    UseClaims.loading := false; UseClaims.error := None |})
  ∧ (0 < BulkUtils.invalidCount r →
     ∃ message,
       run = (Throw message,
              {| UseClaims.claims := UseClaims.claims h;
                 UseClaims.loading := false; UseClaims.error := Some message |},
              w)
       ∧ message
         = "Validation failed:" +:+ UseClaims.newline
           +:+ join UseClaims.newline (UseClaims.validate_all rt claims 0 [])).
Proof.
  intros r run.
  assert (Hcount : BulkUtils.invalidCount r = length (More.invalid_from rt 0 claims)).
  { subst r. unfold BulkUtils.validateBulkClaims. by rewrite validateBulk_fold. }
  split.
  - intros Hzero Hne. rewrite Hcount in Hzero. apply nil_length_inv in Hzero.
    apply invalid_from_nil in Hzero as Hvalid.
    pose proof (proj2 (validate_all_nil claims) Hvalid) as Hnil.
    pose proof (post_all_length be rt claims (remote w)) as Hlen.
    set (outcomes := (Spec.post_all be rt claims (remote w)).1) in *.
    assert (Hrun : run
                   = (Ret {| Api.total := length claims;
                             Api.successful := length (Spec.successes 0 outcomes);
                             Api.failed := length (Spec.failures 0 claims outcomes);
                             Api.results := Spec.successes 0 outcomes;
                             Api.errors := Spec.failures 0 claims outcomes |},
                      {| UseClaims.claims := UseClaims.claims h;
                         UseClaims.loading := false; UseClaims.error := None |},
                      {| remote := (Spec.post_all be rt claims (remote w)).2;
                         sent := sent w ++ ((λ o, POST_claims o.1) <$> outcomes) |})).
    { subst run. unfold UseClaims.submitBatchClaims, UseClaims.submitBatchClaims_try.
      rewrite Hnil. cbn [length Nat.ltb Nat.leb].
      unfold io_bind, Api.submitBatchClaims.
      replace (length claims =? 0) with false
        by (symmetry; apply Nat.eqb_neq; by destruct claims).
      unfold io_bind. rewrite (submit_loop_spec be rt claims 0 [] [] w Hvalid).
      reflexivity. }
    rewrite Hrun. cbn [fst snd]. eexists. split; [reflexivity|].
    cbn [Api.total Api.successful Api.failed sent].
    split; [reflexivity|].
    split; [by apply successes_failures_length|].
    split; [by rewrite length_app, length_fmap, Hlen | reflexivity].
  - intros Hpos. rewrite Hcount in Hpos.
    assert (Hlines : UseClaims.validate_all rt claims 0 [] ≠ []).
    { intros Hnil. apply validate_all_nil in Hnil.
      apply (invalid_from_nil 0) in Hnil. rewrite Hnil in Hpos. simpl in Hpos. lia. }
    subst run. unfold UseClaims.submitBatchClaims, UseClaims.submitBatchClaims_try.
    destruct (UseClaims.validate_all rt claims 0 []) as [|l ls]; [done|].
    cbn [length Nat.ltb Nat.leb]. eexists. split; reflexivity.
Qed.

End BulkSubmission.

(** The statement at the three sample claims, which the bulk validator
    accepts, and at a batch with two invalid claims. *)
Lemma bulk_report_decides_batch_witness :
  (BulkUtils.invalidCount (BulkUtils.validateBulkClaims Fixtures.rt Fixtures.three_claims) = 0
   ∧ Fixtures.three_claims ≠ []
   ∧ 0 < BulkUtils.invalidCount
           (BulkUtils.validateBulkClaims Fixtures.rt Fixtures.mixed_claims))
  ∧ (∃ summary,
       (UseClaims.submitBatchClaims Fixtures.be_second_fails Fixtures.rt
          Fixtures.three_claims Fixtures.idle_hook Fixtures.fresh_world).1.1
       = Ret summary
       ∧ Api.total summary = 3)
  ∧ sent (UseClaims.submitBatchClaims Fixtures.be_second_fails Fixtures.rt
            Fixtures.mixed_claims Fixtures.idle_hook Fixtures.fresh_world).2 = [].
Proof.
  assert (H0 : BulkUtils.invalidCount
                 (BulkUtils.validateBulkClaims Fixtures.rt Fixtures.three_claims) = 0)
    by (vm_compute; reflexivity).
  assert (Hne : Fixtures.three_claims ≠ []) by discriminate.
  assert (H2 : 0 < BulkUtils.invalidCount
                     (BulkUtils.validateBulkClaims Fixtures.rt Fixtures.mixed_claims))
    by (vm_compute; lia).
  split; [by repeat split|]. split.
  - destruct (bulk_report_decides_batch Fixtures.be_second_fails Fixtures.rt
                Fixtures.three_claims Fixtures.idle_hook Fixtures.fresh_world)
      as [Hok _].
    destruct (Hok H0 Hne) as (summary & Hrun & Htotal & _).
    exists summary. split; [exact Hrun | exact Htotal].
  - destruct (bulk_report_decides_batch Fixtures.be_second_fails Fixtures.rt
                Fixtures.mixed_claims Fixtures.idle_hook Fixtures.fresh_world)
      as [_ Hbad].
    destruct (Hbad H2) as (message & Hrun & _). by rewrite Hrun.
Defined.

(** ** Further properties: from the form to the validator *)

Lemma push_not_nil {A} (l : list A) (x : A) : push l x ≠ [].
Proof. unfold push. by destruct l. Qed.

Lemma validateField_nil_required (rt : Runtime) (f : string) (v : JsVal)
    (cfg : FormUtils.FieldConfig) :
  FormUtils.validateField rt f v cfg = [] →
  FormUtils.required cfg = true →
  ClaimUtils.blank_or_missing v = false.
Proof.
  intros Hnil Hreq. unfold FormUtils.validateField in Hnil. rewrite Hreq in Hnil.
  destruct (ClaimUtils.blank_or_missing v); [|done].
  by apply push_not_nil in Hnil.
Qed.

Lemma validateField_nil_uuid (rt : Runtime) (f label : string) (v : JsVal) :
  FormUtils.validateField rt f v
    {| FormUtils.label := label; FormUtils.required := true;
       FormUtils.validation := Some FormUtils.uuid_validation |} = [] →
  ClaimUtils.uuidRegex_test rt v = true.
Proof.
  intros Hnil. unfold FormUtils.validateField in Hnil.
  cbn [FormUtils.required FormUtils.validation FormUtils.label andb] in Hnil.
  destruct (ClaimUtils.blank_or_missing v); [by apply push_not_nil in Hnil|].
  cbn [mbind option_bind FormUtils.uuid_validation FormUtils.pattern
       FormUtils.minLength FormUtils.maxLength FormUtils.bound] in Hnil.
  unfold ClaimUtils.uuidRegex_test.
  destruct (ClaimUtils.uuid_match (ToString rt v)); [done|].
  cbn [negb] in Hnil. by apply push_not_nil in Hnil.
Qed.

Lemma get_insert_eq (o : Obj) (k : string) (v : JsVal) : get (<[k := v]> o) k = v.
Proof. unfold get. by rewrite lookup_insert_eq. Qed.

Lemma get_insert_ne (o : Obj) (k k' : string) (v : JsVal) :
  k ≠ k' → get (<[k := v]> o) k' = get o k'.
Proof. intros Hk. unfold get. by rewrite lookup_insert_ne. Qed.

(** What [formatFormDataForApi] returns, property by property. *)
Lemma formatFormDataForApi_get (toISOString : string → Res string)
    (formData apiData : Obj) :
  FormData.formatFormDataForApi toISOString formData = Ret apiData →
  (∀ k, k ≠ "submission_date" → k ≠ "ex_gratia_flag" → k ≠ "appeal_case_flag" →
        k ≠ "reason_code" → k ≠ "reason_description" →
        get apiData k = get formData k)
  ∧ get apiData "ex_gratia_flag" = JBool (truthy (get formData "ex_gratia_flag"))
  ∧ get apiData "appeal_case_flag" = JBool (truthy (get formData "appeal_case_flag"))
  ∧ get apiData "reason_code" = FormData.or_null (get formData "reason_code")
  ∧ get apiData "reason_description"
    = FormData.or_null (get formData "reason_description")
  ∧ match get formData "submission_date" with
    | JStr s =>
        if String.eqb s EmptyString
        then get apiData "submission_date" = JStr s
        else ∃ iso, toISOString s = Ret iso
                    ∧ get apiData "submission_date" = JStr iso
    | v => get apiData "submission_date" = v
    end.
Proof.
  unfold FormData.formatFormDataForApi.
  set (converted := match get formData "submission_date" with
                    | JStr s => _
                    | _ => _
                    end).
  intros Hrun.
  assert (Hconv : ∃ mid, converted = Ret mid
                  ∧ (∀ k, k ≠ "submission_date" → get mid k = get formData k)
                  ∧ match get formData "submission_date" with
                    | JStr s =>
                        if String.eqb s EmptyString
                        then get mid "submission_date" = JStr s
                        else ∃ iso, toISOString s = Ret iso
                                    ∧ get mid "submission_date" = JStr iso
                    | v => get mid "submission_date" = v
                    end).
  { subst converted.
    destruct (get formData "submission_date") as [| | | |s] eqn:Hd;
      try (exists formData; by repeat split).
    destruct s as [|a s]; cbn [truthy String.eqb negb] in *.
    - exists formData. by repeat split.
    - destruct (toISOString (String a s)) as [iso|message] eqn:Hiso;
        [|discriminate Hrun].
      exists (<["submission_date" := JStr iso]> formData).
      split; [reflexivity|]. split.
      + intros k Hk. by rewrite get_insert_ne.
      + exists iso. by rewrite get_insert_eq. }
  destruct Hconv as (mid & Hmid & Hother & Hdate). rewrite Hmid in Hrun.
  injection Hrun as <-.
  split; [|split; [|split; [|split; [|split]]]].
  - intros k H1 H2 H3 H4 H5. rewrite !get_insert_ne by done. by apply Hother.
  - rewrite !get_insert_ne by done. rewrite get_insert_eq. by rewrite Hother.
  - rewrite !get_insert_ne by done. rewrite get_insert_eq.
    rewrite get_insert_ne by done. by rewrite Hother.
  - rewrite get_insert_ne by done. rewrite get_insert_eq.
    rewrite !get_insert_ne by done. by rewrite Hother.
  - rewrite get_insert_eq. rewrite !get_insert_ne by done. by rewrite Hother.
  - destruct (get formData "submission_date") as [| | | |s];
      rewrite !get_insert_ne by done; exact Hdate.
Qed.

(** From the form to the validator.  When [validateForm] accepts the form
    data and [formatFormDataForApi] converts them, [validateClaim] has
    nothing to report on the converted data beyond the status: its required,
    identifier, flag and date checks all pass, given that the engine parses
    back the ISO strings it prints and that the submission date of the form
    is a string or missing. *)
Theorem formatted_form_data_validate (rt : Runtime) (toISOString : string → Res string)
    (formData apiData : Obj) :
  (∀ s iso, toISOString s = Ret iso → Date_parse_ok rt iso = true) →
  (get formData "submission_date" = JUndefined
   ∨ ∃ s, get formData "submission_date" = JStr s) →
  FormUtils.isValid (FormUtils.validateForm rt formData) = true →
  FormData.formatFormDataForApi toISOString formData = Ret apiData →
  ClaimUtils.errors (ClaimUtils.validateClaim rt apiData)
  = Spec.status_error (get formData "status")
  ∧ (ClaimUtils.isValid (ClaimUtils.validateClaim rt apiData) = true
     ↔ ClaimUtils.statuses_include (get formData "status") = true).
Proof.
  intros Hiso Hdate Hform Hrun.
  destruct (formatFormDataForApi_get toISOString formData apiData Hrun)
    as (Hother & Hex & Hap & _ & _ & Hsub).
  pose proof (proj1 (proj2 (validateForm_spec rt formData)) Hform) as Hfields.
  assert (Hfield : ∀ f cfg, In (f, cfg) FormUtils.CLAIM_FORM_FIELDS →
                            FormUtils.validateField rt f (get formData f) cfg = []).
  { intros f cfg Hin. apply Hfields. by apply list_elem_of_In. }
  assert (Hprovider : get apiData "provider_id" = get formData "provider_id")
    by (by apply Hother).
  assert (Hrisk : get apiData "risk_id" = get formData "risk_id")
    by (by apply Hother).
  assert (Hpatient : get apiData "patient_id" = get formData "patient_id")
    by (by apply Hother).
  assert (Hpolicy : get apiData "policy_id" = get formData "policy_id")
    by (by apply Hother).
  assert (Hsummary : get apiData "summary" = get formData "summary")
    by (by apply Hother).
  assert (Hstatus : get apiData "status" = get formData "status")
    by (by apply Hother).
  pose proof (Hfield "provider_id" _ (or_introl eq_refl)) as F1.
  pose proof (Hfield "risk_id" _ (or_intror (or_introl eq_refl))) as F2.
  pose proof (Hfield "patient_id" _ (or_intror (or_intror (or_introl eq_refl)))) as F3.
  pose proof (Hfield "policy_id" _
                (or_intror (or_intror (or_intror (or_introl eq_refl))))) as F4.
  pose proof (Hfield "summary" _
                (or_intror (or_intror (or_intror (or_intror (or_introl eq_refl))))))
    as F5.
  pose proof (Hfield "status" _
                (or_intror (or_intror (or_intror (or_intror
                   (or_intror (or_introl eq_refl))))))) as F6.
  assert (Herrors : ClaimUtils.errors (ClaimUtils.validateClaim rt apiData)
                    = Spec.status_error (get formData "status")).
  { rewrite validateClaim_errors.
    unfold ClaimUtils.requiredFields, ClaimUtils.uuidFields, ClaimUtils.booleanFields.
    cbn [flat_map]. rewrite Hprovider, Hrisk, Hpatient, Hpolicy, Hsummary, Hstatus,
      Hex, Hap.
    unfold Spec.required_error.
    rewrite (validateField_nil_required rt _ _ _ F1 eq_refl),
      (validateField_nil_required rt _ _ _ F2 eq_refl),
      (validateField_nil_required rt _ _ _ F3 eq_refl),
      (validateField_nil_required rt _ _ _ F4 eq_refl),
      (validateField_nil_required rt _ _ _ F5 eq_refl).
    unfold Spec.uuid_error.
    rewrite (validateField_nil_uuid rt _ _ _ F1), (validateField_nil_uuid rt _ _ _ F2),
      (validateField_nil_uuid rt _ _ _ F3), (validateField_nil_uuid rt _ _ _ F4).
    rewrite !andb_false_r. cbn [app Spec.boolean_error is_undefined typeof_boolean
                                negb andb].
    assert (Hd : Spec.date_error rt (get apiData "submission_date") = []).
    { destruct Hdate as [Hd | [s Hd]]; rewrite Hd in Hsub.
      - by rewrite Hsub.
      - destruct (String.eqb_spec s EmptyString) as [->|_].
        + by rewrite Hsub.
        + destruct Hsub as (iso & Hs & ->). unfold Spec.date_error.
          cbn [Date_valid]. rewrite (Hiso s iso Hs). by rewrite andb_false_r. }
    rewrite Hd. by rewrite app_nil_r. }
  split; [exact Herrors|].
  rewrite validateClaim_isValid, Herrors. unfold Spec.status_error.
  pose proof (validateField_nil_required rt _ _ _ F6 eq_refl) as Hs.
  apply blank_false_truthy in Hs. rewrite Hs. cbn [andb].
  by destruct (ClaimUtils.statuses_include (get formData "status")).
Qed.

(** The statement at the sample claim as form data, with a date the engine
    accepts. *)
Lemma formatted_form_data_validate_witness :
  let formData :=
    <["submission_date" := JStr "2025-07-20T23:20"]>
      (Fixtures.sample_claim "a routine check-up") in
  let toISOString := λ _ : string, Ret Fixtures.fixed_instant in
  FormUtils.isValid (FormUtils.validateForm Fixtures.rt formData) = true
  ∧ ∃ apiData,
      FormData.formatFormDataForApi toISOString formData = Ret apiData
      ∧ get apiData "submission_date" = JStr Fixtures.fixed_instant
      ∧ ClaimUtils.errors (ClaimUtils.validateClaim Fixtures.rt apiData) = [].
Proof.
  intros formData toISOString.
  assert (Hform : FormUtils.isValid (FormUtils.validateForm Fixtures.rt formData) = true)
    by (vm_compute; reflexivity).
  split; [exact Hform|]. eexists. split; [reflexivity|]. split; [reflexivity|].
  refine (proj1 (formatted_form_data_validate Fixtures.rt toISOString formData _
                   (λ _ _ _, eq_refl) (or_intror (ex_intro _ _ eq_refl)) Hform eq_refl)).
Defined.

(** ** Further properties: the hook *)

Section HookProperties.

Context {Remote : Type} (be : Backend Remote) (rt : Runtime).

(** [submitClaim] of the hook.  A claim that fails validation is not sent:
    the call throws the validation message, records it as the error and
    leaves the claims as they are.  A claim that passes is posted once,
    with the defaults filled in; the answer is put in front of the claims on
    success, and the message of the failure is recorded otherwise.  The
    loading flag is off in every case. *)
Theorem hook_submitClaim_outcomes (claimData : Obj) (h : UseClaims.HookState)
    (w : World Remote) :
  let validation := ClaimUtils.validateClaim rt claimData in
  let run := UseClaims.submitClaim be rt claimData h w in
  let body := spread (Api.claim_defaults (clock be (remote w))) claimData in
  let answer := Api.responseInterceptor rt (create_claim be body (remote w)).1 in
  (ClaimUtils.isValid validation = false →
   let message :=
     "Validation failed: " +:+ join ", " (ClaimUtils.errors validation) in
   run = (Throw message,
          {| UseClaims.claims := UseClaims.claims h; UseClaims.loading := false;
             UseClaims.error := Some message |}, w))
  ∧ (ClaimUtils.isValid validation = true →
     run = (answer,
            match answer with
            | Ret result =>
                {| UseClaims.claims := result :: UseClaims.claims h;
                   UseClaims.loading := false; UseClaims.error := None |}
            | Throw message =>
                {| UseClaims.claims := UseClaims.claims h;
                   UseClaims.loading := false; UseClaims.error := Some message |}
            end,
            {| remote := (create_claim be body (remote w)).2;
               sent := sent w ++ [POST_claims body] |})).
Proof.
  intros validation run body answer. subst run validation.
  unfold UseClaims.submitClaim, UseClaims.submitClaim_try. split.
  - intros Hbad. rewrite Hbad. reflexivity.
  - intros Hok. rewrite Hok. cbn [negb].
    rewrite (submitClaim_valid be rt claimData w Hok). fold body. fold answer.
    by destruct answer.
Qed.

Lemma merge_result_other (claimId : JsVal) (result claim : Obj) :
  Api.strict_eq (get claim "claim_id") claimId = false →
  Api.strict_eq (get claim "id") claimId = false →
  UseClaims.merge_result claimId result claim = claim.
Proof. intros H1 H2. unfold UseClaims.merge_result. by rewrite H1, H2. Qed.

(** [updateClaimStatus] of the hook sends one PUT request for the claim,
    with the status and the two reasons, a missing reason being [null].  On
    success every local claim whose [claim_id] or [id] is the identifier
    takes the properties of the answer over its own, and every other claim,
    as the number and the order of the claims, stays as it is; on failure
    the claims stay and the message is recorded. *)
Theorem hook_updateClaimStatus_merges (claimId status reasonCode reasonDescription : JsVal)
    (h : UseClaims.HookState) (w : World Remote) :
  let updateData : Obj :=
    {[ "status" := status;
       "reason_code" := UseClaims.default_null reasonCode;
       "reason_description" := UseClaims.default_null reasonDescription ]} in
  let answer :=
    Api.responseInterceptor rt (update_claim be claimId updateData (remote w)).1 in
  let run := UseClaims.updateClaimStatus be rt claimId status reasonCode
               reasonDescription h w in
  run.1.1 = answer
  ∧ run.2 = {| remote := (update_claim be claimId updateData (remote w)).2;
               sent := sent w ++ [PUT_claim claimId updateData] |}
  ∧ UseClaims.loading run.1.2 = false
  ∧ length (UseClaims.claims run.1.2) = length (UseClaims.claims h)
  ∧ match answer with
    | Throw message =>
        UseClaims.claims run.1.2 = UseClaims.claims h
        ∧ UseClaims.error run.1.2 = Some message
    | Ret result =>
        UseClaims.error run.1.2 = None
        ∧ ∀ i claim, UseClaims.claims h !! i = Some claim →
            UseClaims.claims run.1.2 !! i
            = Some (if Api.strict_eq (get claim "claim_id") claimId
                       || Api.strict_eq (get claim "id") claimId
                    then spread claim result else claim)
    end.
Proof.
  intros updateData answer run. subst run answer.
  unfold UseClaims.updateClaimStatus, Api.updateClaimStatus, Api.call.
  fold updateData.
  destruct (update_claim be claimId updateData (remote w)) as [r remote'].
  cbn [fst snd].
  destruct (Api.responseInterceptor rt r) as [result|message];
    cbn [fst snd UseClaims.setClaims UseClaims.setError UseClaims.setLoading
         UseClaims.claims UseClaims.loading UseClaims.error].
  - repeat split; [by rewrite length_fmap|].
    intros i claim Hi. by rewrite list_lookup_fmap, Hi.
  - by repeat split.
Qed.

Lemma hook_update_run (id status reasonCode reasonDescription : JsVal)
    (h : UseClaims.HookState) (w : World Remote) :
  ∃ r h' w',
    UseClaims.updateClaimStatus be rt id status reasonCode reasonDescription h w
    = (r, h', w')
    ∧ sent w' = sent w ++ [PUT_claim id
                             {[ "status" := status;
                                "reason_code" := UseClaims.default_null reasonCode;
                                "reason_description" :=
                                  UseClaims.default_null reasonDescription ]}]
    ∧ UseClaims.loading h' = false.
Proof.
  unfold UseClaims.updateClaimStatus, Api.updateClaimStatus, Api.call.
  destruct (update_claim be id _ (remote w)) as [r remote']. cbn [fst snd].
  destruct (Api.responseInterceptor rt r); eexists _, _, _; repeat split.
Qed.

Lemma batch_loop_spec (claimIds : list JsVal) (results : list Obj)
    (errors : list UseClaims.BatchError) (h : UseClaims.HookState) (w : World Remote) :
  ∃ results' errors' h' w',
    UseClaims.batch_loop be rt claimIds results errors h w
    = (results ++ results', errors ++ errors', h', w')
    ∧ length results' + length errors' = length claimIds
    ∧ sent w' = sent w ++ ((λ id, PUT_claim id
                              {[ "status" := JStr "Under Review";
                                 "reason_code" := JNull;
                                 "reason_description" := JStr "Batch processing" ]})
                           <$> claimIds)
    ∧ (∀ e, e ∈ errors' → UseClaims.claimId e ∈ claimIds)
    ∧ (claimIds ≠ [] → UseClaims.loading h' = false).
Proof.
  revert results errors h w.
  induction claimIds as [|id rest IH]; intros results errors h w.
  - exists [], [], h, w. simpl. rewrite !app_nil_r. repeat split; try done.
    intros e He. by apply elem_of_nil in He.
  - cbn [UseClaims.batch_loop].
    destruct (hook_update_run id (JStr "Under Review") JNull (JStr "Batch processing") h w)
      as (r & h1 & w1 & Hrun & Hput & Hload).
    rewrite Hrun. cbn [UseClaims.default_null is_undefined] in *.
    destruct r as [result|message].
    + destruct (IH (push results result) errors h1 w1)
        as (results' & errors' & h' & w' & Hloop & Hlen & Hsent & Herr & Hl).
      exists (result :: results'), errors', h', w'. rewrite Hloop. unfold push.
      rewrite <- app_assoc. split; [reflexivity|]. split; [simpl; lia|].
      split; [rewrite Hsent, Hput; cbn [fmap list_fmap]; by rewrite <- app_assoc|].
      split; [intros e He; apply list_elem_of_further; by apply Herr|].
      intros _. destruct rest as [|id' rest']; [|by apply Hl].
      simpl in Hloop. by injection Hloop as _ _ <- _.
    + destruct (IH results (push errors {| UseClaims.claimId := id;
                                          UseClaims.error_message := message |}) h1 w1)
        as (results' & errors' & h' & w' & Hloop & Hlen & Hsent & Herr & Hl).
      exists results', ({| UseClaims.claimId := id;
                           UseClaims.error_message := message |} :: errors'), h', w'.
      rewrite Hloop. unfold push. rewrite <- app_assoc.
      split; [reflexivity|]. split; [simpl; lia|].
      split; [rewrite Hsent, Hput; cbn [fmap list_fmap]; by rewrite <- app_assoc|].
      split.
      * intros e He. apply elem_of_cons in He as [->|He];
          [apply list_elem_of_here | apply list_elem_of_further; by apply Herr].
      * intros _. destruct rest as [|id' rest']; [|by apply Hl].
        simpl in Hloop. by injection Hloop as _ _ <- _.
Qed.

(** [processBatchClaims] never throws.  It sends one update per
    identifier, in order, each asking for the status Under Review; the
    outcome counts every identifier once, as a success or as a failure, the
    two counters being the lengths of the two lists, and every failure
    names an identifier of the batch.  The loading flag is off at the
    end. *)
Theorem hook_processBatchClaims_total (claimIds : list JsVal) (h : UseClaims.HookState)
    (w : World Remote) :
  ∃ outcome h' w',
    UseClaims.processBatchClaims be rt claimIds h w = (Ret outcome, h', w')
    ∧ UseClaims.successful outcome = length (UseClaims.results outcome)
    ∧ UseClaims.failed outcome = length (UseClaims.errors outcome)
    ∧ UseClaims.successful outcome + UseClaims.failed outcome = length claimIds
    ∧ sent w' = sent w ++ ((λ id, PUT_claim id
                              {[ "status" := JStr "Under Review";
                                 "reason_code" := JNull;
                                 "reason_description" := JStr "Batch processing" ]})
                           <$> claimIds)
    ∧ (∀ e, e ∈ UseClaims.errors outcome → UseClaims.claimId e ∈ claimIds)
    ∧ UseClaims.loading h' = false.
Proof.
  unfold UseClaims.processBatchClaims.
  destruct (batch_loop_spec claimIds [] []
              (UseClaims.setError None (UseClaims.setLoading true h)) w)
    as (results' & errors' & h' & w' & Hloop & Hlen & Hsent & Herr & _).
  rewrite Hloop. cbn [app]. eexists _, _, _. split; [reflexivity|].
  cbn [UseClaims.successful UseClaims.failed UseClaims.results UseClaims.errors
       UseClaims.setLoading UseClaims.loading].
  by repeat split.
Qed.

(** [fetchClaims] replaces the local claims by the fetched ones when the
    request succeeds, so that every local claim then agrees with each
    truthy filter on [status], [provider_id], [patient_id] and [policy_id];
    when the request fails it keeps the claims and records the message. *)
Theorem hook_fetchClaims_replaces (filters : Obj) (h : UseClaims.HookState)
    (w : World Remote) :
  let fetched := Api.getClaims be rt filters w in
  let run := UseClaims.fetchClaims be rt filters h w in
  run.1.1 = fetched.1 ∧ run.2 = fetched.2
  ∧ UseClaims.loading run.1.2 = false
  ∧ match fetched.1 with
    | Ret result =>
        UseClaims.claims run.1.2 = result
        ∧ UseClaims.error run.1.2 = None
        ∧ ∀ c name,
            c ∈ UseClaims.claims run.1.2 →
            name ∈ ["status"; "provider_id"; "patient_id"; "policy_id"] →
            truthy (get filters name) = true →
            Api.strict_eq (get c name) (get filters name) = true
    | Throw message =>
        UseClaims.claims run.1.2 = UseClaims.claims h
        ∧ UseClaims.error run.1.2 = Some message
    end.
Proof.
  intros fetched run. subst run fetched. unfold UseClaims.fetchClaims.
  pose proof (getClaims_filters be rt filters w) as (_ & _ & Hanswer).
  destruct (Api.getClaims be rt filters w) as [[result|message] w'];
    cbn [fst snd] in *; [|by repeat split].
  repeat split. intros c name Hc Hname.
  destruct (Api.responseInterceptor rt _) as [listed|message];
    [|discriminate Hanswer].
  destruct Hanswer as (claims & Heq & _ & Hall). injection Heq as <-.
  by apply (proj2 (proj1 (Hall c) Hc)).
Qed.

End HookProperties.

Lemma status_cases (c : Obj) :
  (∀ s, get c "status" ≠ JStr s)
  ∨ get c "status" = JStr "Submitted"
  ∨ get c "status" = JStr "Pending"
  ∨ get c "status" = JStr "Approved"
  ∨ get c "status" = JStr "Denied"
  ∨ get c "status" = JStr "Under Review"
  ∨ ∃ s, get c "status" = JStr s
         ∧ s ≠ "Submitted" ∧ s ≠ "Pending" ∧ s ≠ "Approved"
         ∧ s ≠ "Denied" ∧ s ≠ "Under Review".
Proof.
  destruct (get c "status") as [| | | |s]; try (by left).
  destruct (decide (s = "Submitted")) as [->|?]; [tauto|].
  destruct (decide (s = "Pending")) as [->|?]; [tauto|].
  destruct (decide (s = "Approved")) as [->|?]; [tauto|].
  destruct (decide (s = "Denied")) as [->|?]; [tauto|].
  destruct (decide (s = "Under Review")) as [->|?]; [tauto|].
  do 6 right. by exists s.
Qed.

Lemma count_status_fold (claims : list Obj) (stats : UseClaims.ClaimStats) :
  let count := λ s, length (filter (λ c, get c "status" = JStr s) claims) in
  fold_left UseClaims.count_status claims stats
  = {| UseClaims.stat_total := UseClaims.stat_total stats;
       UseClaims.submitted := UseClaims.submitted stats + count "Submitted";
       UseClaims.pending := UseClaims.pending stats + count "Pending";
       UseClaims.approved := UseClaims.approved stats + count "Approved";
       UseClaims.denied := UseClaims.denied stats + count "Denied";
       UseClaims.underReview := UseClaims.underReview stats + count "Under Review" |}.
Proof.
  intros count. subst count. revert stats.
  induction claims as [|c claims IH]; intros stats.
  - simpl. rewrite !Nat.add_0_r. by destruct stats.
  - cbn [fold_left]. rewrite IH. clear IH. rewrite !filter_cons.
    unfold UseClaims.count_status.
    pose proof (status_cases c) as Hcase.
    destruct Hcase as [Hnone|[Hs|[Hs|[Hs|[Hs|[Hs|(s & Hs & N1 & N2 & N3 & N4 & N5)]]]]]].
    + assert (Hstr : ∀ s, strict_eq_str (get c "status") s = false).
      { intros s. apply not_true_iff_false. rewrite strict_eq_str_spec. apply Hnone. }
      rewrite !Hstr.
      repeat (destruct (decide _) as [Heq|_]; [by apply Hnone in Heq|]).
      reflexivity.
    + rewrite Hs. cbn [strict_eq_str String.eqb Ascii.eqb Bool.eqb andb].
      repeat (destruct (decide _) as [?|?]; try discriminate; try done).
      all: cbn [UseClaims.stat_total UseClaims.submitted UseClaims.pending
                UseClaims.approved UseClaims.denied UseClaims.underReview length];
        f_equal; lia.
    + rewrite Hs. cbn [strict_eq_str String.eqb Ascii.eqb Bool.eqb andb].
      repeat (destruct (decide _) as [?|?]; try discriminate; try done).
      all: cbn [UseClaims.stat_total UseClaims.submitted UseClaims.pending
                UseClaims.approved UseClaims.denied UseClaims.underReview length];
        f_equal; lia.
    + rewrite Hs. cbn [strict_eq_str String.eqb Ascii.eqb Bool.eqb andb].
      repeat (destruct (decide _) as [?|?]; try discriminate; try done).
      all: cbn [UseClaims.stat_total UseClaims.submitted UseClaims.pending
                UseClaims.approved UseClaims.denied UseClaims.underReview length];
        f_equal; lia.
    + rewrite Hs. cbn [strict_eq_str String.eqb Ascii.eqb Bool.eqb andb].
      repeat (destruct (decide _) as [?|?]; try discriminate; try done).
      all: cbn [UseClaims.stat_total UseClaims.submitted UseClaims.pending
                UseClaims.approved UseClaims.denied UseClaims.underReview length];
        f_equal; lia.
    + rewrite Hs. cbn [strict_eq_str String.eqb Ascii.eqb Bool.eqb andb].
      repeat (destruct (decide _) as [?|?]; try discriminate; try done).
      all: cbn [UseClaims.stat_total UseClaims.submitted UseClaims.pending
                UseClaims.approved UseClaims.denied UseClaims.underReview length];
        f_equal; lia.
    + rewrite Hs. cbn [strict_eq_str].
      rewrite (proj2 (String.eqb_neq s "Submitted") N1),
        (proj2 (String.eqb_neq s "Pending") N2),
        (proj2 (String.eqb_neq s "Approved") N3),
        (proj2 (String.eqb_neq s "Denied") N4),
        (proj2 (String.eqb_neq s "Under Review") N5).
      repeat (destruct (decide _) as [Heq|_]; [by injection Heq|]).
      reflexivity.
Qed.

Lemma status_counts_sum (claims : list Obj) :
  let count := λ s, length (filter (λ c, get c "status" = JStr s) claims) in
  count "Submitted" + count "Pending" + count "Approved" + count "Denied"
  + count "Under Review"
  = length (filter (λ c, ClaimUtils.statuses_include (get c "status") = true) claims).
Proof.
  intros count. subst count. induction claims as [|c claims IH]; [done|].
  rewrite !filter_cons.
  destruct (status_cases c)
    as [Hnone|[Hs|[Hs|[Hs|[Hs|[Hs|(s & Hs & N1 & N2 & N3 & N4 & N5)]]]]]].
  - assert (Hout : ClaimUtils.statuses_include (get c "status") = false).
    { unfold ClaimUtils.statuses_include, ClaimUtils.validStatuses. cbn [existsb].
      assert (Hstr : ∀ s, strict_eq_str (get c "status") s = false).
      { intros s. apply not_true_iff_false. rewrite strict_eq_str_spec. apply Hnone. }
      by rewrite !Hstr. }
    rewrite Hout.
    repeat (destruct (decide _) as [Heq|_];
            [first [by apply Hnone in Heq | discriminate Heq]|]).
    exact IH.
  - rewrite Hs. change (ClaimUtils.statuses_include (JStr "Submitted")) with true.
    repeat (destruct (decide _) as [?|?]; try discriminate; try done).
    all: cbn [length]; lia.
  - rewrite Hs. change (ClaimUtils.statuses_include (JStr "Pending")) with true.
    repeat (destruct (decide _) as [?|?]; try discriminate; try done).
    all: cbn [length]; lia.
  - rewrite Hs. change (ClaimUtils.statuses_include (JStr "Approved")) with true.
    repeat (destruct (decide _) as [?|?]; try discriminate; try done).
    all: cbn [length]; lia.
  - rewrite Hs. change (ClaimUtils.statuses_include (JStr "Denied")) with true.
    repeat (destruct (decide _) as [?|?]; try discriminate; try done).
    all: cbn [length]; lia.
  - rewrite Hs. change (ClaimUtils.statuses_include (JStr "Under Review")) with true.
    repeat (destruct (decide _) as [?|?]; try discriminate; try done).
    all: cbn [length]; lia.
  - assert (Hout : ClaimUtils.statuses_include (get c "status") = false).
    { rewrite Hs. unfold ClaimUtils.statuses_include, ClaimUtils.validStatuses.
      cbn [existsb strict_eq_str].
      by rewrite (proj2 (String.eqb_neq s "Submitted") N1),
        (proj2 (String.eqb_neq s "Pending") N2),
        (proj2 (String.eqb_neq s "Approved") N3),
        (proj2 (String.eqb_neq s "Denied") N4),
        (proj2 (String.eqb_neq s "Under Review") N5). }
    rewrite Hout, Hs.
    repeat (destruct (decide _) as [Heq|_];
            [first [by injection Heq | discriminate Heq]|]).
    exact IH.
Qed.

(** [getClaimStats] counts the local claims: the total is their number,
    and each counter the number of claims whose status is strictly the
    string of its case.  A claim with any other status, or none, is counted
    in the total alone, so the five counters add up to the number of claims
    with one of the five statuses. *)
Theorem hook_getClaimStats_counts (h : UseClaims.HookState) :
  let stats := UseClaims.getClaimStats h in
  let count := λ s, length (filter (λ c, get c "status" = JStr s) (UseClaims.claims h)) in
  UseClaims.stat_total stats = length (UseClaims.claims h)
  ∧ UseClaims.submitted stats = count "Submitted"
  ∧ UseClaims.pending stats = count "Pending"
  ∧ UseClaims.approved stats = count "Approved"
  ∧ UseClaims.denied stats = count "Denied"
  ∧ UseClaims.underReview stats = count "Under Review"
  ∧ UseClaims.submitted stats + UseClaims.pending stats + UseClaims.approved stats
    + UseClaims.denied stats + UseClaims.underReview stats
    = length (filter (λ c, ClaimUtils.statuses_include (get c "status") = true)
                (UseClaims.claims h))
  ∧ UseClaims.submitted stats + UseClaims.pending stats + UseClaims.approved stats
    + UseClaims.denied stats + UseClaims.underReview stats
    ≤ UseClaims.stat_total stats.
Proof.
  intros stats count. subst stats. unfold UseClaims.getClaimStats.
  rewrite count_status_fold.
  cbn [UseClaims.stat_total UseClaims.submitted UseClaims.pending UseClaims.approved
       UseClaims.denied UseClaims.underReview Nat.add].
  do 6 (split; [reflexivity|]).
  pose proof (status_counts_sum (UseClaims.claims h)) as Hsum. cbn zeta in Hsum.
  subst count. cbn beta. split; [exact Hsum|]. rewrite Hsum. apply length_filter.
Qed.

(** ** Further properties: the store actions *)

Section StoreActions.

Context {Remote : Type} (be : Backend Remote) (rt : Runtime).

(** When the service call of [processPendingClaims] fails, the store action
    throws the same error and the batch is left open: [inProgress] stays
    true with progress 0, the message is the one entry of the batch errors
    and the error of the store, and the loading flag is off.  The claims
    and the statistics are untouched. *)
Theorem processPendingClaims_failure_leaves_batch_open (state : AppContext.AppState)
    (w w1 : World Remote) (message : string) :
  Api.getClaims be rt Spec.limit_100 w = (Throw message, w1) →
  ∃ state',
    AppContext.processPendingClaims be rt (state, w) = (Throw message, (state', w1))
    ∧ AppContext.batchProcessing state'
      = {| AppContext.inProgress := true; AppContext.progress := num 0;
           AppContext.results := []; AppContext.errors := [message] |}
    ∧ AppContext.error state' = Some message
    ∧ AppContext.loading state' = false
    ∧ AppContext.claims state' = AppContext.claims state
    ∧ AppContext.recentClaims state' = AppContext.recentClaims state
    ∧ AppContext.currentClaim state' = AppContext.currentClaim state
    ∧ AppContext.stats state' = AppContext.stats state.
Proof.
  intros Hget.
  assert (Hcall : Api.processPendingClaims be rt w = (Throw message, w1)).
  { unfold Api.processPendingClaims, io_bind.
    change ({[ "limit" := JNum (num 100) ]} : Obj) with Spec.limit_100.
    by rewrite Hget. }
  unfold AppContext.processPendingClaims, AppContext.dispatch. cbn [fst snd].
  rewrite Hcall. cbn [fst snd]. eexists. split; [reflexivity|]. by repeat split.
Qed.

(** The store action [processClaim] asks the service to put the claim
    under review.  On success the answer becomes a new claim of the store,
    the current one, in front of the claims and of the recent claims, which
    keep at most ten entries; on failure the message is recorded and the
    claims are untouched.  The loading flag is off in both cases. *)
Theorem processClaim_action_outcomes (claimId : JsVal) (state : AppContext.AppState)
    (w : World Remote) :
  let answer :=
    Api.responseInterceptor rt
      (update_claim be claimId Spec.under_review (remote w)).1 in
  let w' := {| remote := (update_claim be claimId Spec.under_review (remote w)).2;
               sent := sent w ++ [PUT_claim claimId Spec.under_review] |} in
  let run := AppContext.processClaim be rt claimId (state, w) in
  run.1 = answer ∧ run.2.2 = w'
  ∧ AppContext.loading run.2.1 = false
  ∧ match answer with
    | Ret result =>
        let c := AppContext.newClaim (clock be (remote w')) claimId result in
        AppContext.error run.2.1 = None
        ∧ AppContext.currentClaim run.2.1 = Some c
        ∧ AppContext.claims run.2.1 = c :: AppContext.claims state
        ∧ AppContext.recentClaims run.2.1 = c :: take 9 (AppContext.recentClaims state)
        ∧ length (AppContext.recentClaims run.2.1)
          ≤ max 10 (length (AppContext.recentClaims state))
    | Throw message =>
        AppContext.error run.2.1 = Some message
        ∧ AppContext.currentClaim run.2.1 = AppContext.currentClaim state
        ∧ AppContext.claims run.2.1 = AppContext.claims state
        ∧ AppContext.recentClaims run.2.1 = AppContext.recentClaims state
    end.
Proof.
  intros answer w' run. subst run answer w'.
  unfold AppContext.processClaim, AppContext.dispatch. cbn [fst snd].
  rewrite processClaim_run.
  destruct (update_claim be claimId Spec.under_review (remote w)) as [r remote'].
  cbn [fst snd].
  destruct (Api.responseInterceptor rt r) as [result|message]; cbn [fst snd remote].
  - repeat split. cbn [AppContext.appReducer AppContext.recentClaims length].
    rewrite length_take. lia.
  - by repeat split.
Qed.

(** The store action [loadClaims] replaces the recent claims by the
    fetched list as it is, however long, and the effect on the recent
    claims then recomputes the statistics from that list; on failure the
    message is recorded and the recent claims stay.  The loading flag is
    off in both cases. *)
Theorem loadClaims_action_outcomes (filters : Obj) (state : AppContext.AppState)
    (w : World Remote) :
  let fetched := Api.getClaims be rt filters w in
  let run := AppContext.loadClaims be rt filters (state, w) in
  run.1 = fetched.1 ∧ run.2.2 = fetched.2
  ∧ AppContext.loading run.2.1 = false
  ∧ AppContext.claims run.2.1 = AppContext.claims state
  ∧ match fetched.1 with
    | Ret claims =>
        AppContext.error run.2.1 = None
        ∧ AppContext.recentClaims run.2.1 = claims
        ∧ ∀ now, AppContext.stats (AppContext.recentClaims_effect now run.2.1)
                 = AppContext.calculateStats claims
    | Throw message =>
        AppContext.error run.2.1 = Some message
        ∧ AppContext.recentClaims run.2.1 = AppContext.recentClaims state
    end.
Proof.
  intros fetched run. subst run fetched.
  unfold AppContext.loadClaims, AppContext.dispatch. cbn [fst snd].
  destruct (Api.getClaims be rt filters w) as [[claims|message] w1];
    cbn [fst snd]; by repeat split.
Qed.

End StoreActions.

(** The failure of the batch at a service that is down. *)
Lemma processPendingClaims_failure_leaves_batch_open_witness :
  Api.getClaims Fixtures.be_unavailable Fixtures.rt Spec.limit_100 Fixtures.fresh_world
  = (Throw "HTTP 502: Request failed with status code 502",
     {| remote := 1; sent := [GET_claims Spec.limit_100] |})
  ∧ ∃ state',
      AppContext.processPendingClaims Fixtures.be_unavailable Fixtures.rt
        (AppContext.initialState, Fixtures.fresh_world)
      = (Throw "HTTP 502: Request failed with status code 502",
         (state', {| remote := 1; sent := [GET_claims Spec.limit_100] |}))
      ∧ AppContext.inProgress (AppContext.batchProcessing state') = true
      ∧ AppContext.errors (AppContext.batchProcessing state')
        = ["HTTP 502: Request failed with status code 502"].
Proof.
  assert (Hget : Api.getClaims Fixtures.be_unavailable Fixtures.rt Spec.limit_100
                   Fixtures.fresh_world
                 = (Throw "HTTP 502: Request failed with status code 502",
                    {| remote := 1; sent := [GET_claims Spec.limit_100] |}))
    by reflexivity.
  split; [exact Hget|].
  destruct (processPendingClaims_failure_leaves_batch_open Fixtures.be_unavailable
              Fixtures.rt AppContext.initialState _ _ _ Hget)
    as (state' & Hrun & Hbatch & _).
  exists state'. split; [exact Hrun|]. by rewrite Hbatch.
Defined.

(** The settings and the gateway.  [UPDATE_SETTINGS] always merges the
    patch into the settings.  The gateway is reconfigured only when the
    patch has a base URL or a key that is not empty, and then with both
    values of the merged settings: a patch of the key alone sends the
    current base URL again.  A patch that empties both leaves the gateway
    as it was, while the settings hold the empty strings. *)
Theorem update_settings_reconfigures_gateway (now : string) (state : AppContext.AppState)
    (payload : AppContext.SettingsPatch) (c : ApiConfig.Config) :
  let state' := AppContext.appReducer now state (AppContext.UPDATE_SETTINGS payload) in
  let c' := AppContext.UPDATE_SETTINGS_effect state payload c in
  AppContext.settings state' = AppContext.merge_settings (AppContext.settings state) payload
  ∧ (AppContext.patch_truthy (AppContext.patch_apiBaseUrl payload) = false →
     AppContext.patch_truthy (AppContext.patch_apiKey payload) = false →
     c' = c)
  ∧ (AppContext.patch_truthy (AppContext.patch_apiBaseUrl payload) = true
     ∨ AppContext.patch_truthy (AppContext.patch_apiKey payload) = true →
     ApiConfig.baseURL c' = AppContext.apiBaseUrl (AppContext.settings state')
     ∧ ApiConfig.request_api_key c' = AppContext.apiKey (AppContext.settings state')
     ∧ ApiConfig.localStorage c' !! "apiBaseUrl"
       = Some (AppContext.apiBaseUrl (AppContext.settings state'))
     ∧ ApiConfig.localStorage c' !! "apiKey"
       = Some (AppContext.apiKey (AppContext.settings state')))
  ∧ (AppContext.patch_apiBaseUrl payload = None →
     AppContext.patch_truthy (AppContext.patch_apiKey payload) = true →
     ApiConfig.baseURL c' = AppContext.apiBaseUrl (AppContext.settings state)).
Proof.
  intros state' c'. subst state' c'. unfold AppContext.UPDATE_SETTINGS_effect.
  split; [reflexivity|]. split; [|split].
  - intros -> ->. reflexivity.
  - intros Hsome.
    assert (Hor : AppContext.patch_truthy (AppContext.patch_apiBaseUrl payload)
                  || AppContext.patch_truthy (AppContext.patch_apiKey payload) = true)
      by (destruct Hsome as [-> | ->]; [done | apply orb_true_r]).
    rewrite Hor.
    pose proof (updateConfig_getConfig
                  {| ApiConfig.development := true;
                     ApiConfig.REACT_APP_API_BASE_URL := None;
                     ApiConfig.REACT_APP_API_KEY := None |} c
                  (AppContext.apiBaseUrl
                     (AppContext.merge_settings (AppContext.settings state) payload))
                  (AppContext.apiKey
                     (AppContext.merge_settings (AppContext.settings state) payload)))
      as (_ & Hkey & Hurl).
    cbn zeta in Hkey, Hurl. rewrite Hkey, Hurl.
    cbn [AppContext.appReducer AppContext.settings].
    unfold ApiConfig.updateConfig, ApiConfig.setItem. cbn [ApiConfig.localStorage].
    by rewrite lookup_insert_eq, lookup_insert_ne, lookup_insert_eq.
  - intros Hnone Hkey. rewrite Hnone, Hkey. cbn [orb AppContext.patch_truthy].
    unfold ApiConfig.updateConfig. cbn [ApiConfig.baseURL AppContext.merge_settings
                                       AppContext.apiBaseUrl].
    by rewrite Hnone.
Qed.
